(** * cruddl: the AQL generator, the TTL filter and the i18n validator

    A shallow embedding of
      - [src/database/arangodb/aql-generator.ts] (the compilation context
        [QueryContext] and the lowering pass [processNode]),
      - [src/project/time-to-live.ts] ([getTTLFilter] and its two callers),
      - the i18n validator ([ModelLocalizationProvider.isExistingAndAdd],
        [ModelLocalizationProvider.validate], [ModelI18n.validate]),
      - [arango-search-helpers.ts] (the views a model requires, their
        properties, the operations that create and drop them),
      - [utils.ts] ([flatMap], [flatten], [endsWith], [groupArray],
        [removeDuplicates]),
      - the cache of [operation-based-resolvers.ts],
    together with the statements that are checked against them. *)

From Stdlib Require Import ZArith String Ascii.
From stdpp Require Import gmap strings list pretty.

Local Open Scope string_scope.
Local Open Scope list_scope.
Set Warnings "-register-all".

(** ** JavaScript values *)

(** The values a [LiteralQueryNode] or a bound parameter can carry. Numbers
    are integers here; the generator never computes with them. *)
Inductive JsonValue : Type :=
| JNull
| JBool (b : bool)
| JNumber (z : Z)
| JString (s : string)
| JArray (items : list JsonValue).

(** [typeof v === 'string'], returning the string. *)
Definition asString (v : JsonValue) : option string :=
  match v with
  | JString s => Some s
  | _ => None
  end.

(** [Array.isArray(v) && v.every(x => typeof x === 'string')], returning the
    strings. *)
Definition asStringArray (v : JsonValue) : option (list string) :=
  match v with
  | JArray items => mapM asString items
  | _ => None
  end.

Definition MAX_SAFE_INTEGER : Z := 9007199254740991.

(** One-character strings that cannot be written inside a string literal. *)
Definition dquote : string := String (ascii_of_nat 34) EmptyString.
Definition newline : string := String (ascii_of_nat 10) EmptyString.

(** [String.fromCodePoint(0x10FFFF)], in UTF-8. *)
Definition maxChar : string :=
  String (ascii_of_nat 244) (String (ascii_of_nat 143)
    (String (ascii_of_nat 191) (String (ascii_of_nat 191) EmptyString))).

(** ** The model (the parts the generator reads) *)

Record Field : Type := mkField { field_name : string }.

Record RootEntityType : Type := mkRootEntityType { rootEntityType_name : string }.

Record Relation : Type := mkRelation {
  fromType : RootEntityType;
  toType : RootEntityType
}.

Record RelationSide : Type := mkRelationSide {
  isFromSide : bool;
  relation : Relation
}.

Record ScalarType : Type := mkScalarType { scalarType_name : string }.

(** ** Fragments *)

(** An [AQLVariable] is an object: [aqlVarId] stands for its identity.
    [isQueryResult] tells the subclass [AQLQueryResultVariable]. *)
Record AQLVariable : Type := mkAQLVariable {
  aqlVarId : nat;
  aqlVarLabel : option string;
  isQueryResult : bool
}.

Inductive AQLFragment : Type :=
| AQLCodeFragment (code : string)
| AQLVariableFragment (v : AQLVariable)
| AQLBoundValue (value : JsonValue)
| AQLCompoundFragment (fragments : list AQLFragment)
| AQLIndentationFragment (fragment : AQLFragment).

(** Modelled from the spec: the fragment builder ([aql.ts] is not among the
    sources). A template [aql`a ${x} b`] is the compound of its text snippets
    (as code) and its interpolated values, in order; an interpolated fragment
    is embedded as it is, anything else is bound as a value. Empty text
    snippets are left out. *)
Module aql.

Definition code (s : string) : AQLFragment := AQLCodeFragment s.
Definition value (v : JsonValue) : AQLFragment := AQLBoundValue v.
Definition var (v : AQLVariable) : AQLFragment := AQLVariableFragment v.
Definition template (parts : list AQLFragment) : AQLFragment :=
  AQLCompoundFragment parts.
Definition empty : AQLFragment := template [].

Definition isIdentStart (c : ascii) : bool :=
  let n := nat_of_ascii c in
  (Nat.leb 65 n && Nat.leb n 90) || (Nat.leb 97 n && Nat.leb n 122)
  || Nat.eqb n 95.

Definition isIdentChar (c : ascii) : bool :=
  let n := nat_of_ascii c in
  isIdentStart c || (Nat.leb 48 n && Nat.leb n 57).

Fixpoint allChars (p : ascii -> bool) (s : string) : bool :=
  match s with
  | EmptyString => true
  | String c rest => p c && allChars p rest
  end.

(** [[A-Za-z_][A-Za-z0-9_]*] *)
Definition isSafeIdentifier (s : string) : bool :=
  match s with
  | EmptyString => false
  | String c rest => isIdentStart c && allChars isIdentChar rest
  end.

Fixpoint intersperse (sep : AQLFragment) (fragments : list AQLFragment)
  : list AQLFragment :=
  match fragments with
  | [] => []
  | [f] => [f]
  | f :: rest => f :: sep :: intersperse sep rest
  end.

Definition join (fragments : list AQLFragment) (sep : AQLFragment) : AQLFragment :=
  AQLCompoundFragment (intersperse sep fragments).

Definition concat (fragments : list AQLFragment) : AQLFragment :=
  AQLCompoundFragment fragments.

Definition lines (fragments : list AQLFragment) : AQLFragment :=
  join fragments (template [code newline]).

Definition indent (f : AQLFragment) : AQLFragment := AQLIndentationFragment f.

(** A string that is safe to write as a quoted literal. *)
Definition string (s : string) : AQLFragment := code (dquote +:+ s +:+ dquote).

Definition integer (z : Z) : AQLFragment := code (pretty z).

End aql.

(** ** The query tree *)

Inductive BinaryOperator : Type :=
| AND | OR | EQUAL | UNEQUAL | LESS_THAN | LESS_THAN_OR_EQUAL | GREATER_THAN
| GREATER_THAN_OR_EQUAL | IN | ADD | SUBTRACT | MULTIPLY | DIVIDE | MODULO
| CONTAINS | STARTS_WITH | ENDS_WITH | LIKE | APPEND | PREPEND.

Inductive UnaryOperator : Type := NOT | JSON_STRINGIFY.

Inductive BinaryOperatorWithLanguage : Type :=
| QUICKSEARCH_STARTS_WITH
| QUICKSEARCH_CONTAINS_ANY_WORD
| QUICKSEARCH_CONTAINS_PREFIX
| QUICKSEARCH_CONTAINS_PHRASE.

Inductive BasicType : Type := OBJECT | LIST | SCALAR | NULL.

Inductive OrderDirection : Type := ASCENDING | DESCENDING.

Inductive Quantifier : Type := some | every | none.

(** The validator of a pre-execution result is opaque to the generator. *)
Record QueryResultValidator : Type := mkValidator { validatorName : string }.

(** A [VariableQueryNode] is compared and used as a map key by object
    identity: [varId] stands for that identity, the label is only a hint for
    the name of the AQL variable. *)
Record VariableNode : Type := mkVariable {
  varId : nat;
  varLabel : option string
}.

(** The helper classes of the query tree, over the type of nodes. *)
Record PropertySpecificationOf (node : Type) : Type := mkProperty {
  propertyName : string;
  valueNode : node
}.
Arguments mkProperty {node}.
Arguments propertyName {node}.
Arguments valueNode {node}.

Record OrderClauseOf (node : Type) : Type := mkOrderClause {
  clauseValueNode : node;
  direction : OrderDirection
}.
Arguments mkOrderClause {node}.
Arguments clauseValueNode {node}.
Arguments direction {node}.

Record PreExecutionParameterOf (node : Type) : Type := mkPreExec {
  query : node;
  resultVariable : option VariableNode;
  resultValidator : option QueryResultValidator
}.
Arguments mkPreExec {node}.
Arguments query {node}.
Arguments resultVariable {node}.
Arguments resultValidator {node}.

(** [EdgeIdentifier] and [PartialEdgeIdentifier]: [formatEdge] tests both
    ends for presence. *)
Record PartialEdgeIdentifierOf (node : Type) : Type := mkEdge {
  fromIDNode : option node;
  toIDNode : option node
}.
Arguments mkEdge {node}.
Arguments fromIDNode {node}.
Arguments toIDNode {node}.

Record EdgeFilterOf (node : Type) : Type := mkEdgeFilter {
  fromIDsNode : option node;
  toIDsNode : option node
}.
Arguments mkEdgeFilter {node}.
Arguments fromIDsNode {node}.
Arguments toIDsNode {node}.

Inductive QueryNode : Type :=
| LiteralQueryNode (value : JsonValue)
| NullQueryNode
| RuntimeErrorQueryNode (message : string)
| ConstBoolQueryNode (value : bool)
| ConstIntQueryNode (value : Z)
| ObjectQueryNode (properties : list (PropertySpecificationOf QueryNode))
| ListQueryNode (itemNodes : list QueryNode)
| ConcatListsQueryNode (listNodes : list QueryNode)
| VariableQueryNode (v : VariableNode)
| VariableAssignmentQueryNode (variableNode : VariableNode)
    (variableValueNode resultNode : QueryNode)
| WithPreExecutionQueryNode
    (preExecQueries : list (PreExecutionParameterOf QueryNode))
    (resultNode : QueryNode)
| EntityFromIdQueryNode (rootEntityType : RootEntityType) (idNode : QueryNode)
| FieldQueryNode (objectNode : QueryNode) (field : Field)
    (path : option (list Field))
| FieldPathQueryNode (objectNode : QueryNode) (path : list Field)
| RootEntityIDQueryNode (objectNode : QueryNode)
| QuickSearchQueryNode (rootEntityType : RootEntityType)
    (itemVariable : VariableNode) (qsFilterNode : QueryNode)
| TransformListQueryNode (listNode : QueryNode) (itemVariable : VariableNode)
    (filterNode : QueryNode) (orderBy : list (OrderClauseOf QueryNode))
    (skip : Z) (maxCount : option Z) (innerNode : QueryNode)
| CountQueryNode (listNode : QueryNode)
| MergeObjectsQueryNode (objectNodes : list QueryNode)
| FirstOfListQueryNode (listNode : QueryNode)
| BinaryOperationQueryNode (lhs : QueryNode) (operator : BinaryOperator)
    (rhs : QueryNode)
| OperatorWithLanguageQueryNode (lhs : QueryNode)
    (operator : BinaryOperatorWithLanguage) (rhs : QueryNode)
    (quickSearchLanguage : option string)
| UnaryOperationQueryNode (valueNode : QueryNode) (operator : UnaryOperator)
| ConditionalQueryNode (condition expr1 expr2 : QueryNode)
| TypeCheckQueryNode (valueNode : QueryNode) (type : BasicType)
| SafeListQueryNode (sourceNode : QueryNode)
| QuantifierFilterNode (listNode : QueryNode) (itemVariable : VariableNode)
    (quantifier : Quantifier) (conditionNode : QueryNode)
| EntitiesQueryNode (rootEntityType : RootEntityType)
| FollowEdgeQueryNode (relationSide : RelationSide) (sourceEntityNode : QueryNode)
| CreateEntityQueryNode (rootEntityType : RootEntityType) (objectNode : QueryNode)
| UpdateEntitiesQueryNode (rootEntityType : RootEntityType) (listNode : QueryNode)
    (updates : list (PropertySpecificationOf QueryNode))
    (currentEntityVariable : VariableNode)
| DeleteEntitiesQueryNode (rootEntityType : RootEntityType) (listNode : QueryNode)
| AddEdgesQueryNode (relation : Relation)
    (edges : list (PartialEdgeIdentifierOf QueryNode))
| RemoveEdgesQueryNode (relation : Relation) (edgeFilter : EdgeFilterOf QueryNode)
| SetEdgeQueryNode (relation : Relation)
    (existingEdge newEdge : PartialEdgeIdentifierOf QueryNode).

Abbreviation PropertySpecification := (PropertySpecificationOf QueryNode).
Abbreviation OrderClause := (OrderClauseOf QueryNode).
Abbreviation PreExecutionParameter := (PreExecutionParameterOf QueryNode).
Abbreviation PartialEdgeIdentifier := (PartialEdgeIdentifierOf QueryNode).
Abbreviation EdgeFilter := (EdgeFilterOf QueryNode).

(** A [VariableAssignmentQueryNode] as [extractVariableAssignments] collects
    it; the generator reads these two fields. *)
Record VariableAssignment : Type := mkAssignment {
  variableNode : VariableNode;
  variableValueNode : QueryNode
}.

(** [ListQueryNode.EMPTY] *)
Definition ListQueryNode_EMPTY : QueryNode := ListQueryNode [].

(** Modelled from the spec: the constructor of TransformListQueryNode, which
    is not among the sources, called with a list, an item variable, a filter
    and possibly a maximum; the parameters left out take their defaults (no
    ordering, no skip, the item itself as projection). *)
Definition newTransformList (listNode : QueryNode) (filterNode : QueryNode)
    (itemVariable : VariableNode) (maxCount : option Z) : QueryNode :=
  TransformListQueryNode listNode itemVariable filterNode [] 0 maxCount
    (VariableQueryNode itemVariable).

(** [node === itemVariable] for a node and a variable node. *)
Definition isVariable (node : QueryNode) (v : VariableNode) : bool :=
  match node with
  | VariableQueryNode w => bool_decide (varId w = varId v)
  | _ => false
  end.

(** ** What the generator imports from modules that are not modelled *)

Record LikePatternAnalysis : Type := mkLikeAnalysis {
  literalPrefix : string;
  isSimplePrefixPattern : bool;
  isLiteralPattern : bool
}.

Record OptimizationConfig : Type := mkOptimizationConfig {
  enableExperimentalProjectionIndirection : bool;
  experimentalProjectionIndirectionTypeNames : option (list string)
}.

Class Imports : Type := mkImports {
  (** [String.prototype.toLowerCase], [toUpperCase] *)
  toLowerCase : string -> string;
  toUpperCase : string -> string;
  (** [utils/utils] *)
  decapitalize : string -> string;
  (** [database/like-helpers] *)
  analyzeLikePatternPrefix : string -> LikePatternAnalysis;
  (** [query-tree] *)
  RUNTIME_ERROR_TOKEN : string;
  (** [query-tree/utils] *)
  simplifyBooleans : QueryNode -> QueryNode;
  extractVariableAssignments : QueryNode -> QueryNode * list VariableAssignment;
  (** [schema-generation/filter-input-types/constants] *)
  not : QueryNode -> QueryNode;
  (** [arango-basics], [arango-search-helpers] *)
  getCollectionNameForRootEntity : RootEntityType -> string;
  getCollectionNameForRelation : Relation -> string;
  getViewNameForRootEntity : RootEntityType -> string;
  (** [aqlConfig.optimizationConfig] *)
  optimizationConfig : OptimizationConfig
}.

Definition IDENTITY_ANALYZER : string := "identity".

(** ** The store

    [Set] and array objects are shared between contexts by reference: the
    store maps references to their current contents, as do the counters that
    stand for the identity of freshly created objects. A [Set<string>] is the
    list of its elements in insertion order. *)

Record AQLCompoundQuery : Type := mkCompoundQuery {
  cq_preExecQueries : nat;   (* the array, by reference *)
  cq_aqlQuery : AQLFragment;
  cq_resultVar : option AQLVariable;
  cq_resultValidator : option QueryResultValidator;
  cq_readAccessedCollections : list string;
  cq_writeAccessedCollections : list string
}.

Record Store : Type := mkStore {
  arrays : gmap nat (list AQLCompoundQuery);
  sets : gmap nat (list string);
  nextRef : nat;
  nextVariable : nat
}.

Definition emptyStore : Store := mkStore ∅ ∅ 0 0.

Definition setOf (st : Store) (r : nat) : list string := default [] (sets st !! r).
Definition arrayOf (st : Store) (r : nat) : list AQLCompoundQuery :=
  default [] (arrays st !! r).

(** [set.add(x)] *)
Definition setAdd (x : string) (s : list string) : list string :=
  if bool_decide (x ∈ s) then s else s ++ [x].

(** ** Compilation as a computation on the store that may throw *)

Inductive CompileError : Type :=
| VariableIntroducedTwice (v : VariableNode)
| VariableNotIntroduced (v : VariableNode)
| UnsupportedQueryType
| UnsupportedBinaryOperator (op : BinaryOperator)
| UnsafeIdentifier (s : string).

Inductive Result (A : Type) : Type :=
| Ok (a : A)
| Throw (e : CompileError)
| OutOfFuel.
Arguments Ok {A}.
Arguments Throw {A}.
Arguments OutOfFuel {A}.

Definition M (A : Type) : Type := Store -> Result (A * Store).

Definition ret {A} (a : A) : M A := fun st => Ok (a, st).
Definition throw {A} (e : CompileError) : M A := fun _ => Throw e.
Definition outOfFuel {A} : M A := fun _ => OutOfFuel.
Definition bind {A B} (m : M A) (k : A -> M B) : M B :=
  fun st =>
    match m st with
    | Ok (a, st') => k a st'
    | Throw e => Throw e
    | OutOfFuel => OutOfFuel
    end.

Declare Scope gen_scope.
Delimit Scope gen_scope with gen.
Notation "x <- m ;; k" := (bind m (fun x => k))
  (at level 62, m at next level, right associativity) : gen_scope.
Local Open Scope gen_scope.

(** [list.map(f)] for a callback with effects: left to right. *)
Fixpoint mapM_gen {A B} (f : A -> M B) (l : list A) : M (list B) :=
  match l with
  | [] => ret []
  | x :: rest => y <- f x ;; ys <- mapM_gen f rest ;; ret (y :: ys)
  end.

(** [new AQLVariable(label)], [new AQLQueryResultVariable(label)],
    [aql.variable(label)]: a fresh object. *)
Definition newAQLVariable (label : option string) (queryResult : bool)
  : M AQLVariable :=
  fun st =>
    Ok (mkAQLVariable (nextVariable st) label queryResult,
        mkStore (arrays st) (sets st) (nextRef st) (S (nextVariable st))).

(** Modelled from the spec: the operations of the fragment builder that
    create an object or may refuse their argument ([aql.ts] is not among the
    sources). *)
Module aqlM.
Definition variable (label : string) : M AQLVariable :=
  newAQLVariable (Some label) false.
Definition queryResultVariable (label : string) : M AQLVariable :=
  newAQLVariable (Some label) true.
(** [aql.identifier(name)], [aql.collection(name)]: refused unless safe. *)
Definition identifier (name : string) : M AQLFragment :=
  if aql.isSafeIdentifier name then ret (aql.code name)
  else throw (UnsafeIdentifier name).
Definition collection (name : string) : M AQLFragment :=
  if aql.isSafeIdentifier name then ret (aql.code name)
  else throw (UnsafeIdentifier name).
End aqlM.

(** ** QueryContext *)

Inductive AccessType : Type := READ | WRITE.

Record QueryContext : Type := mkContext {
  variableMap : gmap nat AQLVariable;
  preExecQueries : nat;
  readAccessedCollections : nat;
  writeAccessedCollections : nat
}.

(** [new QueryContext()]: an empty map, a fresh array and two fresh sets. *)
Definition newQueryContext : M QueryContext :=
  fun st =>
    let r := nextRef st in
    Ok (mkContext ∅ r (r + 1) (r + 2),
        mkStore (<[r := []]> (arrays st))
                (<[r + 2 := []]> (<[r + 1 := []]> (sets st)))
                (r + 3) (nextVariable st)).

(** The [forEach] loop of [newPreExecContext]: the bindings of [source] to a
    query-result variable are set in [target]. *)
Definition copyQueryResultVariables (source target : gmap nat AQLVariable)
  : gmap nat AQLVariable :=
  map_fold (fun varNode aqlVar newMap =>
              if isQueryResult aqlVar then <[varNode := aqlVar]> newMap
              else newMap)
           target source.

Definition newPreExecContext (this : QueryContext) : M QueryContext :=
  newContext <- newQueryContext ;;
  ret (mkContext
         (copyQueryResultVariables (variableMap this) (variableMap newContext))
         (preExecQueries newContext)
         (readAccessedCollections this)
         (writeAccessedCollections this)).

Definition newNestedContextWithNewVariable (this : QueryContext)
    (variableNode : VariableNode) (aqlVariable : AQLVariable) : M QueryContext :=
  match variableMap this !! varId variableNode with
  | Some _ => throw (VariableIntroducedTwice variableNode)
  | None =>
      _ <- newQueryContext ;;
      ret (mkContext
             (<[varId variableNode := aqlVariable]> (variableMap this))
             (preExecQueries this)
             (readAccessedCollections this)
             (writeAccessedCollections this))
  end.

Definition introduceVariable (this : QueryContext) (variableNode : VariableNode)
  : M QueryContext :=
  variable <- newAQLVariable (varLabel variableNode) false ;;
  newNestedContextWithNewVariable this variableNode variable.

Definition addCollectionAccess (this : QueryContext) (collection : string)
    (accessType : AccessType) : M unit :=
  fun st =>
    let r := match accessType with
             | READ => readAccessedCollections this
             | WRITE => writeAccessedCollections this
             end in
    Ok (tt, mkStore (arrays st) (<[r := setAdd collection (setOf st r)]> (sets st))
                    (nextRef st) (nextVariable st)).

Definition getVariable (this : QueryContext) (variableNode : VariableNode)
  : M AQLFragment :=
  match variableMap this !! varId variableNode with
  | None => throw (VariableNotIntroduced variableNode)
  | Some variable => ret (aql.template [aql.var variable])
  end.

Definition getPreExecuteQueries (this : QueryContext) : nat := preExecQueries this.

Definition getReadAccessedCollections (this : QueryContext) : M (list string) :=
  fun st => Ok (setOf st (readAccessedCollections this), st).

Definition getWriteAccessedCollections (this : QueryContext) : M (list string) :=
  fun st => Ok (setOf st (writeAccessedCollections this), st).

(** [array.push(q)] on the array behind a reference. *)
Definition pushPreExecQuery (r : nat) (q : AQLCompoundQuery) : M unit :=
  fun st =>
    Ok (tt, mkStore (<[r := arrayOf st r ++ [q]]> (arrays st)) (sets st)
                    (nextRef st) (nextVariable st)).

(** ** The lowering pass *)

Module aqlExt.

Definition safeJSONKey (key : string) : AQLFragment :=
  if aql.isSafeIdentifier key then aql.template [aql.string key]
  else aql.template [aql.value (JString key)].

Definition parenthesizeList (content : list AQLFragment) : AQLFragment :=
  aql.lines [aql.template [aql.code "("];
             aql.indent (aql.lines content);
             aql.template [aql.code ")"]].

Definition parenthesizeObject (content : list AQLFragment) : AQLFragment :=
  aql.template [aql.code "FIRST"; parenthesizeList content].

End aqlExt.

Section Generator.
Context `{Imports}.

Definition isStringCaseInsensitive (str : string) : bool :=
  String.eqb (toLowerCase str) (toUpperCase str).

Definition getFastStartsWithQuery (lhs : AQLFragment) (rhsValue : string)
  : AQLFragment :=
  match rhsValue with
  | EmptyString => aql.template [aql.code "IS_STRING("; lhs; aql.code ")"]
  | _ =>
      let maxStr := rhsValue +:+ maxChar in
      aql.template
        [aql.code "("; lhs; aql.code " >= UPPER("; aql.value (JString rhsValue);
         aql.code ") && "; lhs; aql.code " < LOWER("; aql.value (JString maxStr);
         aql.code "))"]
  end.

Definition getEqualsIgnoreCaseQuery (lhs : AQLFragment) (rhsValue : string)
  : AQLFragment :=
  if isStringCaseInsensitive rhsValue then
    aql.template [aql.code "("; lhs; aql.code " == ";
                  aql.value (JString rhsValue); aql.code ")"]
  else
    let lowerBoundFrag :=
      aql.template [aql.code "UPPER("; aql.value (JString rhsValue); aql.code ")"] in
    let upperBoundFrag :=
      aql.template [aql.code "LOWER("; aql.value (JString rhsValue); aql.code ")"] in
    aql.template [aql.code "("; lhs; aql.code " >= "; lowerBoundFrag;
                  aql.code " && "; lhs; aql.code " <= "; upperBoundFrag;
                  aql.code ")"].

Definition getAQLOperator (op : BinaryOperator) : option AQLFragment :=
  match op with
  | AND => Some (aql.template [aql.code "&&"])
  | OR => Some (aql.template [aql.code "||"])
  | EQUAL => Some (aql.template [aql.code "=="])
  | UNEQUAL => Some (aql.template [aql.code "!="])
  | LESS_THAN => Some (aql.template [aql.code "<"])
  | LESS_THAN_OR_EQUAL => Some (aql.template [aql.code "<="])
  | GREATER_THAN => Some (aql.template [aql.code ">"])
  | GREATER_THAN_OR_EQUAL => Some (aql.template [aql.code ">="])
  | IN => Some (aql.template [aql.code "IN"])
  | ADD => Some (aql.template [aql.code "+"])
  | SUBTRACT => Some (aql.template [aql.code "-"])
  | MULTIPLY => Some (aql.template [aql.code "*"])
  | DIVIDE => Some (aql.template [aql.code "/"])
  | MODULO => Some (aql.template [aql.code "%"])
  | _ => None
  end.

(** The identifier is written as code under the guard that makes
    [aql.identifier] accept it. *)
Definition getFieldAccessFragment (field : Field) : AQLFragment :=
  let identifier := field_name field in
  if aql.isSafeIdentifier identifier then
    aql.template [aql.code "."; aql.code identifier]
  else
    aql.template [aql.code "["; aql.value (JString identifier); aql.code "]"].

Fixpoint getFieldPathAccessFragmentOf (path : list Field) : M AQLFragment :=
  match path with
  | first :: rest =>
      ident <- aqlM.identifier (field_name first) ;;
      more <- getFieldPathAccessFragmentOf rest ;;
      ret (aql.template [aql.code "."; ident; more])
  | [] => ret aql.empty
  end.

Definition getFieldPathAccessFragment (path : option (list Field)) : M AQLFragment :=
  match path with
  | Some p => getFieldPathAccessFragmentOf p
  | None => ret aql.empty
  end.

Definition getCollectionForType (type : RootEntityType) (accessType : AccessType)
    (context : QueryContext) : M AQLFragment :=
  let name := getCollectionNameForRootEntity type in
  _ <- addCollectionAccess context name accessType ;;
  aqlM.collection name.

Definition getCollectionForRelation (relation : Relation) (accessType : AccessType)
    (context : QueryContext) : M AQLFragment :=
  let name := getCollectionNameForRelation relation in
  _ <- addCollectionAccess context name accessType ;;
  aqlM.collection name.

Definition getFullIDFromKeyFragment (keyFragment : AQLFragment)
    (rootEntityType : RootEntityType) : AQLFragment :=
  aql.template
    [aql.code "CONCAT(";
     aql.value (JString (getCollectionNameForRootEntity rootEntityType +:+ "/"));
     aql.code ", "; keyFragment; aql.code ")"].

(** The LIMIT clause of a TransformList block. *)
Definition limitClause (skip : Z) (maxCount : option Z) : AQLFragment :=
  match maxCount with
  | Some maxCount =>
      if Z.eqb skip 0 then
        aql.template [aql.code "LIMIT "; aql.value (JNumber maxCount)]
      else
        aql.template [aql.code "LIMIT "; aql.value (JNumber skip); aql.code ", ";
                      aql.value (JNumber maxCount)]
  | None =>
      if Z.ltb 0 skip then
        aql.template [aql.code "LIMIT "; aql.value (JNumber skip); aql.code ", ";
                      aql.value (JNumber MAX_SAFE_INTEGER)]
      else aql.empty
  end.

(** The analyzer of an OperatorWithLanguage node; an empty string counts as
    no language. *)
Definition analyzerFor (quickSearchLanguage : option string) : string :=
  match quickSearchLanguage with
  | Some EmptyString | None => IDENTITY_ANALYZER
  | Some language => "text_" +:+ toLowerCase language
  end.

(** *** The handlers, over the function they recurse through *)

Section Handlers.
Variable processNode : QueryNode -> QueryContext -> M AQLFragment.

(** The loop that turns extracted assignments into LET lines, extending
    the context by one variable per assignment. *)
Fixpoint assignVariables (assignmentNodes : list VariableAssignment)
    (context : QueryContext) (variableAssignments : list AQLFragment)
  : M (QueryContext * list AQLFragment) :=
  match assignmentNodes with
  | [] => ret (context, variableAssignments)
  | assignmentNode :: rest =>
      context' <- introduceVariable context (variableNode assignmentNode) ;;
      tmpVar <- getVariable context' (variableNode assignmentNode) ;;
      value <- processNode (variableValueNode assignmentNode) context' ;;
      assignVariables rest context'
        (variableAssignments
           ++ [aql.template [aql.code "LET "; tmpVar; aql.code " = "; value]])
  end.

Definition createAQLCompoundQuery (node : QueryNode)
    (resultVariable : option AQLVariable)
    (resultValidator : option QueryResultValidator)
    (context : QueryContext) : M AQLCompoundQuery :=
  let extracted := extractVariableAssignments node in
  assigned <- assignVariables extracted.2 context [] ;;
  let context := assigned.1 in
  body <- processNode extracted.1 context ;;
  let aqlQuery :=
    aql.lines (assigned.2 ++ [aql.template [aql.code "RETURN "; body]]) in
  let preExecQueries := getPreExecuteQueries context in
  readAccessedCollections <- getReadAccessedCollections context ;;
  writeAccessedCollections <- getWriteAccessedCollections context ;;
  ret (mkCompoundQuery preExecQueries aqlQuery resultVariable resultValidator
         readAccessedCollections writeAccessedCollections).

Definition addPreExecuteQuery (this : QueryContext) (preExecQuery : QueryNode)
    (resultVariable : option VariableNode)
    (resultValidator : option QueryResultValidator) : M QueryContext :=
  introduced <-
    match resultVariable with
    | Some resultVariable =>
        resultVar <- newAQLVariable (varLabel resultVariable) true ;;
        newContext <-
          newNestedContextWithNewVariable this resultVariable resultVar ;;
        ret (Some resultVar, newContext)
    | None => ret (None, this)
    end ;;
  preExecContext <- newPreExecContext this ;;
  aqlQuery <-
    createAQLCompoundQuery preExecQuery introduced.1 resultValidator
      preExecContext ;;
  _ <- pushPreExecQuery (preExecQueries this) aqlQuery ;;
  ret introduced.2.

Fixpoint addPreExecuteQueries (preExecParms : list PreExecutionParameter)
    (currentContext : QueryContext) : M QueryContext :=
  match preExecParms with
  | [] => ret currentContext
  | preExecParm :: rest =>
      currentContext' <-
        addPreExecuteQuery currentContext (query preExecParm)
          (resultVariable preExecParm) (resultValidator preExecParm) ;;
      addPreExecuteQueries rest currentContext'
  end.

Definition getSimpleFollowEdgeFragment (relationSide : RelationSide)
    (sourceEntityNode : QueryNode) (context : QueryContext) : M AQLFragment :=
  let dir := if isFromSide relationSide
             then aql.template [aql.code "OUTBOUND"]
             else aql.template [aql.code "INBOUND"] in
  source <- processNode sourceEntityNode context ;;
  collection <- getCollectionForRelation (relation relationSide) READ context ;;
  ret (aql.template [dir; aql.code "  "; source; aql.code " "; collection]).

Definition dirAQL (dir : OrderDirection) : AQLFragment :=
  match dir with
  | DESCENDING => aql.template [aql.code " DESC"]
  | ASCENDING => aql.empty
  end.

Definition generateSortAQL (orderBy : list OrderClause) (context : QueryContext)
  : M AQLFragment :=
  match orderBy with
  | [] => ret aql.empty
  | _ =>
      clauses <-
        mapM_gen (fun cl =>
                    value <- processNode (clauseValueNode cl) context ;;
                    ret (aql.template [aql.code "("; value; aql.code ") ";
                                       dirAQL (direction cl)]))
                 orderBy ;;
      ret (aql.template
             [aql.code "SORT "; aql.join clauses (aql.template [aql.code ", "])])
  end.

Definition getFullIDFromKeyNode (node : QueryNode)
    (rootEntityType : RootEntityType) (context : QueryContext) : M AQLFragment :=
  match node with
  | LiteralQueryNode (JString value) =>
      ret (aql.template
             [aql.value (JString (getCollectionNameForRootEntity rootEntityType
                                  +:+ "/" +:+ value))])
  | RootEntityIDQueryNode objectNode =>
      object <- processNode objectNode context ;;
      ret (aql.template [object; aql.code "._id"])
  | _ =>
      key <- processNode node context ;;
      ret (getFullIDFromKeyFragment key rootEntityType)
  end.

Definition getFullIDsFromKeysNode (idsNode : QueryNode)
    (rootEntityType : RootEntityType) (context : QueryContext) : M AQLFragment :=
  let general :=
    idVar <- aqlM.variable "id" ;;
    ids <- processNode idsNode context ;;
    ret (aql.template
           [aql.code "(FOR "; aql.var idVar; aql.code " IN "; ids;
            aql.code " RETURN ";
            getFullIDFromKeyFragment (aql.var idVar) rootEntityType;
            aql.code ")"]) in
  match idsNode with
  | ListQueryNode itemNodes =>
      idFragments <-
        mapM_gen (fun idNode => getFullIDFromKeyNode idNode rootEntityType context)
                 itemNodes ;;
      ret (aql.template
             [aql.code "[";
              aql.join idFragments (aql.template [aql.code ", "]);
              aql.code "]"])
  | LiteralQueryNode value =>
      match asStringArray value with
      | Some values =>
          let collName := getCollectionNameForRootEntity rootEntityType in
          let ids := map (fun val => JString (collName +:+ "/" +:+ val)) values in
          ret (aql.value (JArray ids))
      | None => general
      end
  | _ => general
  end.

Definition formatEdge (relation : Relation) (edge : PartialEdgeIdentifier)
    (context : QueryContext) : M AQLFragment :=
  fromCondition <-
    match fromIDNode edge with
    | Some node =>
        id <- getFullIDFromKeyNode node (fromType relation) context ;;
        ret [aql.template [aql.code "_from: "; id]]
    | None => ret []
    end ;;
  toCondition <-
    match toIDNode edge with
    | Some node =>
        id <- getFullIDFromKeyNode node (toType relation) context ;;
        ret [aql.template [aql.code "_to: "; id]]
    | None => ret []
    end ;;
  ret (aql.template
         [aql.code "{";
          aql.join (fromCondition ++ toCondition) (aql.template [aql.code ", "]);
          aql.code "}"]).

(** **** Values and structure *)

Definition processRuntimeError (message : string) : AQLFragment :=
  let runtimeErrorToken := aql.code RUNTIME_ERROR_TOKEN in
  aql.template [aql.code "{"; runtimeErrorToken; aql.code ": ";
                aql.value (JString message); aql.code "}"].

Definition processObject (properties : list PropertySpecification)
    (context : QueryContext) : M AQLFragment :=
  match properties with
  | [] => ret (aql.template [aql.code "{}"])
  | _ =>
      properties' <-
        mapM_gen (fun p =>
                    value <- processNode (valueNode p) context ;;
                    ret (aql.template [aqlExt.safeJSONKey (propertyName p);
                                       aql.code ": "; value]))
                 properties ;;
      ret (aql.lines
             [aql.template [aql.code "{"];
              aql.indent
                (aql.join properties' (aql.template [aql.code ("," +:+ newline)]));
              aql.template [aql.code "}"]])
  end.

Definition processList (itemNodes : list QueryNode) (context : QueryContext)
  : M AQLFragment :=
  match itemNodes with
  | [] => ret (aql.template [aql.code "[]"])
  | _ =>
      items <- mapM_gen (fun itemNode => processNode itemNode context) itemNodes ;;
      ret (aql.lines
             [aql.template [aql.code "["];
              aql.indent
                (aql.join items (aql.template [aql.code ("," +:+ newline)]));
              aql.template [aql.code "]"]])
  end.

Definition processConcatLists (listNodes : list QueryNode)
    (context : QueryContext) : M AQLFragment :=
  listNodes' <- mapM_gen (fun node => processNode node context) listNodes ;;
  let listNodeStr := aql.join listNodes' (aql.template [aql.code ", "]) in
  ret (aql.template [aql.code "UNION("; listNodeStr; aql.code ")"]).

Definition processMergeObjects (objectNodes : list QueryNode)
    (context : QueryContext) : M AQLFragment :=
  objectList <- mapM_gen (fun node => processNode node context) objectNodes ;;
  let objectsFragment := aql.join objectList (aql.template [aql.code ", "]) in
  ret (aql.template [aql.code "MERGE("; objectsFragment; aql.code ")"]).

Definition processVariableAssignment (variableNode : VariableNode)
    (variableValueNode resultNode : QueryNode) (context : QueryContext)
  : M AQLFragment :=
  newContext <- introduceVariable context variableNode ;;
  tmpVar <- getVariable newContext variableNode ;;
  value <- processNode variableValueNode newContext ;;
  result <- processNode resultNode newContext ;;
  ret (aqlExt.parenthesizeObject
         [aql.template [aql.code "LET "; tmpVar; aql.code " = "; value];
          aql.template [aql.code "RETURN "; result]]).

Definition processWithPreExecution
    (preExecQueries : list PreExecutionParameter) (resultNode : QueryNode)
    (context : QueryContext) : M AQLFragment :=
  currentContext <- addPreExecuteQueries preExecQueries context ;;
  result <- processNode resultNode currentContext ;;
  ret (aql.template [result]).

Definition processEntityFromId (rootEntityType : RootEntityType)
    (idNode : QueryNode) (context : QueryContext) : M AQLFragment :=
  collection <- getCollectionForType rootEntityType READ context ;;
  id <- processNode idNode context ;;
  ret (aql.template [aql.code "DOCUMENT("; collection; aql.code ", "; id;
                     aql.code ")"]).

Definition processField (objectNode : QueryNode) (field : Field)
    (path : option (list Field)) (context : QueryContext) : M AQLFragment :=
  object <- processNode objectNode context ;;
  pathAccess <- getFieldPathAccessFragment path ;;
  ret (aql.template [object; pathAccess; getFieldAccessFragment field]).

Definition processRootEntityID (objectNode : QueryNode) (context : QueryContext)
  : M AQLFragment :=
  object <- processNode objectNode context ;;
  ret (aql.template [object; aql.code "._key"]).

Definition processQuickSearch (rootEntityType : RootEntityType)
    (itemVariable : VariableNode) (qsFilterNode : QueryNode)
    (context : QueryContext) : M AQLFragment :=
  itemContext <- introduceVariable context itemVariable ;;
  itemVar <- getVariable itemContext itemVariable ;;
  view <- aqlM.identifier (getViewNameForRootEntity rootEntityType) ;;
  filter <- processNode qsFilterNode itemContext ;;
  itemVar' <- getVariable itemContext itemVariable ;;
  ret (aql.template [aql.code "(FOR "; itemVar; aql.code " IN "; view;
                     aql.code " SEARCH "; filter; aql.code " RETURN "; itemVar';
                     aql.code ")"]).

(** **** Lists *)

Definition useIndirectedProjection (listNode : QueryNode)
    (itemVariable : VariableNode) (maxCount : option Z) (innerNode : QueryNode)
  : bool :=
  enableExperimentalProjectionIndirection optimizationConfig
  && match listNode with
     | EntitiesQueryNode rootEntityType =>
         match experimentalProjectionIndirectionTypeNames optimizationConfig with
         | None => true
         | Some typeNames =>
             bool_decide (rootEntityType_name rootEntityType ∈ typeNames)
         end
     | _ => false
     end
  && negb (isVariable innerNode itemVariable)
  && bool_decide (is_Some maxCount).

Definition processTransformList (listNode : QueryNode)
    (itemVariable : VariableNode) (filterNode : QueryNode)
    (orderBy : list OrderClause) (skip : Z) (maxCount : option Z)
    (innerNode : QueryNode) (context : QueryContext) : M AQLFragment :=
  itemContext <- introduceVariable context itemVariable ;;
  itemVar <- getVariable itemContext itemVariable ;;
  let indirected := useIndirectedProjection listNode itemVariable maxCount innerNode in
  projection <-
    (if indirected then
       itemProjectionContext <- introduceVariable context itemVariable ;;
       itemProjectionVar <- getVariable itemProjectionContext itemVariable ;;
       ret (itemProjectionContext, itemProjectionVar)
     else ret (itemContext, itemVar)) ;;
  listAndFilter <-
    match listNode with
    | FollowEdgeQueryNode relationSide sourceEntityNode =>
        list <- getSimpleFollowEdgeFragment relationSide sourceEntityNode context ;;
        ret (list, aql.template [aql.code "FILTER "; itemVar; aql.code " != null"])
    | _ =>
        list <- processNode listNode context ;;
        ret (list, aql.empty)
    end ;;
  let filter := simplifyBooleans filterNode in
  let limit := limitClause skip maxCount in
  let extracted := extractVariableAssignments innerNode in
  assigned <- assignVariables extracted.2 projection.1 [] ;;
  filterFragment <-
    match filter with
    | ConstBoolQueryNode true => ret aql.empty
    | _ =>
        condition <- processNode filter itemContext ;;
        ret (aql.template [aql.code "FILTER "; condition])
    end ;;
  sort <- generateSortAQL orderBy itemContext ;;
  result <- processNode extracted.1 assigned.1 ;;
  ret (aqlExt.parenthesizeList
         ([aql.template [aql.code "FOR "; itemVar];
           aql.template [aql.code "IN "; listAndFilter.1];
           filterFragment;
           listAndFilter.2;
           sort;
           limit;
           (if indirected then
              aql.template [aql.code "LET "; projection.2;
                            aql.code " = DOCUMENT("; itemVar; aql.code "._id)"]
            else aql.empty)]
          ++ assigned.2
          ++ [aql.template [aql.code "RETURN "; result]])).

Definition processCount (listNode : QueryNode) (context : QueryContext)
  : M AQLFragment :=
  let general :=
    itemVar <- aqlM.variable "item" ;;
    countVar <- aqlM.variable "count" ;;
    list <- processNode listNode context ;;
    ret (aqlExt.parenthesizeObject
           [aql.template [aql.code "FOR "; aql.var itemVar];
            aql.template [aql.code "IN "; list];
            aql.template [aql.code "COLLECT WITH COUNT INTO "; aql.var countVar];
            aql.template [aql.code "return "; aql.var countVar]]) in
  match listNode with
  | FieldQueryNode _ _ _ | EntitiesQueryNode _ =>
      list <- processNode listNode context ;;
      ret (aql.template [aql.code "LENGTH("; list; aql.code ")"])
  | _ => general
  end.

Definition processFirstOfList (listNode : QueryNode) (context : QueryContext)
  : M AQLFragment :=
  list <- processNode listNode context ;;
  ret (aql.template [aql.code "FIRST("; list; aql.code ")"]).

(** **** Operations *)

Definition processBinaryOperation (lhsNode : QueryNode)
    (operator : BinaryOperator) (rhsNode : QueryNode) (context : QueryContext)
  : M AQLFragment :=
  lhs <- processNode lhsNode context ;;
  rhs <- processNode rhsNode context ;;
  match getAQLOperator operator with
  | Some op => ret (aql.template [aql.code "("; lhs; aql.code " "; op;
                                  aql.code " "; rhs; aql.code ")"])
  | None =>
      match operator with
      | CONTAINS =>
          ret (aql.template
                 [aql.code "("; lhs;
                  aql.code (" LIKE CONCAT(" +:+ dquote +:+ "%" +:+ dquote +:+ ", ");
                  rhs;
                  aql.code (", " +:+ dquote +:+ "%" +:+ dquote +:+ "))")])
      | STARTS_WITH =>
          let slowFrag :=
            aql.template [aql.code "(LEFT("; lhs; aql.code ", LENGTH("; rhs;
                          aql.code ")) == "; rhs; aql.code ")"] in
          match rhsNode with
          | LiteralQueryNode (JString value) =>
              let fastFrag := getFastStartsWithQuery lhs value in
              ret (aql.template [fastFrag; aql.code " && "; slowFrag])
          | _ => ret slowFrag
          end
      | ENDS_WITH =>
          ret (aql.template [aql.code "(RIGHT("; lhs; aql.code ", LENGTH("; rhs;
                             aql.code ")) == "; rhs; aql.code ")"])
      | LIKE =>
          let slowLikeFrag :=
            aql.template [aql.code "LIKE("; lhs; aql.code ", "; rhs;
                          aql.code ", true)"] in
          match rhsNode with
          | LiteralQueryNode (JString value) =>
              let analysis := analyzeLikePatternPrefix value in
              if isLiteralPattern analysis then
                ret (getEqualsIgnoreCaseQuery lhs (literalPrefix analysis))
              else
                let fastFrag := getFastStartsWithQuery lhs (literalPrefix analysis) in
                if isSimplePrefixPattern analysis then ret fastFrag
                else ret (aql.template [aql.code "("; fastFrag; aql.code " && ";
                                        slowLikeFrag; aql.code ")"])
          | _ => ret slowLikeFrag
          end
      | APPEND =>
          ret (aql.template [aql.code "CONCAT("; lhs; aql.code ", "; rhs;
                             aql.code ")"])
      | PREPEND =>
          ret (aql.template [aql.code "CONCAT("; rhs; aql.code ", "; lhs;
                             aql.code ")"])
      | _ => throw (UnsupportedBinaryOperator operator)
      end
  end.

Definition processOperatorWithLanguage (lhsNode : QueryNode)
    (operator : BinaryOperatorWithLanguage) (rhsNode : QueryNode)
    (quickSearchLanguage : option string) (context : QueryContext)
  : M AQLFragment :=
  lhs <- processNode lhsNode context ;;
  rhs <- processNode rhsNode context ;;
  let analyzer := aql.value (JString (analyzerFor quickSearchLanguage)) in
  match operator with
  | QUICKSEARCH_STARTS_WITH =>
      ret (aql.template [aql.code "STARTS_WITH("; lhs; aql.code ","; rhs;
                         aql.code ")"])
  | QUICKSEARCH_CONTAINS_ANY_WORD =>
      ret (aql.template [aql.code "ANALYZER( "; lhs; aql.code " IN TOKENS("; rhs;
                         aql.code ", "; analyzer; aql.code "),"; analyzer;
                         aql.code ")"])
  | QUICKSEARCH_CONTAINS_PREFIX =>
      ret (aql.template [aql.code "ANALYZER( STARTS_WITH( "; lhs;
                         aql.code ", TOKENS("; rhs; aql.code ")[0]), "; analyzer;
                         aql.code "))"])
  | QUICKSEARCH_CONTAINS_PHRASE =>
      ret (aql.template [aql.code "ANALYZER( PHRASE( "; lhs; aql.code ", "; rhs;
                         aql.code "), "; analyzer; aql.code ")"])
  end.

Definition processUnaryOperation (valueNode : QueryNode)
    (operator : UnaryOperator) (context : QueryContext) : M AQLFragment :=
  value <- processNode valueNode context ;;
  match operator with
  | NOT => ret (aql.template [aql.code "!("; value; aql.code ")"])
  | JSON_STRINGIFY =>
      ret (aql.template [aql.code "JSON_STRINGIFY("; value; aql.code ")"])
  end.

Definition processConditional (condition expr1 expr2 : QueryNode)
    (context : QueryContext) : M AQLFragment :=
  cond <- processNode condition context ;;
  expr1' <- processNode expr1 context ;;
  expr2' <- processNode expr2 context ;;
  ret (aql.template [aql.code "("; cond; aql.code " ? "; expr1'; aql.code " : ";
                     expr2'; aql.code ")"]).

Definition processTypeCheck (valueNode : QueryNode) (type : BasicType)
    (context : QueryContext) : M AQLFragment :=
  value <- processNode valueNode context ;;
  match type with
  | SCALAR =>
      ret (aql.template [aql.code "(IS_BOOL("; value; aql.code ") || IS_NUMBER(";
                         value; aql.code ") || IS_STRING("; value; aql.code "))"])
  | LIST => ret (aql.template [aql.code "IS_LIST("; value; aql.code ")"])
  | OBJECT => ret (aql.template [aql.code "IS_OBJECT("; value; aql.code ")"])
  | NULL => ret (aql.template [aql.code "IS_NULL("; value; aql.code ")"])
  end.

Definition processSafeList (sourceNode : QueryNode) (context : QueryContext)
  : M AQLFragment :=
  let reducedNode :=
    ConditionalQueryNode (TypeCheckQueryNode sourceNode LIST) sourceNode
      ListQueryNode_EMPTY in
  processNode reducedNode context.

(** **** Quantifiers *)

(** The do-while loop of the array expansion: the fields of a chain of
    Field accesses that ends at [itemVariable], outermost last. *)
Fixpoint collectFields (currentFieldNode : QueryNode)
    (itemVariable : VariableNode) (fields : list Field) : option (list Field) :=
  match currentFieldNode with
  | FieldQueryNode objectNode field _ =>
      if isVariable objectNode itemVariable then Some (field :: fields)
      else collectFields objectNode itemVariable (field :: fields)
  | _ => None
  end.

(** The operator test of the array expansion. *)
Definition isExpandableCondition (operator : BinaryOperator) (rhs : QueryNode)
  : bool :=
  match operator with
  | EQUAL => true
  | LIKE =>
      match rhs with
      | LiteralQueryNode (JString likePattern) =>
          isLiteralPattern (analyzeLikePatternPrefix likePattern)
          && isStringCaseInsensitive likePattern
      | _ => false
      end
  | _ => false
  end.

Definition getQuantifierFilterUsingArrayExpansion (quantifier : Quantifier)
    (conditionNode listNode : QueryNode) (itemVariable : VariableNode)
    (context : QueryContext) : M (option AQLFragment) :=
  match quantifier with
  | some =>
      let listNode := match listNode with
                      | SafeListQueryNode sourceNode => sourceNode
                      | _ => listNode
                      end in
      match listNode with
      | FieldQueryNode _ _ _ =>
          match conditionNode with
          | BinaryOperationQueryNode lhs operator rhs =>
              if isExpandableCondition operator rhs then
                match collectFields lhs itemVariable [] with
                | Some fields =>
                    valueFrag <- processNode rhs context ;;
                    let fieldAccessFrag :=
                      aql.concat (map getFieldAccessFragment fields) in
                    list <- processNode listNode context ;;
                    ret (Some (aql.template [valueFrag; aql.code " IN "; list;
                                             aql.code "[*]"; fieldAccessFrag]))
                | None => ret None
                end
              else ret None
          | _ => ret None
          end
      | _ => ret None
      end
  | _ => ret None
  end.

Definition processQuantifierFilter (listNode : QueryNode)
    (itemVariable : VariableNode) (quantifier : Quantifier)
    (conditionNode : QueryNode) (context : QueryContext) : M AQLFragment :=
  let conditionNode := simplifyBooleans conditionNode in
  fastFragment <-
    getQuantifierFilterUsingArrayExpansion quantifier conditionNode listNode
      itemVariable context ;;
  match fastFragment with
  | Some fastFragment => ret fastFragment
  | None =>
      let reduced :=
        match quantifier with
        | every => (none, not conditionNode)
        | _ => (quantifier, conditionNode)
        end in
      let filteredListNode :=
        newTransformList listNode reduced.2 itemVariable None in
      let finalNode :=
        BinaryOperationQueryNode (CountQueryNode filteredListNode)
          (match reduced.1 with none => EQUAL | _ => GREATER_THAN end)
          (LiteralQueryNode (JNumber 0)) in
      processNode finalNode context
  end.

(** **** Collections, edges and mutations *)

Definition processEntities (rootEntityType : RootEntityType)
    (context : QueryContext) : M AQLFragment :=
  getCollectionForType rootEntityType READ context.

Definition processFollowEdge (relationSide : RelationSide)
    (sourceEntityNode : QueryNode) (context : QueryContext) : M AQLFragment :=
  tmpVar <- aqlM.variable "node" ;;
  edges <- getSimpleFollowEdgeFragment relationSide sourceEntityNode context ;;
  ret (aqlExt.parenthesizeList
         [aql.template [aql.code "FOR "; aql.var tmpVar];
          aql.template [aql.code "IN "; edges];
          aql.template [aql.code "FILTER "; aql.var tmpVar; aql.code " != null"];
          aql.template [aql.code "RETURN "; aql.var tmpVar]]).

Definition processCreateEntity (rootEntityType : RootEntityType)
    (objectNode : QueryNode) (context : QueryContext) : M AQLFragment :=
  object <- processNode objectNode context ;;
  collection <- getCollectionForType rootEntityType WRITE context ;;
  ret (aqlExt.parenthesizeObject
         [aql.template [aql.code "INSERT "; object; aql.code " IN "; collection];
          aql.template [aql.code "RETURN NEW._key"]]).

Definition processUpdateEntities (rootEntityType : RootEntityType)
    (listNode : QueryNode) (updates : list PropertySpecification)
    (currentEntityVariable : VariableNode) (context : QueryContext)
  : M AQLFragment :=
  newContext <- introduceVariable context currentEntityVariable ;;
  entityVar <- getVariable newContext currentEntityVariable ;;
  list <- processNode listNode context ;;
  object <- processNode (ObjectQueryNode updates) newContext ;;
  collection <- getCollectionForType rootEntityType WRITE context ;;
  ret (aqlExt.parenthesizeList
         [aql.template [aql.code "FOR "; entityVar];
          aql.template [aql.code "IN "; list];
          aql.template [aql.code "UPDATE "; entityVar];
          aql.template [aql.code "WITH "; object];
          aql.template [aql.code "IN "; collection];
          aql.template [aql.code "OPTIONS { mergeObjects: false }"];
          aql.template [aql.code "RETURN NEW._key"]]).

Definition processDeleteEntities (rootEntityType : RootEntityType)
    (listNode : QueryNode) (context : QueryContext) : M AQLFragment :=
  entityVar <-
    aqlM.variable (decapitalize (rootEntityType_name rootEntityType)) ;;
  list <- processNode listNode context ;;
  collection <- getCollectionForType rootEntityType WRITE context ;;
  ret (aqlExt.parenthesizeList
         [aql.template [aql.code "FOR "; aql.var entityVar];
          aql.template [aql.code "IN "; list];
          aql.template [aql.code "REMOVE "; aql.var entityVar];
          aql.template [aql.code "IN "; collection];
          aql.template [aql.code "RETURN OLD"]]).

Definition processAddEdges (relation : Relation)
    (edges : list PartialEdgeIdentifier) (context : QueryContext)
  : M AQLFragment :=
  edgeVar <- aqlM.variable "edge" ;;
  edges' <- mapM_gen (fun edge => formatEdge relation edge context) edges ;;
  collection <- getCollectionForRelation relation WRITE context ;;
  ret (aqlExt.parenthesizeList
         [aql.template [aql.code "FOR "; aql.var edgeVar];
          aql.template [aql.code "IN [ ";
                        aql.join edges' (aql.template [aql.code ", "]);
                        aql.code " ]"];
          aql.template [aql.code "UPSERT { _from: "; aql.var edgeVar;
                        aql.code "._from, _to: "; aql.var edgeVar;
                        aql.code "._to }"];
          aql.template [aql.code "INSERT "; aql.var edgeVar];
          aql.template [aql.code "UPDATE {}"];
          aql.template [aql.code "IN "; collection]]).

Definition processRemoveEdges (relation : Relation) (edgeFilter : EdgeFilter)
    (context : QueryContext) : M AQLFragment :=
  edgeVar <- aqlM.variable "edge" ;;
  fromVar <- aqlM.variable "from" ;;
  toVar <- aqlM.variable "to" ;;
  let edgeFilter' :=
    match fromIDsNode edgeFilter, toIDsNode edgeFilter with
    | Some _, Some _ =>
        aql.template [aql.code "FILTER "; aql.var edgeVar; aql.code "._from == ";
                      aql.var fromVar; aql.code " && "; aql.var edgeVar;
                      aql.code "._to == "; aql.var toVar]
    | Some _, None =>
        aql.template [aql.code "FILTER "; aql.var edgeVar; aql.code "._from == ";
                      aql.var fromVar]
    | None, Some _ =>
        aql.template [aql.code "FILTER "; aql.var edgeVar; aql.code "._to == ";
                      aql.var toVar]
    | None, None => aql.empty
    end in
  fromLoop <-
    match fromIDsNode edgeFilter with
    | Some idsNode =>
        ids <- getFullIDsFromKeysNode idsNode (fromType relation) context ;;
        ret (aql.template [aql.code "FOR "; aql.var fromVar; aql.code " IN "; ids])
    | None => ret aql.empty
    end ;;
  toLoop <-
    match toIDsNode edgeFilter with
    | Some idsNode =>
        ids <- getFullIDsFromKeysNode idsNode (toType relation) context ;;
        ret (aql.template [aql.code "FOR "; aql.var toVar; aql.code " IN "; ids])
    | None => ret aql.empty
    end ;;
  readCollection <- getCollectionForRelation relation READ context ;;
  writeCollection <- getCollectionForRelation relation WRITE context ;;
  ret (aqlExt.parenthesizeList
         [fromLoop;
          toLoop;
          aql.template [aql.code "FOR "; aql.var edgeVar; aql.code " IN ";
                        readCollection];
          edgeFilter';
          aql.template [aql.code "REMOVE "; aql.var edgeVar; aql.code " IN ";
                        writeCollection]]).

Definition processSetEdge (relation : Relation)
    (existingEdge newEdge : PartialEdgeIdentifier) (context : QueryContext)
  : M AQLFragment :=
  _ <- aqlM.variable "edge" ;;
  existing <- formatEdge relation existingEdge context ;;
  inserted <- formatEdge relation newEdge context ;;
  updated <- formatEdge relation newEdge context ;;
  collection <- getCollectionForRelation relation WRITE context ;;
  ret (aqlExt.parenthesizeList
         [aql.template [aql.code "UPSERT "; existing];
          aql.template [aql.code "INSERT "; inserted];
          aql.template [aql.code "UPDATE "; updated];
          aql.template [aql.code "IN "; collection]]).

(** **** The dispatch table *)

Definition processors (node : QueryNode) (context : QueryContext)
  : M AQLFragment :=
  match node with
  | LiteralQueryNode value => ret (aql.value value)
  | NullQueryNode => ret (aql.template [aql.code "null"])
  | RuntimeErrorQueryNode message => ret (processRuntimeError message)
  | ConstBoolQueryNode value =>
      ret (if value then aql.template [aql.code "true"]
           else aql.template [aql.code "false"])
  | ConstIntQueryNode value => ret (aql.integer value)
  | ObjectQueryNode properties => processObject properties context
  | ListQueryNode itemNodes => processList itemNodes context
  | ConcatListsQueryNode listNodes => processConcatLists listNodes context
  | VariableQueryNode v => getVariable context v
  | VariableAssignmentQueryNode variableNode variableValueNode resultNode =>
      processVariableAssignment variableNode variableValueNode resultNode context
  | WithPreExecutionQueryNode preExecQueries resultNode =>
      processWithPreExecution preExecQueries resultNode context
  | EntityFromIdQueryNode rootEntityType idNode =>
      processEntityFromId rootEntityType idNode context
  | FieldQueryNode objectNode field path =>
      processField objectNode field path context
  | FieldPathQueryNode _ _ => throw UnsupportedQueryType
  | RootEntityIDQueryNode objectNode => processRootEntityID objectNode context
  | QuickSearchQueryNode rootEntityType itemVariable qsFilterNode =>
      processQuickSearch rootEntityType itemVariable qsFilterNode context
  | TransformListQueryNode listNode itemVariable filterNode orderBy skip
      maxCount innerNode =>
      processTransformList listNode itemVariable filterNode orderBy skip
        maxCount innerNode context
  | CountQueryNode listNode => processCount listNode context
  | MergeObjectsQueryNode objectNodes => processMergeObjects objectNodes context
  | FirstOfListQueryNode listNode => processFirstOfList listNode context
  | BinaryOperationQueryNode lhs operator rhs =>
      processBinaryOperation lhs operator rhs context
  | OperatorWithLanguageQueryNode lhs operator rhs quickSearchLanguage =>
      processOperatorWithLanguage lhs operator rhs quickSearchLanguage context
  | UnaryOperationQueryNode valueNode operator =>
      processUnaryOperation valueNode operator context
  | ConditionalQueryNode condition expr1 expr2 =>
      processConditional condition expr1 expr2 context
  | TypeCheckQueryNode valueNode type => processTypeCheck valueNode type context
  | SafeListQueryNode sourceNode => processSafeList sourceNode context
  | QuantifierFilterNode listNode itemVariable quantifier conditionNode =>
      processQuantifierFilter listNode itemVariable quantifier conditionNode
        context
  | EntitiesQueryNode rootEntityType => processEntities rootEntityType context
  | FollowEdgeQueryNode relationSide sourceEntityNode =>
      processFollowEdge relationSide sourceEntityNode context
  | CreateEntityQueryNode rootEntityType objectNode =>
      processCreateEntity rootEntityType objectNode context
  | UpdateEntitiesQueryNode rootEntityType listNode updates
      currentEntityVariable =>
      processUpdateEntities rootEntityType listNode updates
        currentEntityVariable context
  | DeleteEntitiesQueryNode rootEntityType listNode =>
      processDeleteEntities rootEntityType listNode context
  | AddEdgesQueryNode relation edges => processAddEdges relation edges context
  | RemoveEdgesQueryNode relation edgeFilter =>
      processRemoveEdges relation edgeFilter context
  | SetEdgeQueryNode relation existingEdge newEdge =>
      processSetEdge relation existingEdge newEdge context
  end.

End Handlers.

(** [processNode], by the number of nested calls it may make: a handler
    may call it on a node it has just built (SafeList, QuantifierFilter,
    UpdateEntities) or on the result of a rewrite, so the recursion does
    not follow the structure of the tree. *)
Fixpoint processNode (fuel : nat) (node : QueryNode) (context : QueryContext)
  : M AQLFragment :=
  match fuel with
  | O => outOfFuel
  | S fuel' => processors (processNode fuel') node context
  end.

Definition getAQLQuery (fuel : nat) (node : QueryNode) : M AQLCompoundQuery :=
  resultVariable <- aqlM.queryResultVariable "result" ;;
  context <- newQueryContext ;;
  createAQLCompoundQuery (processNode fuel) node (Some resultVariable) None context.

End Generator.

(** ** An instance of the imports

    The modules below are not among the sources. The generator and every
    statement about it take them as parameters ([Imports]); this instance
    serves to run the generator on concrete trees. *)

Module SampleImports.

Definition mapAscii (f : ascii -> ascii) : string -> string :=
  fix go (s : string) : string :=
    match s with
    | EmptyString => EmptyString
    | String c rest => String (f c) (go rest)
    end.

Definition asciiLower (c : ascii) : ascii :=
  let n := nat_of_ascii c in
  if Nat.leb 65 n && Nat.leb n 90 then ascii_of_nat (n + 32) else c.

Definition asciiUpper (c : ascii) : ascii :=
  let n := nat_of_ascii c in
  if Nat.leb 97 n && Nat.leb n 122 then ascii_of_nat (n - 32) else c.

(** Modelled from the spec: [lower(value)] and [upper(value)] of
    JavaScript's strings, on the letters of ASCII; other characters are
    kept. *)
Definition toLowerCase : string -> string := mapAscii asciiLower.
Definition toUpperCase : string -> string := mapAscii asciiUpper.

(** Modelled from the spec: [decapitalize] of utils, which is not among the
    sources: the first letter in lower case. *)
Definition decapitalize (s : string) : string :=
  match s with
  | EmptyString => EmptyString
  | String c rest => String (asciiLower c) rest
  end.

Definition isWildcard (c : ascii) : bool :=
  let n := nat_of_ascii c in Nat.eqb n 37 || Nat.eqb n 95.

(** The characters before the first [%] or [_], and the rest. *)
Fixpoint splitAtWildcard (pattern : string) : string * string :=
  match pattern with
  | EmptyString => (EmptyString, EmptyString)
  | String c rest =>
      if isWildcard c then (EmptyString, pattern)
      else let r := splitAtWildcard rest in (String c r.1, r.2)
  end.

(** Modelled from the spec: [analyzeLikePatternPrefix] of like-helpers, which
    is not among the sources. A pattern is literal when it has no [%] and no
    [_]; it is a simple prefix pattern when its literal prefix is followed
    by [%] only. Escapes are not modelled. *)
Definition analyzeLikePatternPrefix (pattern : string) : LikePatternAnalysis :=
  let split := splitAtWildcard pattern in
  mkLikeAnalysis split.1 (String.eqb split.2 "%") (String.eqb split.2 "").

(** Modelled from the spec: [simplifyBooleans] of query-tree/utils, which is
    not among the sources: constant folding over AND, OR and NOT with
    ConstBool operands, and short-circuit simplification. *)
Fixpoint simplifyBooleans (node : QueryNode) : QueryNode :=
  match node with
  | UnaryOperationQueryNode valueNode NOT =>
      match simplifyBooleans valueNode with
      | ConstBoolQueryNode b => ConstBoolQueryNode (negb b)
      | inner => UnaryOperationQueryNode inner NOT
      end
  | BinaryOperationQueryNode lhs AND rhs =>
      match simplifyBooleans lhs, simplifyBooleans rhs with
      | ConstBoolQueryNode true, rhs' => rhs'
      | ConstBoolQueryNode false, _ => ConstBoolQueryNode false
      | lhs', ConstBoolQueryNode true => lhs'
      | _, ConstBoolQueryNode false => ConstBoolQueryNode false
      | lhs', rhs' => BinaryOperationQueryNode lhs' AND rhs'
      end
  | BinaryOperationQueryNode lhs OR rhs =>
      match simplifyBooleans lhs, simplifyBooleans rhs with
      | ConstBoolQueryNode true, _ => ConstBoolQueryNode true
      | ConstBoolQueryNode false, rhs' => rhs'
      | _, ConstBoolQueryNode true => ConstBoolQueryNode true
      | lhs', ConstBoolQueryNode false => lhs'
      | lhs', rhs' => BinaryOperationQueryNode lhs' OR rhs'
      end
  | _ => node
  end.

(** Modelled from the spec: [extractVariableAssignments] of query-tree/utils,
    which is not among the sources: from the root along the edges that do
    not cross a list or function boundary, every VariableAssignment met is
    lifted to the returned list and replaced by its result node. The edges
    followed here are those of assignments, operations, conditionals and
    field accesses. *)
Fixpoint extractVariableAssignments (node : QueryNode)
  : QueryNode * list VariableAssignment :=
  match node with
  | VariableAssignmentQueryNode variableNode variableValueNode resultNode =>
      let r := extractVariableAssignments resultNode in
      (r.1, mkAssignment variableNode variableValueNode :: r.2)
  | UnaryOperationQueryNode valueNode operator =>
      let v := extractVariableAssignments valueNode in
      (UnaryOperationQueryNode v.1 operator, v.2)
  | BinaryOperationQueryNode lhs operator rhs =>
      let l := extractVariableAssignments lhs in
      let r := extractVariableAssignments rhs in
      (BinaryOperationQueryNode l.1 operator r.1, l.2 ++ r.2)
  | ConditionalQueryNode condition expr1 expr2 =>
      let c := extractVariableAssignments condition in
      let e1 := extractVariableAssignments expr1 in
      let e2 := extractVariableAssignments expr2 in
      (ConditionalQueryNode c.1 e1.1 e2.1, c.2 ++ e1.2 ++ e2.2)
  | FieldQueryNode objectNode field path =>
      let o := extractVariableAssignments objectNode in
      (FieldQueryNode o.1 field path, o.2)
  | RootEntityIDQueryNode objectNode =>
      let o := extractVariableAssignments objectNode in
      (RootEntityIDQueryNode o.1, o.2)
  | _ => (node, [])
  end.

(** Modelled from the spec: [not] of the filter constants, which is not
    among the sources: the negated condition. *)
Definition not (node : QueryNode) : QueryNode :=
  UnaryOperationQueryNode node NOT.

(** Modelled from the spec: the name of a type's collection, whose function
    (arango-basics) is not among the sources and which the spec leaves open:
    here the decapitalized name of the type followed by [s]. *)
Definition getCollectionNameForRootEntity (type : RootEntityType) : string :=
  decapitalize (rootEntityType_name type) +:+ "s".

(** Modelled from the spec: the name of an edge collection, whose function
    (arango-basics) is not among the sources and which the spec leaves open:
    here the collections of the two ends, joined by an underscore. *)
Definition getCollectionNameForRelation (relation : Relation) : string :=
  getCollectionNameForRootEntity (fromType relation) +:+ "_"
  +:+ getCollectionNameForRootEntity (toType relation).

(** Modelled from the spec: the name of a search view,
    [flex_view_<collectionName>]. *)
Definition getViewNameForRootEntity (type : RootEntityType) : string :=
  "flex_view_" +:+ getCollectionNameForRootEntity type.

#[export] Instance imports : Imports :=
  mkImports toLowerCase toUpperCase decapitalize analyzeLikePatternPrefix
    "__cruddl_runtime_error" simplifyBooleans extractVariableAssignments not
    getCollectionNameForRootEntity getCollectionNameForRelation
    getViewNameForRootEntity (mkOptimizationConfig false None).

End SampleImports.

(** ** Time to live ([src/project/time-to-live.ts]) *)

Module TTL.

Record TimeToLiveConfig : Type := mkTTLConfig {
  typeName : string;
  dateField : string;
  config_expireAfterDays : Z
}.

Record TimeToLiveType : Type := mkTTLType {
  ttl_rootEntityType : option RootEntityType;
  ttl_path : option (list Field);
  ttl_fieldType : option ScalarType;
  expireAfterDays : Z;
  input : TimeToLiveConfig
}.

Record ExecutionOptions : Type := mkExecutionOptions {
  timeToLiveCleanupLimit : option Z
}.

(** A zone of js-joda: the constant [ZoneId.UTC], or the region that
    [ZoneId.of] found for an id. *)
Inductive ZoneId : Type := UTC | ZoneRegion (id : string).

(** The four errors of time-to-live.ts, and the exception js-joda throws (a
    DateTimeException for a zone it has no rules for, and for a date outside
    the range it supports). *)
Inductive TTLError : Type :=
| NoValidRootEntityType
| NoValidPath
| NoValidFieldType
| NoValidDateFieldType
| JodaException.

(** What time-to-live.ts imports from modules that are not modelled, and the
    clock. *)
Class TTLImports : Type := mkTTLImports {
  (** [schema-generation/filter-input-types/filter-fields] *)
  getScalarFilterValueNode : QueryNode -> ScalarType -> QueryNode;
  (** [schema-generation] *)
  generateDeleteAllQueryNode : RootEntityType -> QueryNode -> QueryNode;
  (** [ZoneId.of(id)]: js-joda throws for an id it has no rules for; the
      rules of the regions come with js-joda-timezone, which
      time-to-live.ts does not import. *)
  ZoneId_of : string -> option ZoneId;
  (** [ZonedDateTime.now(zone).minusDays(days).format(ISO_INSTANT)], which
      throws when the date leaves the range js-joda supports. *)
  instantDaysAgo : ZoneId -> Z -> option string;
  (** [GraphQLLocalDate.name] *)
  GraphQLLocalDate_name : string
}.

Section TimeToLive.
Context {generatorImports : Imports} {ttlImports : TTLImports}.

Definition getTTLFilter (fieldType : ScalarType) (path : list Field)
    (deleteFrom : string) (listItemVar : VariableNode) : QueryNode :=
  let filterNode :=
    BinaryOperationQueryNode
      (getScalarFilterValueNode
         (FieldPathQueryNode (VariableQueryNode listItemVar) path) fieldType)
      LESS_THAN
      (LiteralQueryNode (JString deleteFrom)) in
  let nullFilterNode :=
    BinaryOperationQueryNode
      (getScalarFilterValueNode
         (FieldPathQueryNode (VariableQueryNode listItemVar) path) fieldType)
      GREATER_THAN
      NullQueryNode in
  BinaryOperationQueryNode filterNode AND nullFilterNode.

Definition calcDeleteFrom (expireAfterDays : Z) (fieldType : option ScalarType)
  : TTLError + string :=
  match fieldType with
  | None => inl NoValidDateFieldType
  | Some fieldType =>
      let zone :=
        if String.eqb (scalarType_name fieldType) GraphQLLocalDate_name
        then ZoneId_of "Etc/GMT+12" else Some UTC in
      match zone with
      | None => inl JodaException
      | Some zone =>
          match instantDaysAgo zone expireAfterDays with
          | None => inl JodaException
          | Some instant => inr instant
          end
      end
  end.

(** The three guards both query builders start with. *)
Definition checkTTLType (ttlType : TimeToLiveType)
  : TTLError + (RootEntityType * list Field * ScalarType) :=
  match ttl_rootEntityType ttlType with
  | None => inl NoValidRootEntityType
  | Some rootEntityType =>
      match ttl_path ttlType with
      | None | Some [] => inl NoValidPath
      | Some path =>
          match ttl_fieldType ttlType with
          | None => inl NoValidFieldType
          | Some fieldType => inr (rootEntityType, path, fieldType)
          end
      end
  end.

(** [listItemVarId] is the identity of the variable node the function
    creates. *)
Definition getQueryNodeForTTLType (ttlType : TimeToLiveType)
    (executionOptions : ExecutionOptions) (listItemVarId : nat)
  : TTLError + QueryNode :=
  match checkTTLType ttlType with
  | inl e => inl e
  | inr (rootEntityType, path, fieldType) =>
      match calcDeleteFrom (expireAfterDays ttlType) (ttl_fieldType ttlType) with
      | inl e => inl e
      | inr deleteFrom =>
          let listItemVar :=
            mkVariable listItemVarId
              (Some (decapitalize (rootEntityType_name rootEntityType))) in
          let listQueryNode :=
            newTransformList (EntitiesQueryNode rootEntityType)
              (getTTLFilter fieldType path deleteFrom listItemVar) listItemVar
              (timeToLiveCleanupLimit executionOptions) in
          inr (CountQueryNode
                 (generateDeleteAllQueryNode rootEntityType listQueryNode))
      end
  end.

(** The count of the entities of a type that pass the TTL filter for a
    given instant. *)
Definition countExpired (rootEntityType : RootEntityType) (path : list Field)
    (fieldType : ScalarType) (deleteFrom : string) (itemVariable : VariableNode)
  : QueryNode :=
  CountQueryNode
    (newTransformList (EntitiesQueryNode rootEntityType)
       (getTTLFilter fieldType path deleteFrom itemVariable) itemVariable None).

(** [expiredVarId] and [overdueVarId] are the identities of the two
    variable nodes the function creates. *)
Definition getTTLInfoQueryNode (ttlType : TimeToLiveType) (overdueDelta : Z)
    (expiredVarId overdueVarId : nat) : TTLError + QueryNode :=
  match checkTTLType ttlType with
  | inl e => inl e
  | inr (rootEntityType, path, fieldType) =>
      let expiredVariableNode := mkVariable expiredVarId None in
      let overdueVariableNode := mkVariable overdueVarId None in
      match calcDeleteFrom (expireAfterDays ttlType) (ttl_fieldType ttlType),
            calcDeleteFrom (expireAfterDays ttlType + overdueDelta)
              (ttl_fieldType ttlType) with
      | inr expiredFrom, inr overdueFrom =>
          inr (ObjectQueryNode
                 [mkProperty "typeName"
                    (LiteralQueryNode (JString (typeName (input ttlType))));
                  mkProperty "path"
                    (LiteralQueryNode (JString (dateField (input ttlType))));
                  mkProperty "path"
                    (LiteralQueryNode
                       (JNumber (config_expireAfterDays (input ttlType))));
                  mkProperty "expiredObjectCount"
                    (countExpired rootEntityType path fieldType expiredFrom
                       expiredVariableNode);
                  mkProperty "overdueObjectCount"
                    (countExpired rootEntityType path fieldType overdueFrom
                       overdueVariableNode)])
      | inl e, _ | _, inl e => inl e
      end
  end.

End TimeToLive.

End TTL.

(** ** The i18n validator ([ModelLocalizationProvider]) *)

Module I18n.

(** [isExistingAndAdd(search, array)]: the returned flag and the array
    after the call. *)
Definition isExistingAndAdd (search : string) (array : list string)
  : bool * list string :=
  if bool_decide (search ∈ array) then (true, array ++ [search])
  else (false, array ++ [search]).

End I18n.

(** ** The database's reading of a filter

    How the database orders values is not part of the repository: null sorts
    before every other value, then booleans, numbers and strings. This
    evaluator covers the nodes a TTL filter is made of and serves as an
    instance of the assumptions the TTL statement makes about the database. *)

Module Database.

Inductive Value : Type :=
| VNull
| VBool (b : bool)
| VNumber (z : Z)
| VString (s : string).

Definition typeRank (v : Value) : nat :=
  match v with
  | VNull => 0 | VBool _ => 1 | VNumber _ => 2 | VString _ => 3
  end.

Definition lessThan (a b : Value) : bool :=
  match a, b with
  | VBool x, VBool y => negb x && y
  | VNumber x, VNumber y => Z.ltb x y
  | VString x, VString y => String.ltb x y
  | _, _ => Nat.ltb (typeRank a) (typeRank b)
  end.

Definition truthy (v : Value) : bool :=
  match v with
  | VNull => false
  | VBool b => b
  | VNumber z => negb (Z.eqb z 0)
  | VString s => negb (String.eqb s "")
  end.

(** The entity under test, as the value it holds at each field path. *)
Definition Document : Type := list Field -> Value.

Fixpoint eval (doc : Document) (node : QueryNode) : Value :=
  match node with
  | LiteralQueryNode (JString s) => VString s
  | LiteralQueryNode (JNumber z) => VNumber z
  | LiteralQueryNode (JBool b) => VBool b
  | FieldPathQueryNode _ path => doc path
  | BinaryOperationQueryNode lhs LESS_THAN rhs =>
      VBool (lessThan (eval doc lhs) (eval doc rhs))
  | BinaryOperationQueryNode lhs GREATER_THAN rhs =>
      VBool (lessThan (eval doc rhs) (eval doc lhs))
  | BinaryOperationQueryNode lhs AND rhs =>
      VBool (truthy (eval doc lhs) && truthy (eval doc rhs))
  | _ => VNull
  end.

Definition satisfies (doc : Document) (filter : QueryNode) : bool :=
  truthy (eval doc filter).

Definition isNull (doc : Document) (node : QueryNode) : bool :=
  match eval doc node with
  | VNull => true
  | _ => false
  end.

End Database.

(** ** Sample trees, contexts and stores *)

Module Samples.
Import SampleImports.

Definition delivery : VariableNode := mkVariable 0 (Some "delivery").
Definition item : VariableNode := mkVariable 1 (Some "item").
Definition created : VariableNode := mkVariable 2 (Some "created").

Definition Delivery : RootEntityType := mkRootEntityType "Delivery".
Definition HandlingUnit : RootEntityType := mkRootEntityType "HandlingUnit".
Definition handlingUnits : Relation := mkRelation Delivery HandlingUnit.

Definition deliveryVar : AQLVariable := mkAQLVariable 0 (Some "delivery") false.
Definition createdVar : AQLVariable := mkAQLVariable 1 (Some "created") true.

(** A store with the three objects of a context, and a context over it in
    which [delivery] is bound to a transient variable and [created] to the
    result of an earlier query. *)
Definition store : Store :=
  mkStore (<[0 := []]> ∅) (<[2 := []]> (<[1 := []]> ∅)) 3 2.

Definition rootContext : QueryContext := mkContext ∅ 0 1 2.

Definition context : QueryContext :=
  mkContext (<[2 := createdVar]> (<[0 := deliveryVar]> ∅)) 0 1 2.

Definition description : QueryNode :=
  FieldQueryNode (VariableQueryNode delivery) (mkField "description") None.

Definition items : QueryNode :=
  FieldQueryNode (VariableQueryNode delivery) (mkField "items") None.

Definition itemNumber : QueryNode :=
  FieldQueryNode (VariableQueryNode item) (mkField "itemNumber") None.

(** The first ten deliveries with a given delivery number. *)
Definition deliveriesByNumber : QueryNode :=
  TransformListQueryNode (EntitiesQueryNode Delivery) delivery
    (BinaryOperationQueryNode
       (FieldQueryNode (VariableQueryNode delivery) (mkField "deliveryNumber") None)
       EQUAL (LiteralQueryNode (JString "1000173")))
    [] 0 (Some 10%Z) (VariableQueryNode delivery).

(** Some / every item of the delivery has the item number [abc]. *)
Definition itemNumberIsAbc : QueryNode :=
  BinaryOperationQueryNode itemNumber EQUAL (LiteralQueryNode (JString "abc")).


Definition everyItemIsAbc : QueryNode :=
  QuantifierFilterNode items item every itemNumberIsAbc.

(** Removing the edges from one delivery to its handling units; adding one. *)
Definition removeHandlingUnits : QueryNode :=
  RemoveEdgesQueryNode handlingUnits
    (mkEdgeFilter (Some (LiteralQueryNode (JArray [JString "1000173"]))) None).

Definition addHandlingUnit : QueryNode :=
  AddEdgesQueryNode handlingUnits
    [mkEdge (Some (LiteralQueryNode (JString "1000173")))
            (Some (LiteralQueryNode (JString "42")))].

(** Replacing the handling unit of one delivery by another. *)
Definition setHandlingUnit : QueryNode :=
  SetEdgeQueryNode handlingUnits
    (mkEdge (Some (LiteralQueryNode (JString "1000173"))) None)
    (mkEdge (Some (LiteralQueryNode (JString "1000173")))
            (Some (LiteralQueryNode (JString "43")))).

(** A delivery created from the result of the earlier query, as a
    pre-execution query with a result of its own. *)
Definition copied : VariableNode := mkVariable 3 (Some "copied").

Definition copyCreated : QueryNode :=
  CreateEntityQueryNode Delivery
    (ObjectQueryNode [mkProperty "original" (VariableQueryNode created)]).

Definition descriptionFrag : AQLFragment :=
  aql.template [aql.template [aql.var deliveryVar]; aql.empty;
                aql.template [aql.code "."; aql.code "description"]].


End Samples.

(** An instance of what time-to-live.ts imports, with a fixed clock. *)
Module SampleTTL.

(** Modelled from the spec: the collaborators of the TTL computation, which
    are not among the sources and of which the spec says nothing more than
    their names. The value node of a date field is the field itself; all
    entities of a list are deleted by a DeleteEntities node over it. The
    rules of every region are loaded. *)
#[export] Instance imports : TTL.TTLImports :=
  TTL.mkTTLImports (fun fieldNode _ => fieldNode)
    (fun rootEntityType listNode => DeleteEntitiesQueryNode rootEntityType listNode)
    (fun id => Some (TTL.ZoneRegion id))
    (fun _ _ => Some "2026-10-04T00:00:00Z") "LocalDate".

(** The same collaborators with js-joda alone: no rules of any region are
    loaded, so that [ZoneId.of] throws for every region. *)
Definition bareImports : TTL.TTLImports :=
  TTL.mkTTLImports (fun fieldNode _ => fieldNode)
    (fun rootEntityType listNode => DeleteEntitiesQueryNode rootEntityType listNode)
    (fun _ => None)
    (fun _ _ => Some "2026-10-04T00:00:00Z") "LocalDate".

Definition dispatchDate : list Field := [mkField "dispatchDate"].

Definition deliveryTTL : TTL.TimeToLiveType :=
  TTL.mkTTLType (Some Samples.Delivery) (Some dispatchDate)
    (Some (mkScalarType "OffsetDateTime")) 30
    (TTL.mkTTLConfig "Delivery" "dispatchDate" 30).

(** The same type with a date field of type LocalDate. *)
Definition localDateTTL : TTL.TimeToLiveType :=
  TTL.mkTTLType (Some Samples.Delivery) (Some dispatchDate)
    (Some (mkScalarType "LocalDate")) 30
    (TTL.mkTTLConfig "Delivery" "dispatchDate" 30).

(** A delivery without dispatch date, and one dispatched long ago. *)
Definition undated : Database.Document := fun _ => Database.VNull.
Definition old : Database.Document :=
  fun _ => Database.VString "2020-01-01T00:00:00Z".

End SampleTTL.

(** ** Utilities ([utils.ts]) *)

Module Utils.

(** [arr.reduce((ys, x) => ys.concat(f(x)), [])] *)
Definition flatMap {TOut TIn : Type} (arr : list TIn) (f : TIn -> list TOut)
  : list TOut :=
  fold_left (fun ys x => ys ++ f x) arr [].

Definition flatten {T : Type} (arr : list (list T)) : list T :=
  fold_left (fun ys x => ys ++ x) arr [].

(** The characters of [str] from position [n] on. *)
Fixpoint dropChars (n : nat) (str : string) : string :=
  match n, str with
  | S n', String _ rest => dropChars n' rest
  | _, _ => str
  end.

(** [str.substr(start)]: a negative start counts from the end of the string,
    and a start outside the string is moved to its nearer end. *)
Definition substr (str : string) (start : Z) : string :=
  let size := Z.of_nat (String.length str) in
  let from :=
    if Z.ltb start 0 then Z.max (size + start) 0 else Z.min start size in
  dropChars (Z.to_nat from) str.

Definition endsWith (str suffix : string) : bool :=
  String.eqb (substr str (- Z.of_nat (String.length suffix))) suffix.

(** A [Map] is the list of its entries in insertion order, each key once. *)
Section Maps.
Context {TKey TValue : Type} `{EqDecision TKey}.

Fixpoint mapGet (map : list (TKey * TValue)) (key : TKey) : option TValue :=
  match map with
  | [] => None
  | (k, v) :: rest => if decide (k = key) then Some v else mapGet rest key
  end.

(** [map.set(key, value)]: the value of an entry is replaced where it is,
    a new entry comes last. *)
Fixpoint mapSet (map : list (TKey * TValue)) (key : TKey) (value : TValue)
  : list (TKey * TValue) :=
  match map with
  | [] => [(key, value)]
  | (k, v) :: rest =>
      if decide (k = key) then (k, value) :: rest
      else (k, v) :: mapSet rest key value
  end.

End Maps.

Section Grouping.
Context {TItem TKey : Type} `{EqDecision TKey}.

(** One turn of the loop of [groupArray]. The group is an array that the map
    holds by reference: pushing to it changes the entry. *)
Definition groupStep (keyFn : TItem -> TKey) (map : list (TKey * list TItem))
    (item : TItem) : list (TKey * list TItem) :=
  let key := keyFn item in
  match mapGet map key with
  | Some group => mapSet map key (group ++ [item])
  | None => mapSet (mapSet map key []) key ([] ++ [item])
  end.

Definition groupArray (items : list TItem) (keyFn : TItem -> TKey)
  : list (TKey * list TItem) :=
  fold_left (groupStep keyFn) items [].

(** The callback of the [filter] in [removeDuplicates], with the set of keys
    it has seen (in insertion order). *)
Fixpoint filterUnseen (keyFn : TItem -> TKey) (existingKeys : list TKey)
    (items : list TItem) : list TItem :=
  match items with
  | [] => []
  | item :: rest =>
      let key := keyFn item in
      if bool_decide (key ∈ existingKeys) then filterUnseen keyFn existingKeys rest
      else item :: filterUnseen keyFn (existingKeys ++ [key]) rest
  end.

Definition removeDuplicates (items : list TItem) (keyFn : TItem -> TKey)
  : list TItem :=
  filterUnseen keyFn [] items.

End Grouping.

End Utils.

(** ** The validation of localizations ([ModelLocalizationProvider.validate],
    [ModelI18n.validate]) *)

Module Localization.

Record MessageLocation : Type := mkLocation { sourceName : string }.

(** [ValidationMessage.error(message, loc)] *)
Record ValidationMessage : Type := mkError {
  message : string;
  location : option MessageLocation
}.

Record FieldLocalizationConfig : Type := mkFieldConfig {
  field_label : option string;
  field_hint : option string;
  field_loc : option MessageLocation
}.

(** The objects [types], [fields] are the lists of their entries in the
    order in which [for ... in] goes through them. *)
Record TypeLocalizationConfig : Type := mkTypeConfig {
  type_singular : option string;
  type_plural : option string;
  type_hint : option string;
  type_fields : option (list (string * option FieldLocalizationConfig));
  type_loc : option MessageLocation
}.

Record NamespaceLocalizationConfig : Type := mkNamespaceConfig {
  namespacePath : list string;
  types : option (list (string * TypeLocalizationConfig));
  fields : option (list (string * option FieldLocalizationConfig));
  loc : option MessageLocation
}.

Record LocalizationConfig : Type := mkLocalizationConfig {
  language : string;
  namespaceContent : NamespaceLocalizationConfig
}.

(** A [NamespaceLocalization] wraps its config and hands out its parts. *)
Definition NamespaceLocalization : Type := NamespaceLocalizationConfig.

(** A string that is defined and not empty. *)
Definition truthy (s : option string) : bool :=
  match s with
  | Some (String _ _) => true
  | _ => false
  end.

Definition quoted (s : string) : string := dquote +:+ s +:+ dquote.

Definition typeAttributeMessage (attribute type : string) : string :=
  "The attribute " +:+ quoted attribute +:+ " in type " +:+ quoted type
  +:+ " was defined several times in the i18n translation".

Definition fieldAttributeMessage (attribute field type : string) : string :=
  "The attribute " +:+ quoted attribute +:+ " in field " +:+ quoted field
  +:+ " of type " +:+ quoted type
  +:+ " was defined several times in the i18n translation".

(** The state of the loops of [validate]: the array [alreadySeen] and the
    messages of the validation context. *)
Definition ValidationState : Type := list string * list ValidationMessage.

(** [if (present && this.isExistingAndAdd(key, alreadySeen))
       validationContext.addMessage(ValidationMessage.error(text, loc))] *)
Definition checkAttribute (present : bool) (key text : string)
    (loc : option MessageLocation) (state : ValidationState) : ValidationState :=
  if present then
    let existing := I18n.isExistingAndAdd key state.1 in
    (existing.2, if existing.1 then state.2 ++ [mkError text loc] else state.2)
  else state.

Definition validateField (type : string) (typeConf : TypeLocalizationConfig)
    (state : ValidationState) (entry : string * option FieldLocalizationConfig)
  : ValidationState :=
  let field := entry.1 in
  let hasLabel := match entry.2 with
                  | Some fieldConf => truthy (field_label fieldConf)
                  | None => false
                  end in
  let hasHint := match entry.2 with
                 | Some fieldConf => truthy (field_hint fieldConf)
                 | None => false
                 end in
  let state :=
    checkAttribute hasLabel (type +:+ "/" +:+ field +:+ "/label")
      (fieldAttributeMessage "label" field type) (type_loc typeConf) state in
  checkAttribute hasHint (type +:+ "/" +:+ field +:+ "/hint")
    (fieldAttributeMessage "hint" field type) (type_loc typeConf) state.

Definition validateType (state : ValidationState)
    (entry : string * TypeLocalizationConfig) : ValidationState :=
  let type := entry.1 in
  let typeConf := entry.2 in
  let state :=
    checkAttribute (truthy (type_hint typeConf)) (type +:+ "/hint")
      (typeAttributeMessage "hint" type) (type_loc typeConf) state in
  let state :=
    checkAttribute (truthy (type_singular typeConf)) (type +:+ "/singular")
      (typeAttributeMessage "singular" type) (type_loc typeConf) state in
  let state :=
    checkAttribute (truthy (type_plural typeConf)) (type +:+ "/plural")
      (typeAttributeMessage "plural" type) (type_loc typeConf) state in
  match type_fields typeConf with
  | Some fields => fold_left (validateField type typeConf) fields state
  | None => state
  end.

Definition validateNamespace (state : ValidationState) (ns : NamespaceLocalization)
  : ValidationState :=
  match types ns with
  | Some types => fold_left validateType types state
  | None => state
  end.

(** The body of the loop over the keys of the groups: [alreadySeen] starts
    empty for every group. *)
Definition validateGroup
    (groupedNamespaceLocalizations : list (string * list NamespaceLocalization))
    (messages : list ValidationMessage) (key : string) : list ValidationMessage :=
  match Utils.mapGet groupedNamespaceLocalizations key with
  | Some namespaces => (fold_left validateNamespace namespaces ([], messages)).2
  | None => messages
  end.

(** [ns.namespacePath.join('/')] *)
Definition pathKey (ns : NamespaceLocalization) : string :=
  String.concat "/" (namespacePath ns).

(** [ModelLocalizationProvider.validate] of a provider over [namespaces],
    from the messages the context holds to those it holds afterwards. *)
Definition validate (namespaces : list NamespaceLocalization)
    (messages : list ValidationMessage) : list ValidationMessage :=
  let groupedNamespaceLocalizations := Utils.groupArray namespaces pathKey in
  fold_left (validateGroup groupedNamespaceLocalizations)
    (map fst groupedNamespaceLocalizations) messages.

(** The constructor of [ModelI18n]: one provider per language, over the
    namespaces of the configs of that language. *)
Definition newModelI18n (input : list LocalizationConfig)
  : list (string * list NamespaceLocalization) :=
  let configsByLanguage := Utils.groupArray input language in
  fold_left
    (fun localizationMap language =>
       Utils.mapSet localizationMap language
         (map namespaceContent
            (default [] (Utils.mapGet configsByLanguage language))))
    (map fst configsByLanguage) [].

(** [ModelI18n.validate]: every provider in turn, on the same context. *)
Definition validateModel (input : list LocalizationConfig)
    (messages : list ValidationMessage) : list ValidationMessage :=
  fold_left (fun messages provider => validate provider.2 messages)
    (newModelI18n input) messages.

End Localization.

(** ** The search views ([arango-search-helpers.ts]) *)

Module ArangoSearch.

Definition FLEX_SEARCH_VIEW_PREFIX : string := "flex_view_".

Record FlexSearchPrimarySortConfig : Type := mkPrimarySort {
  sortField : string;
  asc : bool
}.

(** What the helpers read of a field. A field is an object ([fieldIdentity]
    stands for its identity); its type is an object of the model that may
    contain the field again, and is held by reference ([fieldType]). *)
Record SearchField : Type := mkSearchField {
  fieldIdentity : nat;
  searchFieldName : string;
  isFlexSearchIndexed : bool;
  isFlexSearchFulltextIndexed : bool;
  flexSearchLanguage : option string;
  isSystemField : bool;
  declaringTypeIsRootEntityType : bool;
  fieldType : nat
}.

Record SearchType : Type := mkSearchType {
  isObjectType : bool;
  typeFields : list SearchField
}.

(** What the helpers read of a root entity type, next to what the generator
    reads of it. *)
Record SearchRootEntityType : Type := mkSearchRootEntityType {
  entityType : RootEntityType;
  isFlexSearchIndexedType : bool;
  flexSearchPrimarySort : list FlexSearchPrimarySortConfig;
  entityFields : list SearchField
}.

Record ArangoSearchDefinition : Type := mkDefinition {
  definitionType : SearchRootEntityType;
  viewName : string;
  collectionName : string;
  primarySort : list FlexSearchPrimarySortConfig
}.

Inductive ArangoSearchViewCollectionLink : Type :=
| mkLink (analyzers : option (list string))
    (linkFields : option (list (string * ArangoSearchViewCollectionLink)))
    (includeAllFields : option bool) (trackListPositions : option bool)
    (storeValues : option string).

Record ArangoSearchConfiguration : Type := mkConfiguration {
  recursionDepth : option Z;
  commitIntervalMsec : option Z
}.

Record ArangoSearchViewPropertiesOptions : Type := mkProperties {
  links : list (string * ArangoSearchViewCollectionLink);
  properties_commitIntervalMsec : Z;
  properties_primarySort : list FlexSearchPrimarySortConfig
}.

(** A view of the database: the helpers modelled here read its name. *)
Record ArangoSearchView : Type := mkView { name : string }.

(** What the helpers ask the database about a collection. *)
Record Database : Type := mkDatabase {
  collectionExists : string -> bool;
  collectionCount : string -> Z
}.

Record ViewMigrationConfig : Type := mkMigrationConfig {
  collectionSize : Z;
  migrationCollectionName : string;
  migrationViewName : string;
  migrationProperties : ArangoSearchViewPropertiesOptions
}.

Inductive SchemaMigration : Type :=
| CreateArangoSearchViewMigration (config : ViewMigrationConfig)
| DropArangoSearchViewMigration (viewName : string).

(** A number that is given and is not zero, or the default. *)
Definition numberOr (given : option Z) (default : Z) : Z :=
  match given with
  | Some value => if Z.eqb value 0 then default else value
  | None => default
  end.

Section Helpers.
Context `{Imports}.
(** [ID_FIELD] of schema/constants, and the types of the model by reference. *)
Variable ID_FIELD : string.
Variable typeOf : nat -> SearchType.

Definition getFlexSearchViewNameForRootEntity (rootEntity : SearchRootEntityType)
  : string :=
  FLEX_SEARCH_VIEW_PREFIX +:+ getCollectionNameForRootEntity (entityType rootEntity).

Definition getViewForRootEntity (rootEntityType : SearchRootEntityType)
  : ArangoSearchDefinition :=
  mkDefinition rootEntityType
    (getFlexSearchViewNameForRootEntity rootEntityType)
    (getCollectionNameForRootEntity (entityType rootEntityType))
    (flexSearchPrimarySort rootEntityType).

(** [model] is [model.rootEntityTypes]. *)
Definition getRequiredViewsFromModel (model : list SearchRootEntityType)
  : list ArangoSearchDefinition :=
  map getViewForRootEntity
    (List.filter (fun value => isFlexSearchIndexedType value) model).

Definition getAnalyzerFromFlexSearchLanguage (flexSearchLanguage : option string)
  : string :=
  match flexSearchLanguage with
  | Some EmptyString | None => "identity"
  | Some language => "text_" +:+ toLowerCase language
  end.

Definition calculateRequiredArangoSearchViewDropOperations
    (views : list ArangoSearchView) (definitions : list ArangoSearchDefinition)
  : list SchemaMigration :=
  let viewsToDrop :=
    List.filter
      (fun value =>
         negb (existsb (fun value1 => String.eqb (viewName value1) (name value))
                 definitions)
         && String.prefix FLEX_SEARCH_VIEW_PREFIX (name value))
      views in
  map (fun value => DropArangoSearchViewMigration (name value)) viewsToDrop.

(** [path.filter(f => f === field).length] *)
Definition occurrences (field : SearchField) (path : list SearchField) : nat :=
  length (List.filter (fun f => Nat.eqb (fieldIdentity f) (fieldIdentity field)) path).

Definition arangoFieldName (field : SearchField) : string :=
  if declaringTypeIsRootEntityType field && isSystemField field
     && String.eqb (searchFieldName field) ID_FIELD
  then "_key" else searchFieldName field.

(** The two local functions of [getPropertiesFromDefinition], over the
    function they call each other through; [None] is a call that did not
    return. *)
Section FieldDefinitions.
Variable recursionDepth : Z.
Variable fieldDefinitionsFor :
  list SearchField -> list SearchField ->
  option (list (string * ArangoSearchViewCollectionLink)).

Definition fieldDefinitionFor (field : SearchField) (path : list SearchField)
  : option ArangoSearchViewCollectionLink :=
  if isObjectType (typeOf (fieldType field)) then
    fields ← fieldDefinitionsFor (typeFields (typeOf (fieldType field))) path;
    Some (mkLink None (Some fields) None None None)
  else
    let analyzers :=
      (if isFlexSearchFulltextIndexed field
          && match flexSearchLanguage field with
             | Some (String _ _) => true
             | _ => false
             end
       then [getAnalyzerFromFlexSearchLanguage (flexSearchLanguage field)]
       else [])
      ++ (if isFlexSearchIndexed field then [IDENTITY_ANALYZER] else []) in
    if bool_decide (analyzers = [IDENTITY_ANALYZER])
    then Some (mkLink None None None None None)
    else Some (mkLink (Some analyzers) None None None None).

Definition fieldDefinitionsForBody (fields path : list SearchField)
  : option (list (string * ArangoSearchViewCollectionLink)) :=
  let fieldsToIndex :=
    List.filter
      (fun field =>
         (isFlexSearchIndexed field || isFlexSearchFulltextIndexed field)
         && Z.ltb (Z.of_nat (occurrences field path)) recursionDepth)
      fields in
  fold_left
    (fun fieldDefinitions field =>
       definitions ← fieldDefinitions;
       definition ← fieldDefinitionFor field (path ++ [field]);
       Some (Utils.mapSet definitions (arangoFieldName field) definition))
    fieldsToIndex (Some []).

End FieldDefinitions.

Fixpoint fieldDefinitionsFor (recursionDepth : Z) (fuel : nat)
    (fields path : list SearchField)
  : option (list (string * ArangoSearchViewCollectionLink)) :=
  match fuel with
  | O => None
  | S fuel' =>
      fieldDefinitionsForBody recursionDepth
        (fieldDefinitionsFor recursionDepth fuel') fields path
  end.

Definition getPropertiesFromDefinition (fuel : nat)
    (definition : ArangoSearchDefinition)
    (configuration : option ArangoSearchConfiguration)
  : option ArangoSearchViewPropertiesOptions :=
  let depth := numberOr (configuration ≫= recursionDepth) 1 in
  fields ← fieldDefinitionsFor depth fuel
             (entityFields (definitionType definition)) [];
  Some (mkProperties
          [(collectionName definition,
            mkLink (Some [IDENTITY_ANALYZER]) (Some fields) (Some false)
              (Some false) (Some "id"))]
          (numberOr (configuration ≫= commitIntervalMsec) 1000)
          (primarySort definition)).

(** The promises of the source are resolved in order; the database is only
    read. *)
Definition calculateRequiredArangoSearchViewCreateOperations (fuel : nat)
    (existingViews : list ArangoSearchView)
    (requiredViews : list ArangoSearchDefinition) (db : Database)
    (configuration : option ArangoSearchConfiguration)
  : option (list SchemaMigration) :=
  let viewsToCreate :=
    List.filter
      (fun value =>
         negb (existsb (fun value1 => String.eqb (name value1) (viewName value))
                 existingViews))
      requiredViews in
  let mapToMigration (value : ArangoSearchDefinition) :=
    let colExists := collectionExists db (collectionName value) in
    let count := if colExists then collectionCount db (collectionName value)
                 else 0%Z in
    properties ← getPropertiesFromDefinition fuel value configuration;
    Some (CreateArangoSearchViewMigration
            (mkMigrationConfig count (collectionName value) (viewName value)
               properties)) in
  mapM mapToMigration viewsToCreate.

End Helpers.

End ArangoSearch.

(** A model for the search helpers: deliveries with a number, a description
    indexed as German text, and a value object that contains itself. *)
Module SampleSearch.
Import ArangoSearch.

Definition deliveryNumber : SearchField :=
  mkSearchField 0 "deliveryNumber" true false None false true 1.
Definition description : SearchField :=
  mkSearchField 1 "description" false true (Some "DE") false true 1.
Definition recursion : SearchField :=
  mkSearchField 2 "recursion" true false None false true 0.
Definition innerRecursion : SearchField :=
  mkSearchField 3 "recursion" true false None false false 0.
Definition innerName : SearchField :=
  mkSearchField 4 "name" true false None false false 1.

(** Type 0 is the value object [Recursion]; every other type is a scalar. *)
Definition typeOf (type : nat) : SearchType :=
  match type with
  | O => mkSearchType true [innerRecursion; innerName]
  | _ => mkSearchType false []
  end.

Definition Delivery : SearchRootEntityType :=
  mkSearchRootEntityType Samples.Delivery true []
    [deliveryNumber; description; recursion].

Definition HandlingUnit : SearchRootEntityType :=
  mkSearchRootEntityType Samples.HandlingUnit false [] [].

Definition model : list SearchRootEntityType := [Delivery; HandlingUnit].

(** The views of a database that was set up for another model, and a view
    of the user's. *)
Definition views : list ArangoSearchView :=
  [mkView "flex_view_handlingUnits"; mkView "statistics"].

Definition db : Database := mkDatabase (fun _ => true) (fun _ => 42%Z).

End SampleSearch.

(** ** One run per operation ([operation-based-resolvers.ts]) *)

Module OperationResolvers.

(** What [resolveOp] reads of [info]: the operation, an object (the number
    stands for its identity), next to what only the operation resolver
    reads. *)
Record ResolveInfo : Type := mkInfo {
  operation : nat;
  fieldName : string
}.

(** The weak map [promises] of one converted type, and the calls of
    [operationResolver] so far. The promise a call returns is a new object:
    it is known by the number of the call. *)
Record ResolverState : Type := mkResolverState {
  promises : list (nat * nat);
  calls : list ResolveInfo
}.

Definition resolveOp (info : ResolveInfo) (state : ResolverState)
  : nat * ResolverState :=
  match Utils.mapGet (promises state) (operation info) with
  | Some cached => (cached, state)
  | None =>
      let promise := length (calls state) in
      (promise,
       mkResolverState (Utils.mapSet (promises state) (operation info) promise)
         (calls state ++ [info]))
  end.

End OperationResolvers.

(** ** Predicates the statements use *)

(** A chain of Field accesses that starts at [itemVariable], with the fields
    it goes through, innermost first. *)
Inductive FieldChain (itemVariable : VariableNode)
  : QueryNode -> list Field -> Prop :=
| FieldChain_start objectNode field path :
    isVariable objectNode itemVariable = true ->
    FieldChain itemVariable (FieldQueryNode objectNode field path) [field]
| FieldChain_step objectNode field path fields :
    FieldChain itemVariable objectNode fields ->
    FieldChain itemVariable (FieldQueryNode objectNode field path)
      (fields ++ [field]).

(** A Field access, possibly wrapped in SafeList, and the Field access in it. *)
Definition isFieldList (listNode fieldNode : QueryNode) : Prop :=
  (listNode = fieldNode \/ listNode = SafeListQueryNode fieldNode)
  /\ exists objectNode field path, fieldNode = FieldQueryNode objectNode field path.

(** The conditions under which the array expansion is said to apply, with
    the parts of the nodes the emitted fragment is made of. *)
Definition ArrayExpansionApplies `{Imports} (quantifier : Quantifier)
    (conditionNode listNode : QueryNode) (itemVariable : VariableNode)
    (fieldNode rhs : QueryNode) (fields : list Field) : Prop :=
  quantifier = some
  /\ isFieldList listNode fieldNode
  /\ exists lhs operator,
       conditionNode = BinaryOperationQueryNode lhs operator rhs
       /\ (operator = EQUAL
           \/ (operator = LIKE
               /\ exists pattern,
                    rhs = LiteralQueryNode (JString pattern)
                    /\ isLiteralPattern (analyzeLikePatternPrefix pattern) = true
                    /\ isStringCaseInsensitive pattern = true))
       /\ FieldChain itemVariable lhs fields.

(** The fragment [value IN list[*].path.to.field]. *)
Definition arrayExpansionFragment (valueFrag listFrag : AQLFragment)
    (fields : list Field) : AQLFragment :=
  aql.template [valueFrag; aql.code " IN "; listFrag; aql.code "[*]";
                aql.concat (map getFieldAccessFragment fields)].

(** What the array expansion does once its conditions hold: the value is
    lowered, then the list, and the fragment is made of both. *)
Definition arrayExpansionRun (processNode : QueryNode -> QueryContext -> M AQLFragment)
    (fieldNode rhs : QueryNode) (fields : list Field) (context : QueryContext)
  : M (option AQLFragment) :=
  valueFrag <- processNode rhs context ;;
  listFrag <- processNode fieldNode context ;;
  ret (Some (arrayExpansionFragment valueFrag listFrag fields)).

(** A context that holds the query-result bindings of [parent], none of its
    other bindings, and [parent]'s two collection sets. *)
Definition IsPreExecContextOf (parent context : QueryContext) : Prop :=
  (forall varNode aqlVar,
      variableMap context !! varNode = Some aqlVar
      <-> variableMap parent !! varNode = Some aqlVar
          /\ isQueryResult aqlVar = true)
  /\ readAccessedCollections context = readAccessedCollections parent
  /\ writeAccessedCollections context = writeAccessedCollections parent.

(** The fragment refers to the AQL variable of identity [x]. *)
Fixpoint mentions (x : nat) (fragment : AQLFragment) : bool :=
  match fragment with
  | AQLVariableFragment v => Nat.eqb (aqlVarId v) x
  | AQLCompoundFragment fragments =>
      (fix any (l : list AQLFragment) : bool :=
         match l with
         | [] => false
         | f :: rest => mentions x f || any rest
         end) fragments
  | AQLIndentationFragment f => mentions x f
  | _ => false
  end.

Definition clean (x : nat) (fragment : AQLFragment) : Prop :=
  mentions x fragment = false.

(** No binding of the context is to the AQL variable of identity [x]. *)
Definition contextFree (x : nat) (context : QueryContext) : Prop :=
  forall varNode aqlVar,
    variableMap context !! varNode = Some aqlVar -> aqlVarId aqlVar <> x.

(** A computation that, started after the variable of identity [x] was
    created, ends (if it does) after it was created and with a result that
    satisfies [post]. *)
Definition preserves {A} (x : nat) (m : M A) (post : A -> Prop) : Prop :=
  forall st result st',
    x < nextVariable st -> m st = Ok (result, st') ->
    x < nextVariable st' /\ post result.

(** A line of a block that is a LIMIT clause. *)
Definition isLimitLine (line : AQLFragment) : bool :=
  match line with
  | AQLCompoundFragment (AQLCodeFragment c :: _) => String.eqb c "LIMIT "
  | _ => false
  end.

(** A fragment whose text starts with [ANALYZER(]. *)
Definition isAnalyzerWrapped (fragment : AQLFragment) : bool :=
  match fragment with
  | AQLCompoundFragment (AQLCodeFragment c :: _) => String.prefix "ANALYZER(" c
  | _ => false
  end.

(** The characters of [str] before position [n]. *)
Fixpoint takeChars (n : nat) (str : string) : string :=
  match n, str with
  | S n', String c rest => String c (takeChars n' rest)
  | _, _ => EmptyString
  end.

Section FirstOccurrences.
Context {TItem TKey : Type} `{EqDecision TKey}.
Variable keyFn : TItem -> TKey.

(** The keys of a list of items, each once, in the order in which they first
    occur; and the items grouped under them. *)
Definition keysOf (items : list TItem) : list TKey :=
  Utils.removeDuplicates (map keyFn items) id.

Definition groupsOf (items : list TItem) : list (TKey * list TItem) :=
  map (fun key => (key, filter (fun item => keyFn item = key) items)) (keysOf items).

End FirstOccurrences.

(** The keys under which [validate] records the attributes of a field, of a
    type and of a namespace, in the order in which it meets them. *)
Definition keysOfField (type : string)
    (entry : string * option Localization.FieldLocalizationConfig) : list string :=
  match entry.2 with
  | Some fieldConf =>
      (if Localization.truthy (Localization.field_label fieldConf)
       then [type +:+ "/" +:+ entry.1 +:+ "/label"] else [])
      ++ (if Localization.truthy (Localization.field_hint fieldConf)
          then [type +:+ "/" +:+ entry.1 +:+ "/hint"] else [])
  | None => []
  end.

Definition keysOfType (entry : string * Localization.TypeLocalizationConfig)
  : list string :=
  (if Localization.truthy (Localization.type_hint entry.2)
   then [entry.1 +:+ "/hint"] else [])
  ++ (if Localization.truthy (Localization.type_singular entry.2)
      then [entry.1 +:+ "/singular"] else [])
  ++ (if Localization.truthy (Localization.type_plural entry.2)
      then [entry.1 +:+ "/plural"] else [])
  ++ concat (map (keysOfField entry.1)
               (default [] (Localization.type_fields entry.2))).

Definition keysOfNamespace (ns : Localization.NamespaceLocalization) : list string :=
  concat (map keysOfType (default [] (Localization.types ns))).

(** A step of the validation that records [keys] and adds a message exactly
    if one of them is recorded for the second time. *)
Definition tracks (step : Localization.ValidationState -> Localization.ValidationState)
    (keys : list string) : Prop :=
  forall state,
    (step state).1 = state.1 ++ keys
    /\ exists added,
         (step state).2 = state.2 ++ added
         /\ (added = [] <-> NoDup keys /\ forall key, key ∈ keys -> key ∉ state.1).

(** How often the fields below [bound] may still be added to [path] before each of
    them occurs [depth] times in it. *)
Definition remainingDepth (depth : nat) (bound : nat)
    (path : list ArangoSearch.SearchField) : nat :=
  list_sum
    (map (fun identity =>
            depth
            - length (List.filter
                        (fun f => Nat.eqb (ArangoSearch.fieldIdentity f) identity)
                        path))
       (seq 0 bound)).

(** The names of the views of a database once migrations were carried out,
    in their order: a dropped view is gone, a created one is there. *)
Definition viewNamesAfter (views : list ArangoSearch.ArangoSearchView)
    (migrations : list ArangoSearch.SchemaMigration) : list string :=
  fold_left
    (fun names migration =>
       match migration with
       | ArangoSearch.DropArangoSearchViewMigration viewName =>
           List.filter (fun name => negb (String.eqb name viewName)) names
       | ArangoSearch.CreateArangoSearchViewMigration config =>
           names ++ [ArangoSearch.migrationViewName config]
       end)
    migrations (map ArangoSearch.name views).

(** The fields of one converted type resolved one after the other: the
    promises they get, and the state afterwards. *)
Fixpoint resolveAll (infos : list OperationResolvers.ResolveInfo)
    (state : OperationResolvers.ResolverState)
  : list nat * OperationResolvers.ResolverState :=
  match infos with
  | [] => ([], state)
  | info :: rest =>
      let resolved := OperationResolvers.resolveOp info state in
      let others := resolveAll rest resolved.2 in
      (resolved.1 :: others.1, others.2)
  end.


(** The store [st'] continues [st]: the counters have not gone back, and every
    set and array that existed in [st] has only been added to at its end. *)
Definition storeGrows (st st' : Store) : Prop :=
  nextRef st <= nextRef st'
  /\ nextVariable st <= nextVariable st'
  /\ forall r, r < nextRef st ->
       setOf st r `prefix_of` setOf st' r
       /\ arrayOf st r `prefix_of` arrayOf st' r.

(** A computation that, when it ends, leaves a store that continues the one
    it started in. *)
Definition grows {A} (m : M A) : Prop :=
  forall st result st', m st = Ok (result, st') -> storeGrows st st'.

(** [m'] does what [m] does wherever [m] does not run out of fuel. *)
Definition refines {A} (m m' : M A) : Prop :=
  forall st, m st = OutOfFuel \/ m' st = m st.

(** The two access types are the same. *)
Definition sameAccess (a b : AccessType) : bool :=
  match a, b with
  | READ, READ | WRITE, WRITE => true
  | _, _ => false
  end.

(** The other access type. *)
Definition otherAccess (a : AccessType) : AccessType :=
  match a with READ => WRITE | WRITE => READ end.

(** The set in which a context records the accesses of a type. *)
Definition accessRef (accessType : AccessType) (context : QueryContext) : nat :=
  match accessType with
  | READ => readAccessedCollections context
  | WRITE => writeAccessedCollections context
  end.

(** The node, or a node below it, is of a class whose handler records an
    access of the given type. *)
Fixpoint records (accessType : AccessType) (node : QueryNode) : bool :=
  let inOption (node : option QueryNode) : bool :=
    match node with
    | Some node => records accessType node
    | None => false
    end in
  let inEdge (edge : PartialEdgeIdentifier) : bool :=
    inOption (fromIDNode edge) || inOption (toIDNode edge) in
  match node with
  | LiteralQueryNode _ | NullQueryNode | RuntimeErrorQueryNode _
  | ConstBoolQueryNode _ | ConstIntQueryNode _ | VariableQueryNode _ => false
  | ObjectQueryNode properties =>
      existsb (fun p => records accessType (valueNode p)) properties
  | ListQueryNode nodes | ConcatListsQueryNode nodes | MergeObjectsQueryNode nodes =>
      existsb (records accessType) nodes
  | VariableAssignmentQueryNode _ variableValueNode resultNode =>
      records accessType variableValueNode || records accessType resultNode
  | WithPreExecutionQueryNode preExecQueries resultNode =>
      existsb (fun p => records accessType (query p)) preExecQueries
      || records accessType resultNode
  | EntityFromIdQueryNode _ idNode =>
      sameAccess accessType READ || records accessType idNode
  | FieldQueryNode objectNode _ _ | FieldPathQueryNode objectNode _
  | RootEntityIDQueryNode objectNode => records accessType objectNode
  | QuickSearchQueryNode _ _ qsFilterNode => records accessType qsFilterNode
  | TransformListQueryNode listNode _ filterNode orderBy _ _ innerNode =>
      records accessType listNode || records accessType filterNode
      || existsb (fun clause => records accessType (clauseValueNode clause)) orderBy
      || records accessType innerNode
  | CountQueryNode listNode | FirstOfListQueryNode listNode => records accessType listNode
  | BinaryOperationQueryNode lhs _ rhs | OperatorWithLanguageQueryNode lhs _ rhs _ =>
      records accessType lhs || records accessType rhs
  | UnaryOperationQueryNode valueNode _ | TypeCheckQueryNode valueNode _ =>
      records accessType valueNode
  | ConditionalQueryNode condition expr1 expr2 =>
      records accessType condition || records accessType expr1
      || records accessType expr2
  | SafeListQueryNode sourceNode => records accessType sourceNode
  | QuantifierFilterNode listNode _ _ conditionNode =>
      records accessType listNode || records accessType conditionNode
  | EntitiesQueryNode _ => sameAccess accessType READ
  | FollowEdgeQueryNode _ sourceEntityNode =>
      sameAccess accessType READ || records accessType sourceEntityNode
  | CreateEntityQueryNode _ objectNode =>
      sameAccess accessType WRITE || records accessType objectNode
  | UpdateEntitiesQueryNode _ listNode updates _ =>
      sameAccess accessType WRITE || records accessType listNode
      || existsb (fun p => records accessType (valueNode p)) updates
  | DeleteEntitiesQueryNode _ listNode =>
      sameAccess accessType WRITE || records accessType listNode
  | AddEdgesQueryNode _ edges => sameAccess accessType WRITE || existsb inEdge edges
  | RemoveEdgesQueryNode _ _ => true
  | SetEdgeQueryNode _ existingEdge newEdge =>
      sameAccess accessType WRITE || inEdge existingEdge || inEdge newEdge
  end.

(** A computation that leaves the set [r], which exists when it starts, as
    it is, and ends with a result that satisfies [post]. *)
Definition keeps {A} (r : nat) (m : M A) (post : A -> Prop) : Prop :=
  forall st result st',
    r < nextRef st -> m st = Ok (result, st') ->
    r < nextRef st' /\ setOf st' r = setOf st r /\ post result.

(** The set in which the context records accesses of the given type is not
    the set [r]. *)
Definition avoids (accessType : AccessType) (r : nat) (context : QueryContext)
  : Prop :=
  accessRef accessType context <> r.

(** The rewrites of the imports add no node that records an access of the
    given type. *)
Definition rewritesRecordNothing `{Imports} (accessType : AccessType) : Prop :=
  (forall node, records accessType node = false ->
                records accessType (simplifyBooleans node) = false)
  /\ (forall node, records accessType node = false ->
                   records accessType (not node) = false)
  /\ (forall node,
         records accessType node = false ->
         records accessType (extractVariableAssignments node).1 = false
         /\ forall assignment,
              assignment ∈ (extractVariableAssignments node).2 ->
              records accessType (variableValueNode assignment) = false).

(** The accesses of the given type that a compound query declares. *)
Definition accessedCollections (accessType : AccessType)
    (compound : AQLCompoundQuery) : list string :=
  match accessType with
  | READ => cq_readAccessedCollections compound
  | WRITE => cq_writeAccessedCollections compound
  end.

(** * Properties *)

(** ** The computation monad *)

Lemma bind_Ok {A B} (m : M A) (k : A -> M B) st a st' :
  m st = Ok (a, st') -> bind m k st = k a st'.
Proof. intros Hm. unfold bind. now rewrite Hm. Qed.

Lemma bind_Ok_inv {A B} (m : M A) (k : A -> M B) st r :
  bind m k st = Ok r ->
  exists a st1, m st = Ok (a, st1) /\ k a st1 = Ok r.
Proof.
  unfold bind. destruct (m st) as [[a st1]| |]; try discriminate.
  intros Hk. now exists a, st1.
Qed.

Lemma ret_Ok_inv {A} (a : A) st r : ret a st = Ok r -> r = (a, st).
Proof. unfold ret. congruence. Qed.

Section GeneratorProperties.
Context `{Imports}.

Lemma processNode_S fuel node context :
  processNode (S fuel) node context = processors (processNode fuel) node context.
Proof. reflexivity. Qed.

Lemma processNode_Ok_fuel fuel node context st r :
  processNode fuel node context st = Ok r -> exists fuel', fuel = S fuel'.
Proof. destruct fuel; [discriminate | eauto]. Qed.

End GeneratorProperties.

(** ** LIKE *)

Section LikeLowering.
Context `{Imports}.

Lemma isStringCaseInsensitive_true str :
  isStringCaseInsensitive str = true <-> toLowerCase str = toUpperCase str.
Proof. unfold isStringCaseInsensitive. apply String.eqb_eq. Qed.

Lemma isStringCaseInsensitive_false str :
  isStringCaseInsensitive str = false <-> toLowerCase str <> toUpperCase str.
Proof. unfold isStringCaseInsensitive. apply String.eqb_neq. Qed.

Lemma getFastStartsWithQuery_empty lhs :
  getFastStartsWithQuery lhs "" =
  aql.template [aql.code "IS_STRING("; lhs; aql.code ")"].
Proof. reflexivity. Qed.

Lemma getFastStartsWithQuery_nonempty lhs prefix :
  prefix <> "" ->
  getFastStartsWithQuery lhs prefix =
  aql.template
    [aql.code "("; lhs; aql.code " >= UPPER("; aql.value (JString prefix);
     aql.code ") && "; lhs; aql.code " < LOWER(";
     aql.value (JString (prefix +:+ maxChar)); aql.code "))"].
Proof. destruct prefix; [congruence | reflexivity]. Qed.

(** C1. A BinaryOp with operator LIKE whose operands lower to [lhs] and
    [rhs] lowers to: [LIKE(lhs, rhs, true)] when the right operand is not a
    literal string; for a literal pattern, the equality [(lhs == value)]
    when the value has no case-sensitive character and the range
    [(lhs >= UPPER(value) && lhs <= LOWER(value))] otherwise; for a literal
    prefix followed by [%] only, the fast range alone
    ([IS_STRING(lhs)] for the empty prefix,
    [(lhs >= UPPER(prefix) && lhs < LOWER(prefix + U+10FFFF))] otherwise);
    in the remaining case the conjunction of the fast range and
    [LIKE(lhs, rhs, true)]. *)
Theorem like_lowering fuel lhsNode rhsNode context st lhs st1 rhs st2 :
  processNode fuel lhsNode context st = Ok (lhs, st1) ->
  processNode fuel rhsNode context st1 = Ok (rhs, st2) ->
  let emitted :=
    processNode (S fuel) (BinaryOperationQueryNode lhsNode LIKE rhsNode)
      context st in
  let slowLikeFrag :=
    aql.template [aql.code "LIKE("; lhs; aql.code ", "; rhs; aql.code ", true)"] in
  let range prefix :=
    aql.template
      [aql.code "("; lhs; aql.code " >= UPPER("; aql.value (JString prefix);
       aql.code ") && "; lhs; aql.code " < LOWER(";
       aql.value (JString (prefix +:+ maxChar)); aql.code "))"] in
  let isString := aql.template [aql.code "IS_STRING("; lhs; aql.code ")"] in
  ((forall pattern, rhsNode <> LiteralQueryNode (JString pattern)) ->
   emitted = Ok (slowLikeFrag, st2))
  /\ forall pattern,
      rhsNode = LiteralQueryNode (JString pattern) ->
      let analysis := analyzeLikePatternPrefix pattern in
      let value := literalPrefix analysis in
      (isLiteralPattern analysis = true ->
       (toLowerCase value = toUpperCase value ->
        emitted =
        Ok (aql.template [aql.code "("; lhs; aql.code " == ";
                          aql.value (JString value); aql.code ")"], st2))
       /\ (toLowerCase value <> toUpperCase value ->
           emitted =
           Ok (aql.template
                 [aql.code "("; lhs; aql.code " >= ";
                  aql.template [aql.code "UPPER("; aql.value (JString value);
                                aql.code ")"];
                  aql.code " && "; lhs; aql.code " <= ";
                  aql.template [aql.code "LOWER("; aql.value (JString value);
                                aql.code ")"];
                  aql.code ")"], st2)))
      /\ (isLiteralPattern analysis = false ->
          isSimplePrefixPattern analysis = true ->
          (value = "" -> emitted = Ok (isString, st2))
          /\ (value <> "" -> emitted = Ok (range value, st2)))
      /\ (isLiteralPattern analysis = false ->
          isSimplePrefixPattern analysis = false ->
          (value = "" ->
           emitted =
           Ok (aql.template [aql.code "("; isString; aql.code " && ";
                             slowLikeFrag; aql.code ")"], st2))
          /\ (value <> "" ->
              emitted =
              Ok (aql.template [aql.code "("; range value; aql.code " && ";
                                slowLikeFrag; aql.code ")"], st2))).
Proof.
  intros Hlhs Hrhs emitted slowLikeFrag range isString.
  assert (Hrun : emitted =
                 match rhsNode with
                 | LiteralQueryNode (JString value) =>
                     let analysis := analyzeLikePatternPrefix value in
                     if isLiteralPattern analysis then
                       Ok (getEqualsIgnoreCaseQuery lhs (literalPrefix analysis), st2)
                     else if isSimplePrefixPattern analysis then
                       Ok (getFastStartsWithQuery lhs (literalPrefix analysis), st2)
                     else
                       Ok (aql.template
                             [aql.code "(";
                              getFastStartsWithQuery lhs (literalPrefix analysis);
                              aql.code " && "; slowLikeFrag; aql.code ")"], st2)
                 | _ => Ok (slowLikeFrag, st2)
                 end).
  { subst emitted. rewrite processNode_S. unfold processors, processBinaryOperation.
    rewrite (bind_Ok _ _ _ _ _ Hlhs), (bind_Ok _ _ _ _ _ Hrhs). cbn [getAQLOperator].
    destruct rhsNode as [[]| | | | | | | | | | | | | | | | | | | | | | | | | | | | | | | | | | ];
      try reflexivity.
    cbn zeta. destruct (isLiteralPattern _); [reflexivity |].
    destruct (isSimplePrefixPattern _); reflexivity. }
  split.
  - intros Hnot. rewrite Hrun.
    destruct rhsNode; try reflexivity.
    destruct value; try reflexivity.
    exfalso. eapply Hnot. reflexivity.
  - intros pattern -> analysis value. cbn zeta in Hrun. fold analysis in Hrun.
    fold value in Hrun. split; [| split].
    + intros Hlit. rewrite Hrun, Hlit. unfold getEqualsIgnoreCaseQuery.
      split; intros Hcase.
      * apply isStringCaseInsensitive_true in Hcase. now rewrite Hcase.
      * apply isStringCaseInsensitive_false in Hcase. now rewrite Hcase.
    + intros Hlit Hsimple. rewrite Hrun, Hlit, Hsimple. split.
      * now intros ->.
      * intros Hne. now rewrite getFastStartsWithQuery_nonempty.
    + intros Hlit Hsimple. rewrite Hrun, Hlit, Hsimple. split.
      * now intros ->.
      * intros Hne. now rewrite getFastStartsWithQuery_nonempty.
Qed.

End LikeLowering.

(** The mixed pattern [a%b]: the range over the prefix [a], and the LIKE. *)
Lemma like_lowering_witness :
  processNode (H := SampleImports.imports) 3
    (BinaryOperationQueryNode Samples.description LIKE
       (LiteralQueryNode (JString "a%b")))
    Samples.context Samples.store
  = Ok (aql.template
          [aql.code "(";
           aql.template
             [aql.code "("; Samples.descriptionFrag; aql.code " >= UPPER(";
              aql.value (JString "a"); aql.code ") && "; Samples.descriptionFrag;
              aql.code " < LOWER("; aql.value (JString ("a" +:+ maxChar));
              aql.code "))"];
           aql.code " && ";
           aql.template [aql.code "LIKE("; Samples.descriptionFrag; aql.code ", ";
                         aql.value (JString "a%b"); aql.code ", true)"];
           aql.code ")"],
        Samples.store).
Proof.
  pose proof (like_lowering (H := SampleImports.imports) 2 Samples.description
                (LiteralQueryNode (JString "a%b")) Samples.context Samples.store
                Samples.descriptionFrag Samples.store (aql.value (JString "a%b"))
                Samples.store eq_refl eq_refl) as [_ Hliteral].
  destruct (Hliteral "a%b" eq_refl) as (_ & _ & Hmixed).
  destruct (Hmixed eq_refl eq_refl) as [_ Hrange].
  apply Hrange. discriminate.
Defined.

(** ** The compilation context *)

Lemma newQueryContext_Ok st :
  newQueryContext st =
  Ok (mkContext ∅ (nextRef st) (nextRef st + 1) (nextRef st + 2),
      mkStore (<[nextRef st := []]> (arrays st))
              (<[nextRef st + 2 := []]> (<[nextRef st + 1 := []]> (sets st)))
              (nextRef st + 3) (nextVariable st)).
Proof. reflexivity. Qed.

Lemma getVariable_bound this variableNode bound st :
  variableMap this !! varId variableNode = Some bound ->
  getVariable this variableNode st = Ok (aql.template [aql.var bound], st).
Proof. intros Hbound. unfold getVariable. now rewrite Hbound. Qed.

Lemma getVariable_unbound this variableNode st :
  variableMap this !! varId variableNode = None ->
  getVariable this variableNode st = Throw (VariableNotIntroduced variableNode).
Proof. intros Hbound. unfold getVariable. now rewrite Hbound. Qed.

Lemma newNestedContext_fresh this variableNode aqlVariable st :
  variableMap this !! varId variableNode = None ->
  newNestedContextWithNewVariable this variableNode aqlVariable st =
  Ok (mkContext (<[varId variableNode := aqlVariable]> (variableMap this))
        (preExecQueries this) (readAccessedCollections this)
        (writeAccessedCollections this),
      mkStore (<[nextRef st := []]> (arrays st))
              (<[nextRef st + 2 := []]> (<[nextRef st + 1 := []]> (sets st)))
              (nextRef st + 3) (nextVariable st)).
Proof.
  intros Hfree. unfold newNestedContextWithNewVariable. now rewrite Hfree.
Qed.

Lemma newNestedContext_bound this variableNode aqlVariable st :
  is_Some (variableMap this !! varId variableNode) ->
  newNestedContextWithNewVariable this variableNode aqlVariable st =
  Throw (VariableIntroducedTwice variableNode).
Proof.
  intros [bound Hbound]. unfold newNestedContextWithNewVariable.
  now rewrite Hbound.
Qed.

(** The copy loop of [newPreExecContext] keeps the query-result bindings and
    nothing else. *)
Lemma queryResultVariables_lookup (parent : gmap nat AQLVariable) varNode aqlVar :
  copyQueryResultVariables parent ∅ !! varNode = Some aqlVar
  <-> parent !! varNode = Some aqlVar /\ isQueryResult aqlVar = true.
Proof.
  revert varNode aqlVar. unfold copyQueryResultVariables.
  apply (map_fold_weak_ind
           (fun (copied parent : gmap nat AQLVariable) =>
              forall varNode aqlVar,
                copied !! varNode = Some aqlVar
                <-> parent !! varNode = Some aqlVar /\ isQueryResult aqlVar = true)).
  - intros varNode aqlVar. rewrite lookup_empty. split; [discriminate |].
    now intros [? _].
  - intros i x m copied Hfree IH varNode aqlVar.
    destruct (decide (i = varNode)) as [-> | Hne].
    + rewrite lookup_insert_eq. destruct (isQueryResult x) eqn:Hx.
      * rewrite lookup_insert_eq. split.
        -- intros [= ->]. now split.
        -- now intros [? _].
      * rewrite IH, Hfree. split.
        -- now intros [? _].
        -- intros [[= ->] Hq]. congruence.
    + rewrite lookup_insert_ne by done. destruct (isQueryResult x).
      * rewrite lookup_insert_ne by done. apply IH.
      * apply IH.
Qed.

Lemma newPreExecContext_Ok this st :
  exists preExecContext st',
    newPreExecContext this st = Ok (preExecContext, st')
    /\ IsPreExecContextOf this preExecContext.
Proof.
  eexists _, _. split; [reflexivity |].
  split; [| split]; [| reflexivity | reflexivity].
  intros varNode aqlVar. cbn. apply queryResultVariables_lookup.
Qed.

(** C6. [getVariable] throws exactly when the variable has no binding in the
    context, and otherwise returns the fragment variable bound to it;
    introducing a variable throws exactly when its identity is already bound,
    and otherwise returns a context whose map is the old one with the one new
    binding, which [getVariable] then resolves. *)
Theorem variable_errors this variableNode aqlVariable st :
  ((exists e, getVariable this variableNode st = Throw e)
   <-> variableMap this !! varId variableNode = None)
  /\ (variableMap this !! varId variableNode = None ->
      getVariable this variableNode st
      = Throw (VariableNotIntroduced variableNode))
  /\ (forall bound,
        variableMap this !! varId variableNode = Some bound ->
        getVariable this variableNode st = Ok (aql.template [aql.var bound], st))
  /\ ((exists e,
         newNestedContextWithNewVariable this variableNode aqlVariable st = Throw e)
      <-> is_Some (variableMap this !! varId variableNode))
  /\ ((exists e, introduceVariable this variableNode st = Throw e)
      <-> is_Some (variableMap this !! varId variableNode))
  /\ (is_Some (variableMap this !! varId variableNode) ->
      introduceVariable this variableNode st
      = Throw (VariableIntroducedTwice variableNode))
  /\ (variableMap this !! varId variableNode = None ->
      (exists newContext st',
          newNestedContextWithNewVariable this variableNode aqlVariable st
          = Ok (newContext, st')
          /\ variableMap newContext
             = <[varId variableNode := aqlVariable]> (variableMap this))
      /\ exists newContext st',
          let variable :=
            mkAQLVariable (nextVariable st) (varLabel variableNode) false in
          introduceVariable this variableNode st = Ok (newContext, st')
          /\ variableMap newContext
             = <[varId variableNode := variable]> (variableMap this)
          /\ preExecQueries newContext = preExecQueries this
          /\ readAccessedCollections newContext = readAccessedCollections this
          /\ writeAccessedCollections newContext = writeAccessedCollections this
          /\ getVariable newContext variableNode st'
             = Ok (aql.template [aql.var variable], st')).
Proof.
  assert (Hget : forall e, getVariable this variableNode st = Throw e ->
                           variableMap this !! varId variableNode = None).
  { intros e. unfold getVariable.
    destruct (variableMap this !! varId variableNode); [discriminate | reflexivity]. }
  assert (Hnested : forall e,
             newNestedContextWithNewVariable this variableNode aqlVariable st
             = Throw e -> is_Some (variableMap this !! varId variableNode)).
  { intros e. unfold newNestedContextWithNewVariable.
    destruct (variableMap this !! varId variableNode); [eauto | discriminate]. }
  assert (Hunfold : introduceVariable this variableNode st
                    = newNestedContextWithNewVariable this variableNode
                        (mkAQLVariable (nextVariable st) (varLabel variableNode) false)
                        (mkStore (arrays st) (sets st) (nextRef st)
                                 (S (nextVariable st)))).
  { reflexivity. }
  split; [| split; [| split; [| split; [| split; [| split]]]]].
  - split.
    + intros [e He]. eauto.
    + intros Hfree. eexists. now apply getVariable_unbound.
  - apply getVariable_unbound.
  - intros bound. apply getVariable_bound.
  - split.
    + intros [e He]. eauto.
    + intros Hsome. eexists. now apply newNestedContext_bound.
  - rewrite Hunfold. split.
    + intros [e He]. revert He. unfold newNestedContextWithNewVariable.
      destruct (variableMap this !! varId variableNode); [eauto | discriminate].
    + intros Hsome. eexists. now apply newNestedContext_bound.
  - intros Hsome. rewrite Hunfold. now apply newNestedContext_bound.
  - intros Hfree. split.
    + eexists _, _. split; [now apply newNestedContext_fresh | reflexivity].
    + eexists _, _. cbn zeta. rewrite Hunfold. split.
      { now apply newNestedContext_fresh. }
      repeat split. apply getVariable_bound. cbn. apply lookup_insert_eq.
Qed.

(** [item] is not bound in the sample context: using it throws; introducing
    it gives a context in which it resolves to the fresh variable. *)
Lemma variable_errors_witness :
  getVariable Samples.context Samples.item Samples.store
  = Throw (VariableNotIntroduced Samples.item)
  /\ exists newContext st',
      introduceVariable Samples.context Samples.item Samples.store
      = Ok (newContext, st')
      /\ getVariable newContext Samples.item st'
         = Ok (aql.template [aql.var (mkAQLVariable 2 (Some "item") false)], st').
Proof.
  destruct (variable_errors Samples.context Samples.item Samples.deliveryVar
              Samples.store) as (_ & Hthrow & _ & _ & _ & _ & Hintro).
  split; [exact (Hthrow eq_refl) |].
  destruct (Hintro eq_refl) as (_ & newContext & st' & Hrun & _ & _ & _ & _ & Hget).
  now exists newContext, st'.
Defined.

Lemma preExecContext_hides_transient parent context variableNode bound st :
  IsPreExecContextOf parent context ->
  variableMap parent !! varId variableNode = Some bound ->
  isQueryResult bound = false ->
  getVariable context variableNode st = Throw (VariableNotIntroduced variableNode).
Proof.
  intros (Hmap & _ & _) Hbound Htransient. apply getVariable_unbound.
  destruct (variableMap context !! varId variableNode) as [aqlVar |] eqn:Hlookup;
    [| reflexivity].
  apply Hmap in Hlookup as [Hparent Hresult]. congruence.
Qed.

Lemma preExecContext_keeps_results parent context variableNode bound st :
  IsPreExecContextOf parent context ->
  variableMap parent !! varId variableNode = Some bound ->
  isQueryResult bound = true ->
  getVariable context variableNode st = Ok (aql.template [aql.var bound], st).
Proof.
  intros (Hmap & _ & _) Hbound Hresult. apply getVariable_bound.
  now apply Hmap.
Qed.

(** ** The i18n validator *)

(** C8, as stated, fails: on a fresh array the first call with a string
    returns false, not true, and the next call with the same string returns
    true, not false. *)
Lemma isExistingAndAdd_counterexample :
  (I18n.isExistingAndAdd "Skill/hint" []).1 <> true
  /\ I18n.isExistingAndAdd "Skill/hint" [] = (false, ["Skill/hint"])
  /\ I18n.isExistingAndAdd "Skill/hint" ["Skill/hint"]
     = (true, ["Skill/hint"; "Skill/hint"]).
Proof. repeat split. discriminate. Qed.

(** C8, amended. [isExistingAndAdd] returns true exactly when the string is
    already in the array, and appends the string in every case: on a fresh
    array the first call with a string returns false, and every later call
    with the same string returns true, whatever was added in between. *)
Theorem isExistingAndAdd_reports_existing search array :
  (I18n.isExistingAndAdd search array).2 = array ++ [search]
  /\ ((I18n.isExistingAndAdd search array).1 = true <-> search ∈ array)
  /\ (I18n.isExistingAndAdd search []).1 = false
  /\ forall later,
      (I18n.isExistingAndAdd search
         ((I18n.isExistingAndAdd search array).2 ++ later)).1 = true.
Proof.
  assert (Hflag : forall a, (I18n.isExistingAndAdd search a).1 = true <-> search ∈ a).
  { intros a. unfold I18n.isExistingAndAdd. case_bool_decide; cbn; split; auto.
    discriminate. }
  assert (Harray : forall a, (I18n.isExistingAndAdd search a).2 = a ++ [search]).
  { intros a. unfold I18n.isExistingAndAdd. now case_bool_decide. }
  split; [apply Harray |]. split; [apply Hflag |]. split.
  - destruct (I18n.isExistingAndAdd search []).1 eqn:Hfirst; [| reflexivity].
    apply Hflag in Hfirst. now apply elem_of_nil in Hfirst.
  - intros later. apply Hflag. rewrite Harray.
    rewrite !elem_of_app, list_elem_of_singleton. auto.
Qed.

Lemma isExistingAndAdd_reports_existing_witness :
  (I18n.isExistingAndAdd "Skill/hint" []).1 = false
  /\ (I18n.isExistingAndAdd "Skill/hint"
        ((I18n.isExistingAndAdd "Skill/hint" []).2 ++ ["Skill/plural"])).1 = true.
Proof.
  destruct (isExistingAndAdd_reports_existing "Skill/hint" [])
    as (_ & _ & Hfirst & Hlater).
  split; [exact Hfirst | exact (Hlater ["Skill/plural"])].
Defined.

(** ** OperatorWithLanguage *)

(** C7, as stated, fails: a QUICKSEARCH_STARTS_WITH node lowers to a bare
    [STARTS_WITH(lhs,rhs)], which is not wrapped in [ANALYZER(...)] and names
    no analyzer. *)
Lemma operatorWithLanguage_counterexample :
  processNode (H := SampleImports.imports) 3
    (OperatorWithLanguageQueryNode Samples.description QUICKSEARCH_STARTS_WITH
       (LiteralQueryNode (JString "desc")) (Some "DE"))
    Samples.context Samples.store
  = Ok (aql.template [aql.code "STARTS_WITH("; Samples.descriptionFrag;
                      aql.code ","; aql.value (JString "desc"); aql.code ")"],
        Samples.store)
  /\ isAnalyzerWrapped
       (aql.template [aql.code "STARTS_WITH("; Samples.descriptionFrag;
                      aql.code ","; aql.value (JString "desc"); aql.code ")"])
     <> true.
Proof. split; [reflexivity | discriminate]. Qed.

Section OperatorWithLanguage.
Context `{Imports}.

(** C7, amended. The analyzer is [text_<lang>], with the language tag in
    lower case, when a language is given, and [identity] when none is. An
    OperatorWithLanguage node whose operands lower to [lhs] and [rhs] lowers,
    for the three language-aware operators, to a predicate that starts with
    [ANALYZER(] and passes that analyzer as a bound value; for
    QUICKSEARCH_STARTS_WITH it lowers to [STARTS_WITH(lhs,rhs)], without an
    ANALYZER wrapper. *)
Theorem operatorWithLanguage_lowering fuel lhsNode rhsNode quickSearchLanguage
    context st lhs st1 rhs st2 :
  processNode fuel lhsNode context st = Ok (lhs, st1) ->
  processNode fuel rhsNode context st1 = Ok (rhs, st2) ->
  let emitted operator :=
    processNode (S fuel)
      (OperatorWithLanguageQueryNode lhsNode operator rhsNode quickSearchLanguage)
      context st in
  let analyzer := aql.value (JString (analyzerFor quickSearchLanguage)) in
  (forall language,
      language <> "" ->
      analyzerFor (Some language) = "text_" +:+ toLowerCase language)
  /\ analyzerFor None = "identity"
  /\ emitted QUICKSEARCH_CONTAINS_ANY_WORD
     = Ok (aql.template [aql.code "ANALYZER( "; lhs; aql.code " IN TOKENS("; rhs;
                         aql.code ", "; analyzer; aql.code "),"; analyzer;
                         aql.code ")"], st2)
  /\ emitted QUICKSEARCH_CONTAINS_PHRASE
     = Ok (aql.template [aql.code "ANALYZER( PHRASE( "; lhs; aql.code ", "; rhs;
                         aql.code "), "; analyzer; aql.code ")"], st2)
  /\ (exists closing,
         emitted QUICKSEARCH_CONTAINS_PREFIX
         = Ok (aql.template [aql.code "ANALYZER( STARTS_WITH( "; lhs;
                             aql.code ", TOKENS("; rhs; aql.code ")[0]), ";
                             analyzer; aql.code closing], st2))
  /\ emitted QUICKSEARCH_STARTS_WITH
     = Ok (aql.template [aql.code "STARTS_WITH("; lhs; aql.code ","; rhs;
                         aql.code ")"], st2)
  /\ forall operator fragment st',
      emitted operator = Ok (fragment, st') ->
      isAnalyzerWrapped fragment
      = match operator with
        | QUICKSEARCH_STARTS_WITH => false
        | _ => true
        end.
Proof.
  intros Hlhs Hrhs emitted analyzer.
  assert (Hrun : forall operator,
             emitted operator
             = processOperatorWithLanguage (processNode fuel) lhsNode operator
                 rhsNode quickSearchLanguage context st) by reflexivity.
  split; [| split; [| split; [| split; [| split; [| split]]]]].
  - intros [| c language] Hne; [congruence | reflexivity].
  - reflexivity.
  - rewrite Hrun. unfold processOperatorWithLanguage.
    now rewrite (bind_Ok _ _ _ _ _ Hlhs), (bind_Ok _ _ _ _ _ Hrhs).
  - rewrite Hrun. unfold processOperatorWithLanguage.
    now rewrite (bind_Ok _ _ _ _ _ Hlhs), (bind_Ok _ _ _ _ _ Hrhs).
  - exists "))". rewrite Hrun. unfold processOperatorWithLanguage.
    now rewrite (bind_Ok _ _ _ _ _ Hlhs), (bind_Ok _ _ _ _ _ Hrhs).
  - rewrite Hrun. unfold processOperatorWithLanguage.
    now rewrite (bind_Ok _ _ _ _ _ Hlhs), (bind_Ok _ _ _ _ _ Hrhs).
  - intros operator fragment st'. rewrite Hrun. unfold processOperatorWithLanguage.
    rewrite (bind_Ok _ _ _ _ _ Hlhs), (bind_Ok _ _ _ _ _ Hrhs).
    destruct operator; intros [= <- _]; reflexivity.
Qed.

End OperatorWithLanguage.

(** The phrase search of the flex-search tests, in German. *)
Lemma operatorWithLanguage_lowering_witness :
  processNode (H := SampleImports.imports) 3
    (OperatorWithLanguageQueryNode Samples.description QUICKSEARCH_CONTAINS_PHRASE
       (LiteralQueryNode (JString "a phrase")) (Some "DE"))
    Samples.context Samples.store
  = Ok (aql.template [aql.code "ANALYZER( PHRASE( "; Samples.descriptionFrag;
                      aql.code ", "; aql.value (JString "a phrase"); aql.code "), ";
                      aql.value (JString "text_de"); aql.code ")"],
        Samples.store).
Proof.
  exact (proj1 (proj2 (proj2 (proj2
           (operatorWithLanguage_lowering (H := SampleImports.imports) 2
              Samples.description (LiteralQueryNode (JString "a phrase"))
              (Some "DE") Samples.context Samples.store Samples.descriptionFrag
              Samples.store (aql.value (JString "a phrase")) Samples.store
              eq_refl eq_refl))))).
Defined.

(** ** TransformList *)

Section TransformList.
Context `{Imports}.

(** The hoisted assignments are LET lines. *)
Lemma assignVariables_no_limit processNode assignmentNodes :
  forall context lines st context' lines' st',
    assignVariables processNode assignmentNodes context lines st
    = Ok ((context', lines'), st') ->
    List.filter isLimitLine lines' = List.filter isLimitLine lines.
Proof.
  induction assignmentNodes as [| assignmentNode rest IH];
    intros context lines st context' lines' st' Hrun.
  - cbn in Hrun. apply ret_Ok_inv in Hrun. congruence.
  - cbn [assignVariables] in Hrun.
    apply bind_Ok_inv in Hrun as (context1 & st1 & _ & Hrun).
    apply bind_Ok_inv in Hrun as (tmpVar & st2 & _ & Hrun).
    apply bind_Ok_inv in Hrun as (value & st3 & _ & Hrun).
    apply IH in Hrun. rewrite Hrun, List.filter_app. cbn.
    apply app_nil_r.
Qed.

Lemma generateSortAQL_no_limit processNode orderBy context st sort st' :
  generateSortAQL processNode orderBy context st = Ok (sort, st') ->
  isLimitLine sort = false.
Proof.
  unfold generateSortAQL. destruct orderBy as [| clause rest].
  - intros Hrun. apply ret_Ok_inv in Hrun. now injection Hrun as -> _.
  - intros Hrun. apply bind_Ok_inv in Hrun as (clauses & st1 & _ & Hrun).
    apply ret_Ok_inv in Hrun. now injection Hrun as -> _.
Qed.

(** C4. The LIMIT clause of a TransformList is [LIMIT maxCount] for no skip
    and a maximum, [LIMIT skip, maxCount] for a positive skip and a maximum,
    [LIMIT skip, MAX_SAFE_INTEGER] for a positive skip and no maximum, and
    empty for neither; the emitted block has this clause as its sixth line
    and no other LIMIT line. *)
Theorem transformList_limit :
  (forall maxCount,
      limitClause 0 (Some maxCount)
      = aql.template [aql.code "LIMIT "; aql.value (JNumber maxCount)])
  /\ (forall skip maxCount,
         (0 < skip)%Z ->
         limitClause skip (Some maxCount)
         = aql.template [aql.code "LIMIT "; aql.value (JNumber skip);
                         aql.code ", "; aql.value (JNumber maxCount)])
  /\ (forall skip,
         (0 < skip)%Z ->
         limitClause skip None
         = aql.template [aql.code "LIMIT "; aql.value (JNumber skip);
                         aql.code ", "; aql.value (JNumber 9007199254740991)])
  /\ limitClause 0 None = aql.empty
  /\ isLimitLine aql.empty = false
  /\ forall fuel listNode itemVariable filterNode orderBy skip maxCount innerNode
            context st block st',
      processNode (S fuel)
        (TransformListQueryNode listNode itemVariable filterNode orderBy skip
           maxCount innerNode) context st = Ok (block, st') ->
      exists lines,
        block = aqlExt.parenthesizeList lines
        /\ lines !! 5 = Some (limitClause skip maxCount)
        /\ List.filter isLimitLine lines
           = List.filter isLimitLine [limitClause skip maxCount].
Proof.
  split; [reflexivity |]. split; [| split; [| split; [| split]]].
  - intros skip maxCount Hskip. unfold limitClause.
    destruct (Z.eqb_spec skip 0); [lia | reflexivity].
  - intros skip Hskip. unfold limitClause.
    destruct (Z.ltb_spec 0 skip); [reflexivity | lia].
  - reflexivity.
  - reflexivity.
  - intros fuel listNode itemVariable filterNode orderBy skip maxCount innerNode
      context st block st' Hrun.
    rewrite processNode_S in Hrun. cbn [processors] in Hrun.
    unfold processTransformList in Hrun.
    apply bind_Ok_inv in Hrun as (itemContext & s1 & _ & Hrun).
    apply bind_Ok_inv in Hrun as (itemVar & s2 & _ & Hrun).
    apply bind_Ok_inv in Hrun as (projection & s3 & _ & Hrun).
    apply bind_Ok_inv in Hrun as (listAndFilter & s4 & Hlist & Hrun).
    apply bind_Ok_inv in Hrun as (assigned & s5 & Hassigned & Hrun).
    apply bind_Ok_inv in Hrun as (filterFragment & s6 & Hfilter & Hrun).
    apply bind_Ok_inv in Hrun as (sort & s7 & Hsort & Hrun).
    apply bind_Ok_inv in Hrun as (result & s8 & _ & Hrun).
    apply ret_Ok_inv in Hrun. injection Hrun as -> _.
    eexists. split; [reflexivity |]. split; [reflexivity |].
    assert (Hdangling : isLimitLine listAndFilter.2 = false).
    { destruct listNode;
        apply bind_Ok_inv in Hlist as (list & s & _ & Hlist);
        apply ret_Ok_inv in Hlist; injection Hlist as -> _; reflexivity. }
    assert (Hfilter' : isLimitLine filterFragment = false).
    { destruct (simplifyBooleans filterNode) as [| | | []| | | | | | | | | | | | | | | | | | | | | | | | | | | | | | | ];
        try (apply ret_Ok_inv in Hfilter; injection Hfilter as -> _; reflexivity);
        apply bind_Ok_inv in Hfilter as (condition & s & _ & Hfilter);
        apply ret_Ok_inv in Hfilter; injection Hfilter as -> _; reflexivity. }
    apply generateSortAQL_no_limit in Hsort.
    destruct assigned as [context' lets].
    apply assignVariables_no_limit in Hassigned.
    cbn [List.filter]. cbn [isLimitLine aql.template aql.code String.eqb Ascii.eqb
                             Bool.eqb app].
    rewrite Hdangling, Hfilter', Hsort.
    replace (isLimitLine
               (if useIndirectedProjection listNode itemVariable maxCount innerNode
                then aql.template [aql.code "LET "; projection.2;
                                   aql.code " = DOCUMENT("; itemVar;
                                   aql.code "._id)"]
                else aql.empty)) with false
      by (now destruct (useIndirectedProjection _ _ _ _)).
    cbn [snd]. rewrite List.filter_app, Hassigned. cbn.
    now destruct (isLimitLine (limitClause skip maxCount)).
Qed.

End TransformList.

(** The first ten deliveries with a given number: [LIMIT 10], once. *)
Lemma transformList_limit_witness :
  exists block st' lines,
    processNode (H := SampleImports.imports) 4 Samples.deliveriesByNumber
      Samples.rootContext Samples.store = Ok (block, st')
    /\ block = aqlExt.parenthesizeList lines
    /\ lines !! 5
       = Some (aql.template [aql.code "LIMIT "; aql.value (JNumber 10)])
    /\ List.filter isLimitLine lines
       = [aql.template [aql.code "LIMIT "; aql.value (JNumber 10)]].
Proof.
  destruct (transformList_limit (H := SampleImports.imports))
    as (_ & _ & _ & _ & _ & Hblock).
  assert (Hrun : exists block st',
             processNode (H := SampleImports.imports) 4 Samples.deliveriesByNumber
               Samples.rootContext Samples.store = Ok (block, st'))
    by (eexists _, _; vm_compute; reflexivity).
  destruct Hrun as (block & st' & Hrun).
  destruct (Hblock 3 _ _ _ _ _ _ _ _ _ _ _ Hrun) as (lines & Hlines & Hsixth & Honce).
  exists block, st', lines. repeat split; assumption.
Defined.

(** ** Quantifiers *)

Lemma FieldChain_not_variable itemVariable node fields :
  FieldChain itemVariable node fields -> isVariable node itemVariable = false.
Proof. now destruct 1. Qed.

(** The loop of the array expansion collects exactly the chains of Field
    accesses that start at the item variable. *)
Lemma collectFields_chain itemVariable node :
  forall collected fields,
    collectFields node itemVariable collected = Some fields
    <-> exists chain, FieldChain itemVariable node chain
                      /\ fields = chain ++ collected.
Proof.
  induction node; intros collected fields;
    try (cbn; split; [discriminate | now intros (chain & Hchain & _); inversion Hchain]).
  cbn [collectFields]. split.
  - destruct (isVariable node itemVariable) eqn:Hvar.
    + intros [= <-]. exists [field]. split; [now constructor | reflexivity].
    + intros Hrest. apply IHnode in Hrest as (chain & Hchain & ->).
      exists (chain ++ [field]). split; [now constructor |].
      now rewrite <- app_assoc.
  - intros (chain & Hchain & ->). inversion Hchain as [? ? ? Hvar | ? ? ? inner Hinner]; subst.
    + now rewrite Hvar.
    + rewrite (FieldChain_not_variable _ _ _ Hinner).
      apply IHnode. exists inner. split; [assumption |].
      now rewrite <- app_assoc.
Qed.

Section Quantifiers.
Context `{Imports}.

Lemma isExpandableCondition_true operator rhs :
  isExpandableCondition operator rhs = true
  <-> operator = EQUAL
      \/ (operator = LIKE
          /\ exists pattern,
               rhs = LiteralQueryNode (JString pattern)
               /\ isLiteralPattern (analyzeLikePatternPrefix pattern) = true
               /\ isStringCaseInsensitive pattern = true).
Proof.
  split.
  - destruct operator; try discriminate; [now left |].
    cbn. destruct rhs; try discriminate. destruct value; try discriminate.
    intros [Hliteral Hcase]%andb_true_iff. right. split; [reflexivity |].
    now exists s.
  - intros [-> | [-> (pattern & -> & Hliteral & Hcase)]]; [reflexivity |].
    cbn. now rewrite Hliteral, Hcase.
Qed.

Lemma arrayExpansion_cases processNode quantifier conditionNode listNode
    itemVariable context st :
  (exists fieldNode rhs fields,
      ArrayExpansionApplies quantifier conditionNode listNode itemVariable
        fieldNode rhs fields
      /\ getQuantifierFilterUsingArrayExpansion processNode quantifier
           conditionNode listNode itemVariable context st
         = arrayExpansionRun processNode fieldNode rhs fields context st)
  \/ ((forall fieldNode rhs fields,
          ~ ArrayExpansionApplies quantifier conditionNode listNode itemVariable
              fieldNode rhs fields)
      /\ getQuantifierFilterUsingArrayExpansion processNode quantifier
           conditionNode listNode itemVariable context st = Ok (None, st)).
Proof.
  unfold getQuantifierFilterUsingArrayExpansion.
  destruct quantifier;
    try (right; split; [intros ? ? ? (? & _); discriminate | reflexivity]).
  destruct listNode;
    try (right; split;
         [intros f ? ? (_ & [[? | ?] (? & ? & ? & ?)] & _); congruence
         | reflexivity]);
    [| match goal with
       | |- context [SafeListQueryNode ?sourceNode] =>
           destruct sourceNode;
           try (right; split;
                [intros f ? ? (_ & [[? | ?] (? & ? & ? & ?)] & _); congruence
                | reflexivity])
       end].
  all: destruct conditionNode;
    try (right; split;
         [intros ? ? ? (_ & _ & ? & ? & ? & _); discriminate | reflexivity]).
  all: destruct (isExpandableCondition operator conditionNode2) eqn:Hexpandable;
    [| right; split; [| reflexivity];
       intros ? ? ? (_ & _ & lhs' & operator' & [= -> -> ->] & Hop & _);
       apply isExpandableCondition_true in Hop; congruence].
  all: destruct (collectFields conditionNode1 itemVariable []) as [fields |]
         eqn:Hfields;
    [| right; split; [| reflexivity];
       intros ? ? fields' (_ & _ & lhs' & operator' & [= -> -> ->] & _ & Hchain);
       assert (Hsome : collectFields lhs' itemVariable [] = Some (fields' ++ []))
         by (apply collectFields_chain; eauto);
       congruence].
  all: left; eexists _, conditionNode2, fields; split; cycle 1; [reflexivity |].
  all: split; [reflexivity |]; split; [split; eauto |].
  all: exists conditionNode1, operator; split; [reflexivity |].
  all: split; [now apply isExpandableCondition_true |].
  all: apply collectFields_chain in Hfields as (chain & Hchain & ->).
  all: now rewrite app_nil_r.
Qed.

End Quantifiers.

Section QuantifierLowering.
Context `{Imports}.






(** C2. When the array expansion does not apply, a QuantifierFilter node is
    lowered as the comparison of a count with the literal 0: the count of the
    list filtered by the condition, compared with [>] for [some] and with
    [==] for [none]; [every] is first turned into [none] of the negated
    condition. *)
Theorem quantifier_count_lowering listNode itemVariable quantifier conditionNode
    context st :
  (forall fieldNode rhs fields,
      ~ ArrayExpansionApplies quantifier (simplifyBooleans conditionNode) listNode
          itemVariable fieldNode rhs fields) ->
  let reducedCondition :=
    match quantifier with
    | every => not (simplifyBooleans conditionNode)
    | _ => simplifyBooleans conditionNode
    end in
  let filtered :=
    TransformListQueryNode listNode itemVariable reducedCondition [] 0 None
      (VariableQueryNode itemVariable) in
  let comparison := match quantifier with some => GREATER_THAN | _ => EQUAL end in
  let operator :=
    match quantifier with
    | some => aql.template [aql.code ">"]
    | _ => aql.template [aql.code "=="]
    end in
  (forall fuel,
      processNode (S fuel)
        (QuantifierFilterNode listNode itemVariable quantifier conditionNode)
        context st
      = processNode fuel
          (BinaryOperationQueryNode (CountQueryNode filtered) comparison
             (LiteralQueryNode (JNumber 0))) context st)
  /\ forall fuel count st',
      processNode fuel (CountQueryNode filtered) context st = Ok (count, st') ->
      processNode (S (S fuel))
        (QuantifierFilterNode listNode itemVariable quantifier conditionNode)
        context st
      = Ok (aql.template [aql.code "("; count; aql.code " "; operator;
                          aql.code " "; aql.value (JNumber 0); aql.code ")"], st').
Proof.
  intros Hnot reducedCondition filtered comparison operator.
  assert (Hreduce : forall fuel,
             processNode (S fuel)
               (QuantifierFilterNode listNode itemVariable quantifier conditionNode)
               context st
             = processNode fuel
                 (BinaryOperationQueryNode (CountQueryNode filtered) comparison
                    (LiteralQueryNode (JNumber 0))) context st).
  { intros fuel. rewrite processNode_S. cbn [processors].
    unfold processQuantifierFilter.
    destruct (arrayExpansion_cases (processNode fuel) quantifier
                (simplifyBooleans conditionNode) listNode itemVariable context st)
      as [(fieldNode & rhs & fields & Happlies & _) | [_ Hrun]];
      [now apply Hnot in Happlies |].
    rewrite (bind_Ok _ _ _ _ _ Hrun).
    subst filtered comparison reducedCondition. now destruct quantifier. }
  split; [exact Hreduce |].
  intros fuel count st' Hcount. rewrite Hreduce, processNode_S. cbn [processors].
  unfold processBinaryOperation. rewrite (bind_Ok _ _ _ _ _ Hcount).
  destruct (processNode_Ok_fuel _ _ _ _ _ Hcount) as [fuel' ->].
  subst comparison operator. now destruct quantifier.
Qed.

End QuantifierLowering.


(** Every item of the delivery has the item number [abc]: no item has
    another one. *)
Lemma quantifier_count_lowering_witness :
  processNode (H := SampleImports.imports) 9 Samples.everyItemIsAbc
    Samples.context Samples.store
  = processNode (H := SampleImports.imports) 8
      (BinaryOperationQueryNode
         (CountQueryNode
            (TransformListQueryNode Samples.items Samples.item
               (UnaryOperationQueryNode Samples.itemNumberIsAbc NOT) [] 0 None
               (VariableQueryNode Samples.item)))
         EQUAL (LiteralQueryNode (JNumber 0)))
      Samples.context Samples.store
  /\ exists count st',
      processNode (H := SampleImports.imports) 9 Samples.everyItemIsAbc
        Samples.context Samples.store
      = Ok (aql.template [aql.code "("; count; aql.code " ";
                          aql.template [aql.code "=="]; aql.code " ";
                          aql.value (JNumber 0); aql.code ")"], st').
Proof.
  assert (Hnot : forall fieldNode rhs fields,
             ~ ArrayExpansionApplies (H := SampleImports.imports) every
                 (SampleImports.simplifyBooleans Samples.itemNumberIsAbc)
                 Samples.items Samples.item fieldNode rhs fields)
    by (intros ? ? ? [Hsome _]; discriminate).
  destruct (quantifier_count_lowering (H := SampleImports.imports) Samples.items
              Samples.item every Samples.itemNumberIsAbc Samples.context
              Samples.store Hnot) as [Hreduce Hcount].
  split; [exact (Hreduce 8) |].
  assert (Hrun : exists count st',
             processNode (H := SampleImports.imports) 7
               (CountQueryNode
                  (TransformListQueryNode Samples.items Samples.item
                     (UnaryOperationQueryNode Samples.itemNumberIsAbc NOT) [] 0
                     None (VariableQueryNode Samples.item)))
               Samples.context Samples.store = Ok (count, st'))
    by (eexists _, _; vm_compute; reflexivity).
  destruct Hrun as (count & st' & Hrun).
  exists count, st'. exact (Hcount 7 count st' Hrun).
Defined.

(** ** Time to live *)

Section TimeToLiveProperties.
Context {generatorImports : Imports} {ttlImports : TTL.TTLImports}.

(** C9. The TTL filter is the conjunction of [dateField < deleteFrom] and
    [dateField > null]. Under a database in which AND is conjunction and
    nothing null is greater than null, an entity whose date field is null
    does not satisfy it. It is the filter of the list the cleanup query
    deletes from and of the two lists the TTL info counts: for a type that
    passes the three guards, each builder returns the node over this filter
    when [calcDeleteFrom] returns, and returns no other node. *)
Theorem ttl_filter_excludes_null fieldType path deleteFrom listItemVar :
  let dateField :=
    TTL.getScalarFilterValueNode
      (FieldPathQueryNode (VariableQueryNode listItemVar) path) fieldType in
  TTL.getTTLFilter fieldType path deleteFrom listItemVar
  = BinaryOperationQueryNode
      (BinaryOperationQueryNode dateField LESS_THAN
         (LiteralQueryNode (JString deleteFrom)))
      AND
      (BinaryOperationQueryNode dateField GREATER_THAN NullQueryNode)
  /\ (forall (Entity : Type) (satisfies isNull : Entity -> QueryNode -> bool),
        (forall entity a b,
            satisfies entity (BinaryOperationQueryNode a AND b)
            = satisfies entity a && satisfies entity b) ->
        (forall entity a,
            isNull entity a = true ->
            satisfies entity (BinaryOperationQueryNode a GREATER_THAN NullQueryNode)
            = false) ->
        forall entity,
          isNull entity dateField = true ->
          satisfies entity (TTL.getTTLFilter fieldType path deleteFrom listItemVar)
          = false)
  /\ (forall ttlType executionOptions listItemVarId rootEntityType,
        TTL.checkTTLType ttlType = inr (rootEntityType, path, fieldType) ->
        let itemVar :=
          mkVariable listItemVarId
            (Some (decapitalize (rootEntityType_name rootEntityType))) in
        let deletion deleteFrom' :=
          CountQueryNode
            (TTL.generateDeleteAllQueryNode rootEntityType
               (TransformListQueryNode (EntitiesQueryNode rootEntityType)
                  itemVar
                  (TTL.getTTLFilter fieldType path deleteFrom' itemVar)
                  [] 0 (TTL.timeToLiveCleanupLimit executionOptions)
                  (VariableQueryNode itemVar))) in
        (forall deleteFrom',
            TTL.calcDeleteFrom (TTL.expireAfterDays ttlType) (Some fieldType)
            = inr deleteFrom' ->
            TTL.getQueryNodeForTTLType ttlType executionOptions listItemVarId
            = inr (deletion deleteFrom'))
        /\ (forall node,
              TTL.getQueryNodeForTTLType ttlType executionOptions listItemVarId
              = inr node ->
              exists deleteFrom', node = deletion deleteFrom'))
  /\ (forall ttlType overdueDelta expiredVarId overdueVarId rootEntityType,
        TTL.checkTTLType ttlType = inr (rootEntityType, path, fieldType) ->
        let expired := mkVariable expiredVarId None in
        let overdue := mkVariable overdueVarId None in
        let counted itemVar deleteFrom' :=
          CountQueryNode
            (TransformListQueryNode (EntitiesQueryNode rootEntityType) itemVar
               (TTL.getTTLFilter fieldType path deleteFrom' itemVar)
               [] 0 None (VariableQueryNode itemVar)) in
        let info expiredFrom overdueFrom :=
          ObjectQueryNode
            [mkProperty "typeName"
               (LiteralQueryNode (JString (TTL.typeName (TTL.input ttlType))));
             mkProperty "path"
               (LiteralQueryNode (JString (TTL.dateField (TTL.input ttlType))));
             mkProperty "path"
               (LiteralQueryNode
                  (JNumber (TTL.config_expireAfterDays (TTL.input ttlType))));
             mkProperty "expiredObjectCount" (counted expired expiredFrom);
             mkProperty "overdueObjectCount" (counted overdue overdueFrom)] in
        (forall expiredFrom overdueFrom,
            TTL.calcDeleteFrom (TTL.expireAfterDays ttlType) (Some fieldType)
            = inr expiredFrom ->
            TTL.calcDeleteFrom (TTL.expireAfterDays ttlType + overdueDelta)
              (Some fieldType) = inr overdueFrom ->
            TTL.getTTLInfoQueryNode ttlType overdueDelta expiredVarId overdueVarId
            = inr (info expiredFrom overdueFrom))
        /\ (forall node,
              TTL.getTTLInfoQueryNode ttlType overdueDelta expiredVarId
                overdueVarId = inr node ->
              exists expiredFrom overdueFrom, node = info expiredFrom overdueFrom)).
Proof.
  intros dateField. split; [reflexivity |]. split; [| split].
  - intros Entity satisfies isNull Hand Hnull entity Hdate.
    unfold TTL.getTTLFilter. fold dateField.
    rewrite Hand, (Hnull _ _ Hdate). apply andb_false_r.
  - intros ttlType executionOptions listItemVarId rootEntityType Hvalid
      itemVar deletion.
    unfold TTL.getQueryNodeForTTLType. rewrite Hvalid.
    assert (Htype : TTL.ttl_fieldType ttlType = Some fieldType).
    { unfold TTL.checkTTLType in Hvalid.
      destruct (TTL.ttl_rootEntityType ttlType); [| discriminate].
      destruct (TTL.ttl_path ttlType) as [[|]|]; try discriminate.
      destruct (TTL.ttl_fieldType ttlType); [| discriminate]. congruence. }
    rewrite Htype. split.
    + intros deleteFrom' ->. reflexivity.
    + intros node.
      destruct (TTL.calcDeleteFrom _ _) as [e | deleteFrom']; [discriminate |].
      intros [= <-]. now exists deleteFrom'.
  - intros ttlType overdueDelta expiredVarId overdueVarId rootEntityType Hvalid
      expired overdue counted info.
    unfold TTL.getTTLInfoQueryNode. rewrite Hvalid.
    assert (Htype : TTL.ttl_fieldType ttlType = Some fieldType).
    { unfold TTL.checkTTLType in Hvalid.
      destruct (TTL.ttl_rootEntityType ttlType); [| discriminate].
      destruct (TTL.ttl_path ttlType) as [[|]|]; try discriminate.
      destruct (TTL.ttl_fieldType ttlType); [| discriminate]. congruence. }
    rewrite Htype. split.
    + intros expiredFrom overdueFrom -> ->. reflexivity.
    + intros node.
      destruct (TTL.calcDeleteFrom _ _) as [e | expiredFrom]; [discriminate |].
      destruct (TTL.calcDeleteFrom _ _) as [e | overdueFrom]; [discriminate |].
      intros [= <-]. now exists expiredFrom, overdueFrom.
Qed.

End TimeToLiveProperties.

(** A delivery without dispatch date does not pass the TTL filter; one
    dispatched long ago does. The cleanup query and the info query of the
    sample TTL type are built over this filter. *)
Lemma ttl_filter_excludes_null_witness :
  let filter :=
    TTL.getTTLFilter (ttlImports := SampleTTL.imports) (mkScalarType "OffsetDateTime")
      SampleTTL.dispatchDate "2026-10-04T00:00:00Z" in
  Database.satisfies SampleTTL.undated (filter Samples.delivery) = false
  /\ Database.satisfies SampleTTL.old (filter Samples.delivery) = true
  /\ TTL.getQueryNodeForTTLType (generatorImports := SampleImports.imports)
       (ttlImports := SampleTTL.imports) SampleTTL.deliveryTTL
       (TTL.mkExecutionOptions (Some 100%Z)) 0
     = inr (CountQueryNode
              (DeleteEntitiesQueryNode Samples.Delivery
                 (TransformListQueryNode (EntitiesQueryNode Samples.Delivery)
                    Samples.delivery (filter Samples.delivery) [] 0
                    (Some 100%Z) (VariableQueryNode Samples.delivery))))
  /\ exists typeName datePath days,
       TTL.getTTLInfoQueryNode (ttlImports := SampleTTL.imports)
         SampleTTL.deliveryTTL 3 10 11
       = inr (ObjectQueryNode
                [typeName; datePath; days;
                 mkProperty "expiredObjectCount"
                   (CountQueryNode
                      (TransformListQueryNode (EntitiesQueryNode Samples.Delivery)
                         (mkVariable 10 None) (filter (mkVariable 10 None)) [] 0
                         None (VariableQueryNode (mkVariable 10 None))));
                 mkProperty "overdueObjectCount"
                   (CountQueryNode
                      (TransformListQueryNode (EntitiesQueryNode Samples.Delivery)
                         (mkVariable 11 None) (filter (mkVariable 11 None)) [] 0
                         None (VariableQueryNode (mkVariable 11 None))))]).
Proof.
  intros filter.
  destruct (ttl_filter_excludes_null (generatorImports := SampleImports.imports)
              (ttlImports := SampleTTL.imports) (mkScalarType "OffsetDateTime")
              SampleTTL.dispatchDate "2026-10-04T00:00:00Z" Samples.delivery)
    as (_ & Hnull & Hdeletion & Hinfo).
  split; [| split; [reflexivity | split]].
  - apply (Hnull Database.Document Database.satisfies Database.isNull).
    + reflexivity.
    + intros entity a Ha. unfold Database.satisfies, Database.isNull in *. cbn.
      now destruct (Database.eval entity a).
    + reflexivity.
  - exact (proj1 (Hdeletion SampleTTL.deliveryTTL
                    (TTL.mkExecutionOptions (Some 100%Z)) 0 Samples.Delivery
                    eq_refl)
             "2026-10-04T00:00:00Z" eq_refl).
  - eexists _, _, _.
    exact (proj1 (Hinfo SampleTTL.deliveryTTL 3%Z 10 11 Samples.Delivery eq_refl)
             "2026-10-04T00:00:00Z" "2026-10-04T00:00:00Z" eq_refl eq_refl).
Defined.

(** With js-joda alone, a TTL type whose date field is a LocalDate passes
    the three guards, and both builders throw at [ZoneId.of]. *)
Example localDate_without_zone_rules :
  TTL.checkTTLType SampleTTL.localDateTTL
  = inr (Samples.Delivery, SampleTTL.dispatchDate, mkScalarType "LocalDate")
  /\ TTL.getQueryNodeForTTLType (generatorImports := SampleImports.imports)
       (ttlImports := SampleTTL.bareImports) SampleTTL.localDateTTL
       (TTL.mkExecutionOptions None) 0 = inl TTL.JodaException
  /\ TTL.getTTLInfoQueryNode (ttlImports := SampleTTL.bareImports)
       SampleTTL.localDateTTL 3 10 11 = inl TTL.JodaException
  /\ exists node,
       TTL.getQueryNodeForTTLType (generatorImports := SampleImports.imports)
         (ttlImports := SampleTTL.bareImports) SampleTTL.deliveryTTL
         (TTL.mkExecutionOptions None) 0 = inr node.
Proof. repeat split. eexists. reflexivity. Qed.

(** ** Collection access of the edge mutations *)

Lemma elem_of_setAdd x y s : y ∈ setAdd x s <-> y = x \/ y ∈ s.
Proof.
  unfold setAdd. case_bool_decide.
  - split; [auto | intros [-> | ?]; assumption].
  - rewrite elem_of_app, list_elem_of_singleton. tauto.
Qed.

Lemma setOf_added st r r' x :
  setOf (mkStore (arrays st) (<[r := setAdd x (setOf st r)]> (sets st))
           (nextRef st) (nextVariable st)) r'
  = if decide (r = r') then setAdd x (setOf st r) else setOf st r'.
Proof.
  unfold setOf at 1. cbn [sets]. rewrite lookup_insert.
  now destruct (decide (r = r')).
Qed.

Section EdgeCollections.
Context `{Imports}.

(** Taking the collection of a relation records the access in the set of
    its kind and changes nothing else in the store. *)
Lemma getCollectionForRelation_Ok relation accessType context st fragment st' :
  getCollectionForRelation relation accessType context st = Ok (fragment, st') ->
  let r := match accessType with
           | READ => readAccessedCollections context
           | WRITE => writeAccessedCollections context
           end in
  st' = mkStore (arrays st)
          (<[r := setAdd (getCollectionNameForRelation relation) (setOf st r)]>
             (sets st))
          (nextRef st) (nextVariable st).
Proof.
  unfold getCollectionForRelation. intros Hrun.
  apply bind_Ok_inv in Hrun as (u & st1 & Hadd & Hcollection).
  unfold addCollectionAccess in Hadd. injection Hadd as _ <-.
  unfold aqlM.collection in Hcollection.
  destruct (aql.isSafeIdentifier _); [| discriminate].
  apply ret_Ok_inv in Hcollection. now injection Hcollection as _ ->.
Qed.

Lemma getCollectionForRelation_WRITE relation context st fragment st' :
  getCollectionForRelation relation WRITE context st = Ok (fragment, st') ->
  getCollectionNameForRelation relation
  ∈ setOf st' (writeAccessedCollections context)
  /\ setOf st' (writeAccessedCollections context)
     = setAdd (getCollectionNameForRelation relation)
         (setOf st (writeAccessedCollections context))
  /\ (readAccessedCollections context <> writeAccessedCollections context ->
      setOf st' (readAccessedCollections context)
      = setOf st (readAccessedCollections context)).
Proof.
  intros Hrun. apply getCollectionForRelation_Ok in Hrun. cbn zeta in Hrun.
  subst st'. rewrite !setOf_added.
  destruct (decide (writeAccessedCollections context
                    = writeAccessedCollections context)); [| congruence].
  split; [apply elem_of_setAdd; now left |]. split; [reflexivity |].
  intros Hdistinct.
  destruct (decide (writeAccessedCollections context
                    = readAccessedCollections context)); congruence.
Qed.

(** C10. Lowering a RemoveEdges node puts the collection of the relation in
    the read set and in the write set of the context. Lowering an AddEdges or
    a SetEdge node puts it in the write set, and leaves the read set as the
    lowering of the edge identifiers left it. *)
Theorem edge_collection_access fuel relation context st fragment st' :
  let name := getCollectionNameForRelation relation in
  let readSet s := setOf s (readAccessedCollections context) in
  let writeSet s := setOf s (writeAccessedCollections context) in
  (forall edgeFilter,
      processNode (S fuel) (RemoveEdgesQueryNode relation edgeFilter) context st
      = Ok (fragment, st') ->
      name ∈ readSet st' /\ name ∈ writeSet st')
  /\ (forall edges,
        processNode (S fuel) (AddEdgesQueryNode relation edges) context st
        = Ok (fragment, st') ->
        exists edgeVar st0 edges' st1,
          aqlM.variable "edge" st = Ok (edgeVar, st0)
          /\ mapM_gen (fun edge => formatEdge (processNode fuel) relation edge context)
               edges st0 = Ok (edges', st1)
          /\ name ∈ writeSet st'
          /\ writeSet st' = setAdd name (writeSet st1)
          /\ (readAccessedCollections context <> writeAccessedCollections context ->
              readSet st' = readSet st1))
  /\ (forall existingEdge newEdge,
        processNode (S fuel) (SetEdgeQueryNode relation existingEdge newEdge)
          context st = Ok (fragment, st') ->
        exists edgeVar st0 existing st1 inserted st2 updated st3,
          aqlM.variable "edge" st = Ok (edgeVar, st0)
          /\ formatEdge (processNode fuel) relation existingEdge context st0
             = Ok (existing, st1)
          /\ formatEdge (processNode fuel) relation newEdge context st1
             = Ok (inserted, st2)
          /\ formatEdge (processNode fuel) relation newEdge context st2
             = Ok (updated, st3)
          /\ name ∈ writeSet st'
          /\ writeSet st' = setAdd name (writeSet st3)
          /\ (readAccessedCollections context <> writeAccessedCollections context ->
              readSet st' = readSet st3)).
Proof.
  intros name readSet writeSet. split; [| split].
  - intros edgeFilter Hrun. rewrite processNode_S in Hrun. cbn [processors] in Hrun.
    unfold processRemoveEdges in Hrun.
    apply bind_Ok_inv in Hrun as (edgeVar & s1 & _ & Hrun).
    apply bind_Ok_inv in Hrun as (fromVar & s2 & _ & Hrun).
    apply bind_Ok_inv in Hrun as (toVar & s3 & _ & Hrun).
    apply bind_Ok_inv in Hrun as (fromLoop & s4 & _ & Hrun).
    apply bind_Ok_inv in Hrun as (toLoop & s5 & _ & Hrun).
    apply bind_Ok_inv in Hrun as (readCollection & s6 & Hread & Hrun).
    apply bind_Ok_inv in Hrun as (writeCollection & s7 & Hwrite & Hrun).
    apply ret_Ok_inv in Hrun. injection Hrun as _ ->.
    apply getCollectionForRelation_Ok in Hread, Hwrite. cbn zeta in Hread, Hwrite.
    subst readSet writeSet. cbn beta. subst s7. rewrite !setOf_added.
    split.
    + destruct (decide _); [apply elem_of_setAdd; now left |].
      subst s6. rewrite setOf_added. destruct (decide _); [| congruence].
      apply elem_of_setAdd. now left.
    + destruct (decide _); [| congruence]. apply elem_of_setAdd. now left.
  - intros edges Hrun. rewrite processNode_S in Hrun. cbn [processors] in Hrun.
    unfold processAddEdges in Hrun.
    apply bind_Ok_inv in Hrun as (edgeVar & st0 & HedgeVar & Hrun).
    apply bind_Ok_inv in Hrun as (edges' & st1 & Hedges & Hrun).
    apply bind_Ok_inv in Hrun as (collection & st2 & Hwrite & Hrun).
    apply ret_Ok_inv in Hrun. injection Hrun as _ ->.
    exists edgeVar, st0, edges', st1.
    split; [exact HedgeVar |]. split; [exact Hedges |].
    now apply getCollectionForRelation_WRITE in Hwrite.
  - intros existingEdge newEdge Hrun. rewrite processNode_S in Hrun.
    cbn [processors] in Hrun. unfold processSetEdge in Hrun.
    apply bind_Ok_inv in Hrun as (edgeVar & st0 & HedgeVar & Hrun).
    apply bind_Ok_inv in Hrun as (existing & st1 & Hexisting & Hrun).
    apply bind_Ok_inv in Hrun as (inserted & st2 & Hinserted & Hrun).
    apply bind_Ok_inv in Hrun as (updated & st3 & Hupdated & Hrun).
    apply bind_Ok_inv in Hrun as (collection & st4 & Hwrite & Hrun).
    apply ret_Ok_inv in Hrun. injection Hrun as _ ->.
    exists edgeVar, st0, existing, st1, inserted, st2, updated, st3.
    split; [exact HedgeVar |]. split; [exact Hexisting |].
    split; [exact Hinserted |]. split; [exact Hupdated |].
    now apply getCollectionForRelation_WRITE in Hwrite.
Qed.

End EdgeCollections.

(** Removing edges reads and writes the edge collection; adding an edge
    between two known ids writes it and reads nothing; so does setting the
    edge of a delivery to another handling unit. *)
Lemma edge_collection_access_witness :
  (exists fragment st',
      processNode (H := SampleImports.imports) 2 Samples.removeHandlingUnits
        Samples.rootContext Samples.store = Ok (fragment, st')
      /\ "deliverys_handlingUnits" ∈ setOf st' 1
      /\ "deliverys_handlingUnits" ∈ setOf st' 2)
  /\ (exists fragment st',
        processNode (H := SampleImports.imports) 2 Samples.addHandlingUnit
          Samples.rootContext Samples.store = Ok (fragment, st')
        /\ setOf st' 1 = []
        /\ setOf st' 2 = ["deliverys_handlingUnits"])
  /\ exists fragment st',
      processNode (H := SampleImports.imports) 2 Samples.setHandlingUnit
        Samples.rootContext Samples.store = Ok (fragment, st')
      /\ setOf st' 1 = []
      /\ setOf st' 2 = ["deliverys_handlingUnits"].
Proof.
  split; [| split].
  - assert (Hrun : exists fragment st',
               processNode (H := SampleImports.imports) 2
                 Samples.removeHandlingUnits Samples.rootContext Samples.store
               = Ok (fragment, st'))
      by (eexists _, _; vm_compute; reflexivity).
    destruct Hrun as (fragment & st' & Hrun). exists fragment, st'.
    split; [exact Hrun |].
    destruct (edge_collection_access (H := SampleImports.imports) 1
                Samples.handlingUnits Samples.rootContext Samples.store fragment st')
      as [Hremove _].
    exact (Hremove _ Hrun).
  - assert (Hrun : exists fragment st',
               processNode (H := SampleImports.imports) 2 Samples.addHandlingUnit
                 Samples.rootContext Samples.store = Ok (fragment, st'))
      by (eexists _, _; vm_compute; reflexivity).
    destruct Hrun as (fragment & st' & Hrun). exists fragment, st'.
    split; [exact Hrun |].
    destruct (edge_collection_access (H := SampleImports.imports) 1
                Samples.handlingUnits Samples.rootContext Samples.store fragment st')
      as (_ & Hadd & _).
    destruct (Hadd _ Hrun)
      as (edgeVar & st0 & edges' & st1 & HedgeVar & Hedges & _ & Hwrite & Hread).
    vm_compute in HedgeVar. injection HedgeVar as <- <-.
    vm_compute in Hedges. injection Hedges as <- <-.
    split.
    + etransitivity; [apply Hread; discriminate | reflexivity].
    + etransitivity; [apply Hwrite | reflexivity].
  - assert (Hrun : exists fragment st',
               processNode (H := SampleImports.imports) 2 Samples.setHandlingUnit
                 Samples.rootContext Samples.store = Ok (fragment, st'))
      by (eexists _, _; vm_compute; reflexivity).
    destruct Hrun as (fragment & st' & Hrun). exists fragment, st'.
    split; [exact Hrun |].
    destruct (edge_collection_access (H := SampleImports.imports) 1
                Samples.handlingUnits Samples.rootContext Samples.store fragment st')
      as (_ & _ & Hset).
    destruct (Hset _ _ Hrun)
      as (edgeVar & st0 & existing & st1 & inserted & st2 & updated & st3
          & HedgeVar & Hexisting & Hinserted & Hupdated & _ & Hwrite & Hread).
    vm_compute in HedgeVar. injection HedgeVar as <- <-.
    vm_compute in Hexisting. injection Hexisting as <- <-.
    vm_compute in Hinserted. injection Hinserted as <- <-.
    vm_compute in Hupdated. injection Hupdated as <- <-.
    split.
    + etransitivity; [apply Hread; discriminate | reflexivity].
    + etransitivity; [apply Hwrite | reflexivity].
Defined.

(** ** Isolation of pre-execution queries *)

Section Clean.
Variable x : nat.

Lemma mentions_compound fragments :
  mentions x (AQLCompoundFragment fragments) = existsb (mentions x) fragments.
Proof. induction fragments as [| f rest IH]; [reflexivity |]. cbn in *. now rewrite IH. Qed.

Lemma clean_compound fragments :
  Forall (clean x) fragments -> clean x (AQLCompoundFragment fragments).
Proof.
  intros Hall. unfold clean. rewrite mentions_compound.
  induction Hall as [| f rest Hf _ IH]; [reflexivity |]. cbn. now rewrite Hf, IH.
Qed.

Lemma clean_template parts : Forall (clean x) parts -> clean x (aql.template parts).
Proof. apply clean_compound. Qed.

Lemma clean_concat parts : Forall (clean x) parts -> clean x (aql.concat parts).
Proof. apply clean_compound. Qed.

Lemma clean_code s : clean x (aql.code s).
Proof. reflexivity. Qed.

Lemma clean_value v : clean x (aql.value v).
Proof. reflexivity. Qed.

Lemma clean_empty : clean x aql.empty.
Proof. reflexivity. Qed.

Lemma clean_string s : clean x (aql.string s).
Proof. reflexivity. Qed.

Lemma clean_integer z : clean x (aql.integer z).
Proof. reflexivity. Qed.

Lemma clean_var v : aqlVarId v <> x -> clean x (aql.var v).
Proof. intros Hne. unfold clean. cbn. now apply Nat.eqb_neq. Qed.

Lemma clean_indent f : clean x f -> clean x (aql.indent f).
Proof. exact id. Qed.

Lemma Forall_intersperse (sep : AQLFragment) fragments :
  clean x sep -> Forall (clean x) fragments ->
  Forall (clean x) (aql.intersperse sep fragments).
Proof.
  intros Hsep Hall. induction Hall as [| f rest Hf Hrest IH]; [constructor |].
  cbn. destruct rest; [now constructor |]. now repeat constructor.
Qed.

Lemma clean_join fragments sep :
  Forall (clean x) fragments -> clean x sep -> clean x (aql.join fragments sep).
Proof. intros Hall Hsep. apply clean_compound. now apply Forall_intersperse. Qed.

Lemma clean_lines fragments :
  Forall (clean x) fragments -> clean x (aql.lines fragments).
Proof. intros Hall. now apply clean_join. Qed.

Lemma clean_parenthesizeList content :
  Forall (clean x) content -> clean x (aqlExt.parenthesizeList content).
Proof.
  intros Hall. apply clean_lines. repeat constructor. now apply clean_lines.
Qed.

Lemma clean_parenthesizeObject content :
  Forall (clean x) content -> clean x (aqlExt.parenthesizeObject content).
Proof.
  intros Hall. apply clean_template. repeat constructor.
  now apply clean_parenthesizeList.
Qed.

Lemma clean_getFieldAccessFragment field : clean x (getFieldAccessFragment field).
Proof. unfold getFieldAccessFragment. now destruct (aql.isSafeIdentifier _). Qed.

End Clean.

Create HintDb clean.
#[local] Hint Resolve clean_template clean_concat clean_code clean_value clean_empty
  clean_var clean_indent clean_join clean_lines clean_parenthesizeList
  clean_parenthesizeObject clean_getFieldAccessFragment clean_string
  clean_integer : clean.
#[local] Hint Constructors Forall : clean.

(** *** Rules for [preserves] *)

Section Preserves.
Variable x : nat.

Lemma preserves_ret {A} (a : A) (post : A -> Prop) :
  post a -> preserves x (ret a) post.
Proof. intros Hpost st result st' Hx [= <- <-]. now split. Qed.

Lemma preserves_throw {A} e (post : A -> Prop) : preserves x (throw e) post.
Proof. intros st result st' _ [=]. Qed.

Lemma preserves_outOfFuel {A} (post : A -> Prop) : preserves x outOfFuel post.
Proof. intros st result st' _ [=]. Qed.

Lemma preserves_bind {A B} (m : M A) (k : A -> M B) (mid : A -> Prop)
    (post : B -> Prop) :
  preserves x m mid ->
  (forall a, mid a -> preserves x (k a) post) ->
  preserves x (bind m k) post.
Proof.
  intros Hm Hk st result st' Hx Hrun.
  apply bind_Ok_inv in Hrun as (a & st1 & Hstep & Hrest).
  destruct (Hm _ _ _ Hx Hstep) as [Hx1 Hmid]. exact (Hk a Hmid _ _ _ Hx1 Hrest).
Qed.

Lemma preserves_weaken {A} (m : M A) (post post' : A -> Prop) :
  preserves x m post -> (forall a, post a -> post' a) -> preserves x m post'.
Proof.
  intros Hm Himpl st result st' Hx Hrun.
  destruct (Hm _ _ _ Hx Hrun) as [Hx' Hpost]. auto.
Qed.

Lemma preserves_mapM {A B} (f : A -> M B) (post : B -> Prop) l :
  (forall a, preserves x (f a) post) ->
  preserves x (mapM_gen f l) (Forall post).
Proof.
  intros Hf. induction l as [| a rest IH]; cbn [mapM_gen].
  - now apply preserves_ret.
  - eapply preserves_bind; [apply Hf |]. intros b Hb.
    eapply preserves_bind; [apply IH |]. intros bs Hbs.
    apply preserves_ret. now constructor.
Qed.

(** The operations on the store. *)

Lemma preserves_newAQLVariable label queryResult :
  preserves x (newAQLVariable label queryResult) (fun v => aqlVarId v <> x).
Proof. intros st result st' Hx [= <- <-]. cbn. split; lia. Qed.

Lemma preserves_variable label :
  preserves x (aqlM.variable label) (fun v => clean x (aql.var v)).
Proof.
  eapply preserves_weaken; [apply preserves_newAQLVariable |].
  intros v. apply clean_var.
Qed.

Lemma preserves_identifier name :
  preserves x (aqlM.identifier name) (clean x).
Proof.
  unfold aqlM.identifier. destruct (aql.isSafeIdentifier name).
  - now apply preserves_ret.
  - apply preserves_throw.
Qed.

Lemma preserves_collection name :
  preserves x (aqlM.collection name) (clean x).
Proof. apply preserves_identifier. Qed.

Lemma preserves_newQueryContext :
  preserves x newQueryContext (fun context => variableMap context = ∅).
Proof. intros st result st' Hx [= <- <-]. now split. Qed.

Lemma preserves_addCollectionAccess context collection accessType :
  preserves x (addCollectionAccess context collection accessType) (fun _ => True).
Proof. intros st result st' Hx [= <- <-]. now split. Qed.

Lemma preserves_pushPreExecQuery r q :
  preserves x (pushPreExecQuery r q) (fun _ => True).
Proof. intros st result st' Hx [= <- <-]. now split. Qed.

Lemma preserves_getReadAccessedCollections context :
  preserves x (getReadAccessedCollections context) (fun _ => True).
Proof. intros st result st' Hx [= <- <-]. now split. Qed.

Lemma preserves_getWriteAccessedCollections context :
  preserves x (getWriteAccessedCollections context) (fun _ => True).
Proof. intros st result st' Hx [= <- <-]. now split. Qed.

Lemma contextFree_insert context varNode aqlVar :
  contextFree x context -> aqlVarId aqlVar <> x ->
  forall preExec reads writes,
    contextFree x (mkContext (<[varNode := aqlVar]> (variableMap context))
                     preExec reads writes).
Proof.
  intros Hfree Hne preExec reads writes k a. cbn.
  destruct (decide (varNode = k)) as [-> | Hk].
  - rewrite lookup_insert_eq. now intros [= <-].
  - rewrite lookup_insert_ne by done. apply Hfree.
Qed.

Lemma preserves_newNestedContext context variableNode aqlVariable :
  contextFree x context -> aqlVarId aqlVariable <> x ->
  preserves x (newNestedContextWithNewVariable context variableNode aqlVariable)
    (contextFree x).
Proof.
  intros Hfree Hne. unfold newNestedContextWithNewVariable.
  destruct (variableMap context !! varId variableNode); [apply preserves_throw |].
  eapply preserves_bind; [apply preserves_newQueryContext |]. intros _ _.
  apply preserves_ret. now apply contextFree_insert.
Qed.

Lemma preserves_introduceVariable context variableNode :
  contextFree x context ->
  preserves x (introduceVariable context variableNode) (contextFree x).
Proof.
  intros Hfree. unfold introduceVariable.
  eapply preserves_bind; [apply preserves_newAQLVariable |]. intros v Hv.
  now apply preserves_newNestedContext.
Qed.

Lemma preserves_getVariable context variableNode :
  contextFree x context ->
  preserves x (getVariable context variableNode) (clean x).
Proof.
  intros Hfree. unfold getVariable.
  destruct (variableMap context !! varId variableNode) as [v |] eqn:Hv;
    [| apply preserves_throw].
  apply preserves_ret. apply clean_template. repeat constructor.
  apply clean_var. eapply Hfree, Hv.
Qed.

(** The context of a pre-execution query is free of every variable that is
    not a query-result variable of its parent. *)
Lemma preserves_newPreExecContext parent :
  (forall varNode aqlVar,
      variableMap parent !! varNode = Some aqlVar ->
      isQueryResult aqlVar = true -> aqlVarId aqlVar <> x) ->
  preserves x (newPreExecContext parent) (contextFree x).
Proof.
  intros Hresults st result st' Hx Hrun. unfold newPreExecContext in Hrun.
  apply bind_Ok_inv in Hrun as (c & s & Hnew & Hret).
  injection Hnew as <- <-. apply ret_Ok_inv in Hret. injection Hret as -> ->.
  split; [exact Hx |].
  intros varNode aqlVar Hlookup. cbn in Hlookup.
  apply queryResultVariables_lookup in Hlookup as [Hparent Hresult].
  eapply Hresults; eassumption.
Qed.

End Preserves.

(** *** The handlers keep fragments free of a variable the context is free of *)

Create HintDb preserves.
#[local] Hint Resolve preserves_getVariable preserves_introduceVariable
  preserves_variable preserves_identifier preserves_collection
  preserves_addCollectionAccess preserves_newAQLVariable
  preserves_getReadAccessedCollections preserves_getWriteAccessedCollections
  preserves_pushPreExecQuery : preserves.

(** One step of a derivation: the next operation by a known rule, a result by
    the lemmas on fragments, a case distinction on what is tested. *)
Ltac preserves_step :=
  lazymatch goal with
  | |- preserves _ (bind _ _) _ =>
      eapply preserves_bind; [solve [eauto 4 with preserves] | intros ? ?]
  | |- preserves _ (ret _) _ => apply preserves_ret; auto 40 with clean
  | |- preserves _ (throw _) _ => apply preserves_throw
  | |- preserves _ (match ?scrutinee with _ => _ end) _ => destruct scrutinee
  | |- preserves _ _ _ => solve [eauto 4 with preserves]
  end.

Section HandlersClean.
Context `{Imports}.
Variable x : nat.
Variable processNode : QueryNode -> QueryContext -> M AQLFragment.
Hypothesis processNode_clean :
  forall node context,
    contextFree x context -> preserves x (processNode node context) (clean x).

Lemma getFastStartsWithQuery_clean lhs rhsValue :
  clean x lhs -> clean x (getFastStartsWithQuery lhs rhsValue).
Proof. intros Hlhs. destruct rhsValue; cbn; auto 40 with clean. Qed.

Lemma getEqualsIgnoreCaseQuery_clean lhs rhsValue :
  clean x lhs -> clean x (getEqualsIgnoreCaseQuery lhs rhsValue).
Proof.
  intros Hlhs. unfold getEqualsIgnoreCaseQuery.
  destruct (isStringCaseInsensitive rhsValue); auto 40 with clean.
Qed.

Lemma getAQLOperator_clean operator op :
  getAQLOperator operator = Some op -> clean x op.
Proof. destruct operator; intros [= <-]; reflexivity. Qed.

Lemma limitClause_clean skip maxCount : clean x (limitClause skip maxCount).
Proof.
  unfold limitClause. destruct maxCount; [destruct (Z.eqb skip 0) |
                                          destruct (Z.ltb 0 skip)]; reflexivity.
Qed.

Lemma getFullIDFromKeyFragment_clean keyFragment rootEntityType :
  clean x keyFragment ->
  clean x (getFullIDFromKeyFragment keyFragment rootEntityType).
Proof. intros Hkey. unfold getFullIDFromKeyFragment. auto 40 with clean. Qed.

Lemma getFieldPathAccessFragment_clean path :
  preserves x (getFieldPathAccessFragment path) (clean x).
Proof.
  destruct path as [path |]; [| now apply preserves_ret].
  cbn. induction path as [| first rest IH]; cbn [getFieldPathAccessFragmentOf].
  - now apply preserves_ret.
  - preserves_step. eapply preserves_bind; [exact IH |]. intros more Hmore.
    preserves_step.
Qed.

Lemma getCollectionForType_clean type accessType context :
  preserves x (getCollectionForType type accessType context) (clean x).
Proof. unfold getCollectionForType. cbn zeta. repeat preserves_step. Qed.

Lemma getCollectionForRelation_clean relation accessType context :
  preserves x (getCollectionForRelation relation accessType context) (clean x).
Proof. unfold getCollectionForRelation. cbn zeta. repeat preserves_step. Qed.

#[local] Hint Resolve getFastStartsWithQuery_clean getEqualsIgnoreCaseQuery_clean
  limitClause_clean getFullIDFromKeyFragment_clean : clean.
#[local] Hint Resolve getFieldPathAccessFragment_clean getCollectionForType_clean
  getCollectionForRelation_clean processNode_clean : preserves.

Lemma processNodes_clean nodes context :
  contextFree x context ->
  preserves x (mapM_gen (fun node => processNode node context) nodes)
    (Forall (clean x)).
Proof. intros Hfree. apply preserves_mapM. intros node. now apply processNode_clean. Qed.

#[local] Hint Resolve processNodes_clean : preserves.

Lemma assignVariables_clean assignmentNodes :
  forall context variableAssignments,
    contextFree x context -> Forall (clean x) variableAssignments ->
    preserves x (assignVariables processNode assignmentNodes context
                   variableAssignments)
      (fun r => contextFree x r.1 /\ Forall (clean x) r.2).
Proof.
  induction assignmentNodes as [| assignmentNode rest IH];
    intros context variableAssignments Hfree Hlines; cbn [assignVariables].
  - now apply preserves_ret.
  - do 3 preserves_step. apply IH; [assumption |].
    apply Forall_app. split; [assumption |]. auto 40 with clean.
Qed.

Lemma createAQLCompoundQuery_clean node resultVariable resultValidator context :
  contextFree x context ->
  preserves x (createAQLCompoundQuery processNode node resultVariable
                 resultValidator context)
    (fun q => clean x (cq_aqlQuery q)).
Proof.
  intros Hfree. unfold createAQLCompoundQuery.
  eapply preserves_bind; [now apply assignVariables_clean |].
  intros assigned [Hfree' Hlines]. do 3 preserves_step.
  apply preserves_ret. cbn. apply clean_lines, Forall_app.
  split; [assumption |]. auto 40 with clean.
Qed.

Lemma addPreExecuteQuery_clean this preExecQuery resultVariable resultValidator :
  contextFree x this ->
  preserves x (addPreExecuteQuery processNode this preExecQuery resultVariable
                 resultValidator) (contextFree x).
Proof.
  intros Hfree. unfold addPreExecuteQuery.
  eapply preserves_bind with (mid := fun introduced => contextFree x introduced.2).
  { destruct resultVariable as [resultVariable |]; [| now apply preserves_ret].
    eapply preserves_bind; [apply preserves_newAQLVariable |]. intros resultVar Hvar.
    eapply preserves_bind; [now apply preserves_newNestedContext |].
    intros newContext HnewContext. now apply preserves_ret. }
  intros introduced Hintroduced.
  eapply preserves_bind.
  { apply preserves_newPreExecContext. intros varNode aqlVar Hlookup _.
    eapply Hfree, Hlookup. }
  intros preExecContext HpreExec.
  eapply preserves_bind; [now apply createAQLCompoundQuery_clean |].
  intros aqlQuery _. preserves_step. now apply preserves_ret.
Qed.

Lemma addPreExecuteQueries_clean preExecParms :
  forall currentContext,
    contextFree x currentContext ->
    preserves x (addPreExecuteQueries processNode preExecParms currentContext)
      (contextFree x).
Proof.
  induction preExecParms as [| preExecParm rest IH]; intros currentContext Hfree;
    cbn [addPreExecuteQueries].
  - now apply preserves_ret.
  - eapply preserves_bind; [now apply addPreExecuteQuery_clean |]. exact IH.
Qed.

Lemma getSimpleFollowEdgeFragment_clean relationSide sourceEntityNode context :
  contextFree x context ->
  preserves x (getSimpleFollowEdgeFragment processNode relationSide
                 sourceEntityNode context) (clean x).
Proof.
  intros Hfree. unfold getSimpleFollowEdgeFragment. cbn zeta.
  do 2 preserves_step. apply preserves_ret.
  destruct (isFromSide relationSide); auto 40 with clean.
Qed.

Lemma dirAQL_clean dir : clean x (dirAQL dir).
Proof. now destruct dir. Qed.

Lemma generateSortAQL_clean orderBy context :
  contextFree x context ->
  preserves x (generateSortAQL processNode orderBy context) (clean x).
Proof.
  intros Hfree. unfold generateSortAQL.
  destruct orderBy as [| clause rest]; [now apply preserves_ret |].
  eapply preserves_bind.
  { apply preserves_mapM with (post := clean x). intros cl.
    preserves_step. apply preserves_ret. pose proof (dirAQL_clean (direction cl)).
    auto 40 with clean. }
  intros clauses Hclauses. preserves_step.
Qed.

Lemma getFullIDFromKeyNode_clean node rootEntityType context :
  contextFree x context ->
  preserves x (getFullIDFromKeyNode processNode node rootEntityType context)
    (clean x).
Proof.
  intros Hfree. unfold getFullIDFromKeyNode.
  destruct node; repeat preserves_step.
Qed.

Lemma getFullIDsFromKeysNode_clean idsNode rootEntityType context :
  contextFree x context ->
  preserves x (getFullIDsFromKeysNode processNode idsNode rootEntityType context)
    (clean x).
Proof.
  intros Hfree. unfold getFullIDsFromKeysNode. cbn zeta.
  destruct idsNode; repeat preserves_step.
  eapply preserves_bind.
  { apply preserves_mapM with (post := clean x). intros idNode.
    now apply getFullIDFromKeyNode_clean. }
  intros idFragments HidFragments. preserves_step.
Qed.

Lemma formatEdge_clean relation edge context :
  contextFree x context ->
  preserves x (formatEdge processNode relation edge context) (clean x).
Proof.
  intros Hfree. unfold formatEdge.
  eapply preserves_bind with (mid := Forall (clean x)).
  { destruct (fromIDNode edge); [| now apply preserves_ret].
    eapply preserves_bind; [now apply getFullIDFromKeyNode_clean |].
    intros id Hid. preserves_step. }
  intros fromCondition HfromCondition.
  eapply preserves_bind with (mid := Forall (clean x)).
  { destruct (toIDNode edge); [| now apply preserves_ret].
    eapply preserves_bind; [now apply getFullIDFromKeyNode_clean |].
    intros id Hid. preserves_step. }
  intros toCondition HtoCondition.
  apply preserves_ret. apply clean_template. repeat constructor.
  apply clean_join; [| reflexivity]. apply Forall_app. now split.
Qed.

#[local] Hint Resolve getSimpleFollowEdgeFragment_clean generateSortAQL_clean
  getFullIDFromKeyNode_clean getFullIDsFromKeysNode_clean formatEdge_clean
  addPreExecuteQueries_clean : preserves.

Lemma processTransformList_clean listNode itemVariable filterNode orderBy skip
    maxCount innerNode context :
  contextFree x context ->
  preserves x (processTransformList processNode listNode itemVariable filterNode
                 orderBy skip maxCount innerNode context) (clean x).
Proof.
  intros Hfree. unfold processTransformList. cbn zeta.
  do 2 preserves_step.
  eapply preserves_bind
    with (mid := fun projection => contextFree x projection.1 /\ clean x projection.2).
  { destruct (useIndirectedProjection _ _ _ _).
    - do 2 preserves_step. now apply preserves_ret.
    - now apply preserves_ret. }
  intros projection [HprojectionContext HprojectionVar].
  eapply preserves_bind
    with (mid := fun listAndFilter => clean x listAndFilter.1 /\ clean x listAndFilter.2).
  { destruct listNode; preserves_step; apply preserves_ret; split;
      cbn [fst snd]; auto 40 with clean. }
  intros listAndFilter [Hlist Hdangling].
  eapply preserves_bind; [apply assignVariables_clean; [assumption | constructor] |].
  intros assigned [HassignedContext Hlines].
  eapply preserves_bind with (mid := clean x).
  { destruct (simplifyBooleans filterNode) as [| | | []| | | | | | | | | | | | | | | | | | | | | | | | | | | | | | | ];
      repeat preserves_step. }
  intros filterFragment HfilterFragment.
  do 2 preserves_step. apply preserves_ret. apply clean_parenthesizeList.
  repeat (apply Forall_cons; split; [auto 40 with clean |]).
  - destruct (useIndirectedProjection _ _ _ _); auto 40 with clean.
  - apply Forall_app. split; [assumption |]. auto 40 with clean.
Qed.

Lemma processBinaryOperation_clean lhsNode operator rhsNode context :
  contextFree x context ->
  preserves x (processBinaryOperation processNode lhsNode operator rhsNode context)
    (clean x).
Proof.
  intros Hfree. unfold processBinaryOperation. do 2 preserves_step.
  destruct (getAQLOperator operator) as [op |] eqn:Hop.
  - apply getAQLOperator_clean in Hop. preserves_step.
  - destruct operator; try discriminate; cbn zeta; repeat preserves_step.
Qed.

Lemma getQuantifierFilterUsingArrayExpansion_clean quantifier conditionNode
    listNode itemVariable context :
  contextFree x context ->
  preserves x (getQuantifierFilterUsingArrayExpansion processNode quantifier
                 conditionNode listNode itemVariable context)
    (fun fastFragment =>
       match fastFragment with
       | Some fragment => clean x fragment
       | None => True
       end).
Proof.
  intros Hfree.
  assert (Hskip : preserves x (ret (None : option AQLFragment))
                    (fun fastFragment =>
                       match fastFragment with
                       | Some fragment => clean x fragment
                       | None => True
                       end)) by now apply preserves_ret.
  unfold getQuantifierFilterUsingArrayExpansion.
  destruct quantifier; try exact Hskip. cbn zeta.
  destruct (match listNode with
            | SafeListQueryNode sourceNode => sourceNode
            | _ => listNode
            end); try exact Hskip.
  destruct conditionNode; try exact Hskip.
  destruct (isExpandableCondition _ _); try exact Hskip.
  destruct (collectFields _ _ _) as [fields |]; try exact Hskip.
  do 2 preserves_step. apply preserves_ret. apply clean_template.
  repeat constructor; auto with clean. apply clean_concat.
  apply Forall_map, Forall_forall. intros accessed _.
  apply clean_getFieldAccessFragment.
Qed.

Lemma processors_clean node context :
  contextFree x context ->
  preserves x (processors processNode node context) (clean x).
Proof.
  intros Hfree. destruct node; cbn [processors].
  - now apply preserves_ret.
  - now apply preserves_ret.
  - now apply preserves_ret.
  - apply preserves_ret. now destruct value.
  - now apply preserves_ret.
  - unfold processObject. destruct properties as [| p rest]; [now apply preserves_ret |].
    eapply preserves_bind.
    { apply preserves_mapM with (post := clean x). intros property.
      preserves_step. apply preserves_ret. unfold aqlExt.safeJSONKey.
      destruct (aql.isSafeIdentifier _); auto 40 with clean. }
    intros properties' Hproperties. preserves_step.
  - unfold processList. destruct itemNodes as [| itemNode rest];
      [now apply preserves_ret |].
    repeat preserves_step.
  - unfold processConcatLists. repeat preserves_step.
  - now apply preserves_getVariable.
  - unfold processVariableAssignment. repeat preserves_step.
  - unfold processWithPreExecution. repeat preserves_step.
  - unfold processEntityFromId. repeat preserves_step.
  - unfold processField. repeat preserves_step.
  - apply preserves_throw.
  - unfold processRootEntityID. repeat preserves_step.
  - unfold processQuickSearch. repeat preserves_step.
  - now apply processTransformList_clean.
  - unfold processCount. cbn zeta. destruct node; repeat preserves_step.
  - unfold processMergeObjects. repeat preserves_step.
  - unfold processFirstOfList. repeat preserves_step.
  - now apply processBinaryOperation_clean.
  - unfold processOperatorWithLanguage. repeat preserves_step.
  - unfold processUnaryOperation. repeat preserves_step.
  - unfold processConditional. repeat preserves_step.
  - unfold processTypeCheck. repeat preserves_step.
  - unfold processSafeList. repeat preserves_step.
  - unfold processQuantifierFilter. cbn zeta.
    eapply preserves_bind;
      [now apply getQuantifierFilterUsingArrayExpansion_clean |].
    intros [fastFragment |] Hfast; [now apply preserves_ret |].
    now apply processNode_clean.
  - now apply getCollectionForType_clean.
  - unfold processFollowEdge. repeat preserves_step.
  - unfold processCreateEntity. repeat preserves_step.
  - unfold processUpdateEntities. repeat preserves_step.
  - unfold processDeleteEntities. repeat preserves_step.
  - unfold processAddEdges.
    preserves_step.
    eapply preserves_bind.
    { apply preserves_mapM with (post := clean x). intros edge.
      now apply formatEdge_clean. }
    intros edges' Hedges. repeat preserves_step.
  - unfold processRemoveEdges. do 3 preserves_step. cbn zeta.
    eapply preserves_bind with (mid := clean x).
    { destruct (fromIDsNode edgeFilter); repeat preserves_step. }
    intros fromLoop HfromLoop.
    eapply preserves_bind with (mid := clean x).
    { destruct (toIDsNode edgeFilter); repeat preserves_step. }
    intros toLoop HtoLoop. do 2 preserves_step. apply preserves_ret.
    apply clean_parenthesizeList.
    repeat (apply Forall_cons; split; [auto 40 with clean |]);
      [| constructor].
    destruct (fromIDsNode edgeFilter), (toIDsNode edgeFilter); auto 40 with clean.
  - unfold processSetEdge. repeat preserves_step.
Qed.

End HandlersClean.

(** The lowering of a tree in a context that is free of a variable gives a
    fragment that is free of it. *)
Lemma processNode_clean_fuel `{Imports} x fuel :
  forall node context,
    contextFree x context -> preserves x (processNode fuel node context) (clean x).
Proof.
  induction fuel as [| fuel IH]; intros node context Hfree.
  - apply preserves_outOfFuel.
  - rewrite processNode_S. now apply processors_clean.
Qed.

(** *** Pre-execution queries *)

Lemma preserves_introduceResult x this (resultVariable : option VariableNode) :
  preserves x
    match resultVariable with
    | Some resultVariable =>
        resultVar <- newAQLVariable (varLabel resultVariable) true ;;
        newContext <- newNestedContextWithNewVariable this resultVariable resultVar ;;
        ret (Some resultVar, newContext)
    | None => ret (None, this)
    end
    (fun _ => True).
Proof.
  destruct resultVariable as [resultVariable |]; [| now apply preserves_ret].
  eapply preserves_bind; [apply preserves_newAQLVariable |]. intros resultVar _.
  eapply preserves_bind with (mid := fun _ => True); [| intros; now apply preserves_ret].
  unfold newNestedContextWithNewVariable.
  destruct (variableMap this !! varId resultVariable); [apply preserves_throw |].
  eapply preserves_bind; [apply preserves_newQueryContext |]. intros _ _.
  now apply preserves_ret.
Qed.

(** C5. The context made for a pre-execution query holds exactly the
    query-result bindings of its parent and shares the parent's read and
    write collection sets; a variable the parent binds to a transient
    variable does not resolve in it, one bound to a query result does; and
    whenever [addPreExecuteQuery] succeeds, the query it appended was
    compiled in such a context, and its text refers to no variable that
    existed before and is not a query-result variable of the parent, so to
    none of the parent's transient variables. *)
Theorem preExec_context_scope `{Imports} this st :
  exists preExecContext st',
    newPreExecContext this st = Ok (preExecContext, st')
    /\ IsPreExecContextOf this preExecContext
    /\ (forall variableNode bound st1,
          variableMap this !! varId variableNode = Some bound ->
          isQueryResult bound = false ->
          getVariable preExecContext variableNode st1
          = Throw (VariableNotIntroduced variableNode))
    /\ (forall variableNode bound st1,
          variableMap this !! varId variableNode = Some bound ->
          isQueryResult bound = true ->
          getVariable preExecContext variableNode st1
          = Ok (aql.template [aql.var bound], st1))
    /\ forall fuel preExecQuery resultVariable resultValidator newContext st2,
        addPreExecuteQuery (processNode fuel) this preExecQuery resultVariable
          resultValidator st = Ok (newContext, st2) ->
        exists resultVar context st0 aqlQuery st1,
          IsPreExecContextOf this context
          /\ createAQLCompoundQuery (processNode fuel) preExecQuery resultVar
               resultValidator context st0 = Ok (aqlQuery, st1)
          /\ arrayOf st2 (preExecQueries this)
             = arrayOf st1 (preExecQueries this) ++ [aqlQuery]
          /\ forall x,
              x < nextVariable st ->
              (forall varNode aqlVar,
                  variableMap this !! varNode = Some aqlVar ->
                  isQueryResult aqlVar = true -> aqlVarId aqlVar <> x) ->
              clean x (cq_aqlQuery aqlQuery).
Proof.
  destruct (newPreExecContext_Ok this st) as (preExecContext & st' & Hrun & Hpre).
  exists preExecContext, st'. split; [exact Hrun |]. split; [exact Hpre |].
  split; [| split].
  - intros variableNode bound st1. now apply preExecContext_hides_transient.
  - intros variableNode bound st1. now apply preExecContext_keeps_results.
  - intros fuel preExecQuery resultVariable resultValidator newContext st2 Hadd.
    unfold addPreExecuteQuery in Hadd.
    apply bind_Ok_inv in Hadd as (introduced & st0 & Hintroduced & Hadd).
    apply bind_Ok_inv in Hadd as (context & st0' & Hctx & Hadd).
    apply bind_Ok_inv in Hadd as (aqlQuery & st1 & Hcompile & Hadd).
    apply bind_Ok_inv in Hadd as (pushed & st1' & Hpush & Hadd).
    apply ret_Ok_inv in Hadd.
    destruct (newPreExecContext_Ok this st0) as (context' & st0'' & Hctx' & Hpre').
    rewrite Hctx' in Hctx. injection Hctx as -> ->.
    exists introduced.1, context, st0', aqlQuery, st1. split; [exact Hpre' |].
    split; [exact Hcompile |]. split.
    + unfold pushPreExecQuery in Hpush. injection Hpush as _ <-.
      injection Hadd as _ ->. unfold arrayOf at 1. cbn [arrays].
      now rewrite lookup_insert_eq.
    + intros x Hx Hresults.
      destruct (preserves_introduceResult x this resultVariable _ _ _ Hx Hintroduced)
        as [Hx0 _].
      destruct (preserves_newPreExecContext x this Hresults _ _ _ Hx0 Hctx')
        as [Hx1 Hfree].
      now destruct (createAQLCompoundQuery_clean x (processNode fuel)
                      (processNode_clean_fuel x fuel) preExecQuery introduced.1
                      resultValidator context Hfree _ _ _ Hx1 Hcompile).
Qed.

(** In the sample context, [delivery] is transient and [created] is the
    result of an earlier query: the first does not resolve in a pre-execution
    query, the second does, and the text of a pre-execution query that uses
    the second does not refer to the AQL variable of the first. *)
Lemma preExec_context_scope_witness :
  (exists preExecContext st',
      newPreExecContext Samples.context Samples.store = Ok (preExecContext, st')
      /\ getVariable preExecContext Samples.delivery st'
         = Throw (VariableNotIntroduced Samples.delivery)
      /\ getVariable preExecContext Samples.created st'
         = Ok (aql.template [aql.var Samples.createdVar], st'))
  /\ exists newContext st2 aqlQuery,
      addPreExecuteQuery (H := SampleImports.imports)
        (processNode (H := SampleImports.imports) 4) Samples.context
        Samples.copyCreated (Some Samples.copied) None Samples.store
      = Ok (newContext, st2)
      /\ last (arrayOf st2 (preExecQueries Samples.context)) = Some aqlQuery
      /\ clean (aqlVarId Samples.deliveryVar) (cq_aqlQuery aqlQuery).
Proof.
  destruct (preExec_context_scope (H := SampleImports.imports) Samples.context
              Samples.store)
    as (preExecContext & st' & Hrun & _ & Hhidden & Hkept & Hadd).
  split.
  - exists preExecContext, st'. split; [exact Hrun |]. split.
    + exact (Hhidden Samples.delivery Samples.deliveryVar st' eq_refl eq_refl).
    + exact (Hkept Samples.created Samples.createdVar st' eq_refl eq_refl).
  - assert (Hrun' : exists newContext st2,
               addPreExecuteQuery (H := SampleImports.imports)
                 (processNode (H := SampleImports.imports) 4) Samples.context
                 Samples.copyCreated (Some Samples.copied) None Samples.store
               = Ok (newContext, st2))
      by (eexists _, _; vm_compute; reflexivity).
    destruct Hrun' as (newContext & st2 & Hrun').
    destruct (Hadd 4 _ _ _ _ _ Hrun')
      as (resultVar & context & st0 & aqlQuery & st1 & _ & _ & Hpushed & Hclean).
    exists newContext, st2, aqlQuery. split; [exact Hrun' |]. split.
    + rewrite Hpushed. apply last_snoc.
    + apply Hclean; [cbn; lia |].
      intros varNode aqlVar Hlookup Hresult. unfold Samples.context in Hlookup.
      cbn [variableMap] in Hlookup.
      apply lookup_insert_Some in Hlookup as [[_ <-] | [_ Hlookup]];
        [discriminate |].
      apply lookup_insert_Some in Hlookup as [[_ <-] | [_ Hlookup]];
        [discriminate |].
      now rewrite lookup_empty in Hlookup.
Defined.

(** ** Runs of the generator on small trees *)

(** Counting the entities of a type: the length of the collection, which is
    read. *)
Example count_entities :
  exists st',
    processNode (H := SampleImports.imports) 2
      (CountQueryNode (EntitiesQueryNode Samples.Delivery))
      Samples.rootContext Samples.store
    = Ok (aql.template [aql.code "LENGTH("; aql.code "deliverys"; aql.code ")"], st')
    /\ setOf st' (readAccessedCollections Samples.rootContext) = ["deliverys"]
    /\ setOf st' (writeAccessedCollections Samples.rootContext) = [].
Proof. eexists. split; [vm_compute; reflexivity |]. split; reflexivity. Qed.

(** A LIKE with a simple prefix pattern: the range alone, no call of LIKE. *)
Example like_prefix :
  processNode (H := SampleImports.imports) 3
    (BinaryOperationQueryNode Samples.description LIKE
       (LiteralQueryNode (JString "prefix%")))
    Samples.context Samples.store
  = Ok (aql.template
          [aql.code "("; Samples.descriptionFrag; aql.code " >= UPPER(";
           aql.value (JString "prefix"); aql.code ") && "; Samples.descriptionFrag;
           aql.code " < LOWER("; aql.value (JString ("prefix" +:+ maxChar));
           aql.code "))"],
        Samples.store).
Proof. reflexivity. Qed.

(** A literal pattern without letters: an equality. *)
Example like_digits :
  processNode (H := SampleImports.imports) 3
    (BinaryOperationQueryNode Samples.description LIKE
       (LiteralQueryNode (JString "1000173")))
    Samples.context Samples.store
  = Ok (aql.template
          [aql.code "("; Samples.descriptionFrag; aql.code " == ";
           aql.value (JString "1000173"); aql.code ")"],
        Samples.store).
Proof. reflexivity. Qed.

(** A variable that was not introduced. *)
Example unbound_variable :
  processNode (H := SampleImports.imports) 3 Samples.itemNumber Samples.context
    Samples.store
  = Throw (VariableNotIntroduced Samples.item).
Proof. reflexivity. Qed.

(** The node of a field path has no handler. *)
Example unsupported_node :
  processNode (H := SampleImports.imports) 3
    (FieldPathQueryNode (VariableQueryNode Samples.delivery) SampleTTL.dispatchDate)
    Samples.context Samples.store
  = Throw UnsupportedQueryType.
Proof. reflexivity. Qed.

(** Creating a delivery before the main query, which returns its key: one
    pre-execution query, whose result is the variable the main query returns;
    the collection is written and nothing is read. *)
Example create_then_return :
  exists query st' created,
    getAQLQuery (H := SampleImports.imports) 4
      (WithPreExecutionQueryNode
         [mkPreExec (CreateEntityQueryNode Samples.Delivery (ObjectQueryNode []))
                    (Some Samples.created) None]
         (VariableQueryNode Samples.created))
      emptyStore = Ok (query, st')
    /\ cq_aqlQuery query
       = aql.lines [aql.template [aql.code "RETURN ";
                                  aql.template [aql.template [aql.var created]]]]
    /\ (exists preExecQuery,
           arrayOf st' (cq_preExecQueries query) = [preExecQuery]
           /\ cq_resultVar preExecQuery = Some created
           /\ cq_aqlQuery preExecQuery
              = aql.lines
                  [aql.template
                     [aql.code "RETURN ";
                      aqlExt.parenthesizeObject
                        [aql.template [aql.code "INSERT ";
                                       aql.template [aql.code "{}"];
                                       aql.code " IN "; aql.code "deliverys"];
                         aql.template [aql.code "RETURN NEW._key"]]]])
    /\ cq_readAccessedCollections query = []
    /\ cq_writeAccessedCollections query = ["deliverys"].
Proof.
  eexists _, _, _. split; [vm_compute; reflexivity |].
  split; [reflexivity |]. split; [| split; reflexivity].
  eexists. split; [reflexivity |]. split; reflexivity.
Qed.

(** ** The text of a compiled query *)

(** X1. The text of a query compiled by [getAQLQuery] refers to no AQL
    variable that existed before the call: every variable it mentions was
    created during this compilation. *)
Theorem getAQLQuery_closed `{Imports} fuel node st query st' x :
  getAQLQuery fuel node st = Ok (query, st') ->
  x < nextVariable st ->
  mentions x (cq_aqlQuery query) = false.
Proof.
  intros Hrun Hx.
  assert (Hgen : preserves x (getAQLQuery fuel node)
                   (fun q => clean x (cq_aqlQuery q))).
  { unfold getAQLQuery.
    eapply preserves_bind; [apply preserves_newAQLVariable |].
    intros resultVariable _.
    eapply preserves_bind; [apply preserves_newQueryContext |].
    intros context Hempty.
    apply createAQLCompoundQuery_clean; [apply processNode_clean_fuel |].
    intros varNode aqlVar Hlookup. rewrite Hempty in Hlookup.
    now rewrite lookup_empty in Hlookup. }
  exact (proj2 (Hgen _ _ _ Hx Hrun)).
Qed.

(** The first ten deliveries with a given number, compiled after two
    variables were created: neither occurs in the text. *)
Lemma getAQLQuery_closed_witness :
  exists query st',
    getAQLQuery (H := SampleImports.imports) 4 Samples.deliveriesByNumber
      Samples.store = Ok (query, st')
    /\ mentions 1 (cq_aqlQuery query) = false.
Proof.
  eexists _, _. split; [vm_compute; reflexivity |].
  eapply (getAQLQuery_closed (H := SampleImports.imports) 4
            Samples.deliveriesByNumber Samples.store);
    [vm_compute; reflexivity | cbn; lia].
Defined.

(** ** What a lowering leaves in the store *)

Section Grows.

Lemma storeGrows_refl st : storeGrows st st.
Proof. repeat split; reflexivity. Qed.

Lemma storeGrows_trans st1 st2 st3 :
  storeGrows st1 st2 -> storeGrows st2 st3 -> storeGrows st1 st3.
Proof.
  intros (Href & Hvar & Hold) (Href' & Hvar' & Hold').
  split; [lia |]. split; [lia |]. intros r Hr.
  destruct (Hold r Hr) as [Hsets Harrays].
  destruct (Hold' r ltac:(lia)) as [Hsets' Harrays'].
  split; etransitivity; eassumption.
Qed.

Lemma grows_ret {A} (a : A) : grows (ret a).
Proof. intros st result st' [= _ <-]. apply storeGrows_refl. Qed.

Lemma grows_throw {A} e : grows (throw e : M A).
Proof. intros st result st' [=]. Qed.

Lemma grows_outOfFuel {A} : grows (outOfFuel : M A).
Proof. intros st result st' [=]. Qed.

Lemma grows_bind {A B} (m : M A) (k : A -> M B) :
  grows m -> (forall a, grows (k a)) -> grows (bind m k).
Proof.
  intros Hm Hk st result st' Hrun.
  apply bind_Ok_inv in Hrun as (a & st1 & Hstep & Hrest).
  eapply storeGrows_trans; [exact (Hm _ _ _ Hstep) | exact (Hk _ _ _ _ Hrest)].
Qed.

Lemma grows_mapM {A B} (f : A -> M B) l :
  (forall a, grows (f a)) -> grows (mapM_gen f l).
Proof.
  intros Hf. induction l as [| a rest IH]; cbn [mapM_gen].
  - apply grows_ret.
  - apply grows_bind; [apply Hf |]. intros b.
    apply grows_bind; [apply IH |]. intros bs. apply grows_ret.
Qed.

Lemma grows_newAQLVariable label queryResult :
  grows (newAQLVariable label queryResult).
Proof.
  intros st result st' [= _ <-]. split; [reflexivity |]. split; [cbn; lia |].
  intros r _. split; reflexivity.
Qed.

Lemma grows_newQueryContext : grows newQueryContext.
Proof.
  intros st result st' [= _ <-]. split; [cbn; lia |]. split; [reflexivity |].
  intros r Hr. unfold setOf, arrayOf. cbn [sets arrays].
  rewrite !lookup_insert_ne by lia. split; reflexivity.
Qed.

Lemma setAdd_prefix x s : s `prefix_of` setAdd x s.
Proof.
  unfold setAdd. case_bool_decide; [reflexivity | now apply prefix_app_r].
Qed.

Lemma grows_addCollectionAccess context collection accessType :
  grows (addCollectionAccess context collection accessType).
Proof.
  intros st result st' [= _ <-]. split; [reflexivity |]. split; [reflexivity |].
  intros r _. split; [| reflexivity].
  rewrite setOf_added. destruct (decide _) as [<- |]; [| reflexivity].
  apply setAdd_prefix.
Qed.

Lemma grows_pushPreExecQuery r q : grows (pushPreExecQuery r q).
Proof.
  intros st result st' [= _ <-]. split; [reflexivity |]. split; [reflexivity |].
  intros r' _. split; [reflexivity |]. unfold arrayOf at 2. cbn [arrays].
  destruct (decide (r = r')) as [<- | Hne].
  - rewrite lookup_insert_eq. cbn. now apply prefix_app_r.
  - now rewrite lookup_insert_ne.
Qed.

Lemma grows_getReadAccessedCollections context :
  grows (getReadAccessedCollections context).
Proof. intros st result st' [= _ <-]. apply storeGrows_refl. Qed.

Lemma grows_getWriteAccessedCollections context :
  grows (getWriteAccessedCollections context).
Proof. intros st result st' [= _ <-]. apply storeGrows_refl. Qed.

Lemma grows_identifier name : grows (aqlM.identifier name).
Proof.
  unfold aqlM.identifier. destruct (aql.isSafeIdentifier name);
    [apply grows_ret | apply grows_throw].
Qed.

Lemma grows_newNestedContext context variableNode aqlVariable :
  grows (newNestedContextWithNewVariable context variableNode aqlVariable).
Proof.
  unfold newNestedContextWithNewVariable.
  destruct (variableMap context !! varId variableNode); [apply grows_throw |].
  apply grows_bind; [apply grows_newQueryContext |]. intros _. apply grows_ret.
Qed.

Lemma grows_introduceVariable context variableNode :
  grows (introduceVariable context variableNode).
Proof.
  unfold introduceVariable.
  apply grows_bind; [apply grows_newAQLVariable |]. intros v.
  apply grows_newNestedContext.
Qed.

Lemma grows_getVariable context variableNode :
  grows (getVariable context variableNode).
Proof.
  unfold getVariable.
  destruct (variableMap context !! varId variableNode);
    [apply grows_ret | apply grows_throw].
Qed.

Lemma grows_newPreExecContext parent : grows (newPreExecContext parent).
Proof.
  unfold newPreExecContext.
  apply grows_bind; [apply grows_newQueryContext |]. intros c. apply grows_ret.
Qed.

End Grows.

Create HintDb grows.
#[local] Hint Resolve grows_newAQLVariable grows_newQueryContext
  grows_addCollectionAccess grows_pushPreExecQuery
  grows_getReadAccessedCollections grows_getWriteAccessedCollections
  grows_identifier grows_newNestedContext grows_introduceVariable
  grows_getVariable grows_newPreExecContext : grows.

(** One step of a derivation of [grows]: through a sequence, a loop or a
    case distinction, down to the operations on the store. *)
Ltac grows_step :=
  lazymatch goal with
  | |- grows (bind _ _) => apply grows_bind; [| intros ?]
  | |- grows (ret _) => apply grows_ret
  | |- grows (throw _) => apply grows_throw
  | |- grows (mapM_gen _ _) => apply grows_mapM; intros ?
  | |- grows (match ?scrutinee with _ => _ end) => destruct scrutinee
  | |- grows _ => solve [eauto 3 with grows]
  end.

Section HandlersGrow.
Context `{Imports}.
Variable processNode : QueryNode -> QueryContext -> M AQLFragment.
Hypothesis processNode_grows : forall node context, grows (processNode node context).

Lemma grows_variable label : grows (aqlM.variable label).
Proof. apply grows_newAQLVariable. Qed.

Lemma grows_collection name : grows (aqlM.collection name).
Proof. apply grows_identifier. Qed.

Lemma getFieldPathAccessFragment_grows path : grows (getFieldPathAccessFragment path).
Proof.
  destruct path as [path |]; [| apply grows_ret]. cbn.
  induction path as [| first rest IH]; cbn [getFieldPathAccessFragmentOf];
    repeat grows_step.
Qed.

Lemma getCollectionForType_grows type accessType context :
  grows (getCollectionForType type accessType context).
Proof. unfold getCollectionForType. cbn zeta. repeat grows_step. Qed.

Lemma getCollectionForRelation_grows relation accessType context :
  grows (getCollectionForRelation relation accessType context).
Proof.
  unfold getCollectionForRelation. cbn zeta. repeat grows_step.
Qed.

#[local] Hint Resolve processNode_grows grows_variable grows_collection
  getFieldPathAccessFragment_grows getCollectionForType_grows
  getCollectionForRelation_grows : grows.

Lemma assignVariables_grows assignmentNodes :
  forall context variableAssignments,
    grows (assignVariables processNode assignmentNodes context variableAssignments).
Proof.
  induction assignmentNodes as [| assignmentNode rest IH];
    intros context variableAssignments; cbn [assignVariables]; repeat grows_step.
Qed.

#[local] Hint Resolve assignVariables_grows : grows.

Lemma createAQLCompoundQuery_grows node resultVariable resultValidator context :
  grows (createAQLCompoundQuery processNode node resultVariable resultValidator
           context).
Proof. unfold createAQLCompoundQuery. cbn zeta. repeat grows_step. Qed.

#[local] Hint Resolve createAQLCompoundQuery_grows : grows.

Lemma addPreExecuteQuery_grows this preExecQuery resultVariable resultValidator :
  grows (addPreExecuteQuery processNode this preExecQuery resultVariable
           resultValidator).
Proof. unfold addPreExecuteQuery. repeat grows_step. Qed.

Lemma addPreExecuteQueries_grows preExecParms :
  forall currentContext,
    grows (addPreExecuteQueries processNode preExecParms currentContext).
Proof.
  induction preExecParms as [| preExecParm rest IH]; intros currentContext;
    cbn [addPreExecuteQueries]; repeat grows_step.
  apply addPreExecuteQuery_grows.
Qed.

Lemma getSimpleFollowEdgeFragment_grows relationSide sourceEntityNode context :
  grows (getSimpleFollowEdgeFragment processNode relationSide sourceEntityNode
           context).
Proof. unfold getSimpleFollowEdgeFragment. cbn zeta. repeat grows_step. Qed.

Lemma generateSortAQL_grows orderBy context :
  grows (generateSortAQL processNode orderBy context).
Proof. unfold generateSortAQL. repeat grows_step. Qed.

Lemma getFullIDFromKeyNode_grows node rootEntityType context :
  grows (getFullIDFromKeyNode processNode node rootEntityType context).
Proof. unfold getFullIDFromKeyNode. repeat grows_step. Qed.

#[local] Hint Resolve addPreExecuteQueries_grows getSimpleFollowEdgeFragment_grows
  generateSortAQL_grows getFullIDFromKeyNode_grows : grows.

Lemma getFullIDsFromKeysNode_grows idsNode rootEntityType context :
  grows (getFullIDsFromKeysNode processNode idsNode rootEntityType context).
Proof. unfold getFullIDsFromKeysNode. cbn zeta. repeat grows_step. Qed.

Lemma formatEdge_grows relation edge context :
  grows (formatEdge processNode relation edge context).
Proof. unfold formatEdge. repeat grows_step. Qed.

#[local] Hint Resolve getFullIDsFromKeysNode_grows formatEdge_grows : grows.

Lemma processTransformList_grows listNode itemVariable filterNode orderBy skip
    maxCount innerNode context :
  grows (processTransformList processNode listNode itemVariable filterNode
           orderBy skip maxCount innerNode context).
Proof. unfold processTransformList. cbn zeta. repeat grows_step. Qed.

Lemma processBinaryOperation_grows lhsNode operator rhsNode context :
  grows (processBinaryOperation processNode lhsNode operator rhsNode context).
Proof. unfold processBinaryOperation. cbn zeta. repeat grows_step. Qed.

Lemma getQuantifierFilterUsingArrayExpansion_grows quantifier conditionNode
    listNode itemVariable context :
  grows (getQuantifierFilterUsingArrayExpansion processNode quantifier
           conditionNode listNode itemVariable context).
Proof.
  unfold getQuantifierFilterUsingArrayExpansion. cbn zeta. repeat grows_step.
Qed.

#[local] Hint Resolve processTransformList_grows processBinaryOperation_grows
  getQuantifierFilterUsingArrayExpansion_grows : grows.

Lemma processors_grows node context : grows (processors processNode node context).
Proof.
  destruct node; cbn [processors];
    unfold processObject, processList, processConcatLists, processMergeObjects,
      processVariableAssignment, processWithPreExecution, processEntityFromId,
      processField, processRootEntityID, processQuickSearch, processCount,
      processFirstOfList, processOperatorWithLanguage, processUnaryOperation,
      processConditional, processTypeCheck, processSafeList,
      processQuantifierFilter, processEntities, processFollowEdge,
      processCreateEntity, processUpdateEntities, processDeleteEntities,
      processAddEdges, processRemoveEdges, processSetEdge;
    cbn zeta; repeat grows_step.
Qed.

End HandlersGrow.

Lemma processNode_grows_fuel `{Imports} fuel :
  forall node context, grows (processNode fuel node context).
Proof.
  induction fuel as [| fuel IH]; intros node context.
  - apply grows_outOfFuel.
  - rewrite processNode_S. now apply processors_grows.
Qed.

(** ** More fuel does not change a lowering *)

Section Refines.

Lemma refines_refl {A} (m : M A) : refines m m.
Proof. intros st. now right. Qed.

Lemma refines_bind {A B} (m m' : M A) (k k' : A -> M B) :
  refines m m' -> (forall a, refines (k a) (k' a)) ->
  refines (bind m k) (bind m' k').
Proof.
  intros Hm Hk st. unfold bind. destruct (Hm st) as [Hout | Hsame].
  - left. now rewrite Hout.
  - rewrite Hsame. destruct (m st) as [[a st1] | e |]; [apply Hk | | ]; now right.
Qed.

Lemma refines_mapM {A B} (f f' : A -> M B) l :
  (forall a, refines (f a) (f' a)) -> refines (mapM_gen f l) (mapM_gen f' l).
Proof.
  intros Hf. induction l as [| a rest IH]; cbn [mapM_gen].
  - apply refines_refl.
  - apply refines_bind; [apply Hf |]. intros b.
    apply refines_bind; [apply IH |]. intros bs. apply refines_refl.
Qed.

End Refines.

Create HintDb refines.

(** One step of a derivation of [refines] between two runs of the same
    handler over two versions of the function it calls. *)
Ltac refines_step :=
  lazymatch goal with
  | |- refines (bind _ _) (bind _ _) => apply refines_bind; [| intros ?]
  | |- refines (mapM_gen _ _) (mapM_gen _ _) => apply refines_mapM; intros ?
  | |- refines (match ?scrutinee with _ => _ end)
               (match ?scrutinee with _ => _ end) => destruct scrutinee
  | |- refines _ _ => solve [apply refines_refl | eauto 3 with refines]
  end.

Section HandlersRefine.
Context `{Imports}.
Variables processNode processNode' : QueryNode -> QueryContext -> M AQLFragment.
Hypothesis processNode_refines :
  forall node context, refines (processNode node context) (processNode' node context).

#[local] Hint Resolve processNode_refines : refines.

Lemma assignVariables_refines assignmentNodes :
  forall context variableAssignments,
    refines (assignVariables processNode assignmentNodes context variableAssignments)
      (assignVariables processNode' assignmentNodes context variableAssignments).
Proof.
  induction assignmentNodes as [| assignmentNode rest IH];
    intros context variableAssignments; cbn [assignVariables]; repeat refines_step.
Qed.

#[local] Hint Resolve assignVariables_refines : refines.

Lemma createAQLCompoundQuery_refines node resultVariable resultValidator context :
  refines
    (createAQLCompoundQuery processNode node resultVariable resultValidator context)
    (createAQLCompoundQuery processNode' node resultVariable resultValidator context).
Proof. unfold createAQLCompoundQuery. cbn zeta. repeat refines_step. Qed.

#[local] Hint Resolve createAQLCompoundQuery_refines : refines.

Lemma addPreExecuteQuery_refines this preExecQuery resultVariable resultValidator :
  refines
    (addPreExecuteQuery processNode this preExecQuery resultVariable resultValidator)
    (addPreExecuteQuery processNode' this preExecQuery resultVariable resultValidator).
Proof. unfold addPreExecuteQuery. repeat refines_step. Qed.

Lemma addPreExecuteQueries_refines preExecParms :
  forall currentContext,
    refines (addPreExecuteQueries processNode preExecParms currentContext)
      (addPreExecuteQueries processNode' preExecParms currentContext).
Proof.
  induction preExecParms as [| preExecParm rest IH]; intros currentContext;
    cbn [addPreExecuteQueries]; repeat refines_step.
  apply addPreExecuteQuery_refines.
Qed.

Lemma getSimpleFollowEdgeFragment_refines relationSide sourceEntityNode context :
  refines
    (getSimpleFollowEdgeFragment processNode relationSide sourceEntityNode context)
    (getSimpleFollowEdgeFragment processNode' relationSide sourceEntityNode context).
Proof. unfold getSimpleFollowEdgeFragment. cbn zeta. repeat refines_step. Qed.

Lemma generateSortAQL_refines orderBy context :
  refines (generateSortAQL processNode orderBy context)
    (generateSortAQL processNode' orderBy context).
Proof. unfold generateSortAQL. repeat refines_step. Qed.

Lemma getFullIDFromKeyNode_refines node rootEntityType context :
  refines (getFullIDFromKeyNode processNode node rootEntityType context)
    (getFullIDFromKeyNode processNode' node rootEntityType context).
Proof. unfold getFullIDFromKeyNode. repeat refines_step. Qed.

#[local] Hint Resolve addPreExecuteQueries_refines
  getSimpleFollowEdgeFragment_refines generateSortAQL_refines
  getFullIDFromKeyNode_refines : refines.

Lemma getFullIDsFromKeysNode_refines idsNode rootEntityType context :
  refines (getFullIDsFromKeysNode processNode idsNode rootEntityType context)
    (getFullIDsFromKeysNode processNode' idsNode rootEntityType context).
Proof. unfold getFullIDsFromKeysNode. cbn zeta. repeat refines_step. Qed.

Lemma formatEdge_refines relation edge context :
  refines (formatEdge processNode relation edge context)
    (formatEdge processNode' relation edge context).
Proof. unfold formatEdge. repeat refines_step. Qed.

#[local] Hint Resolve getFullIDsFromKeysNode_refines formatEdge_refines : refines.

Lemma processTransformList_refines listNode itemVariable filterNode orderBy skip
    maxCount innerNode context :
  refines
    (processTransformList processNode listNode itemVariable filterNode orderBy
       skip maxCount innerNode context)
    (processTransformList processNode' listNode itemVariable filterNode orderBy
       skip maxCount innerNode context).
Proof. unfold processTransformList. cbn zeta. repeat refines_step. Qed.

Lemma processBinaryOperation_refines lhsNode operator rhsNode context :
  refines (processBinaryOperation processNode lhsNode operator rhsNode context)
    (processBinaryOperation processNode' lhsNode operator rhsNode context).
Proof. unfold processBinaryOperation. cbn zeta. repeat refines_step. Qed.

Lemma getQuantifierFilterUsingArrayExpansion_refines quantifier conditionNode
    listNode itemVariable context :
  refines
    (getQuantifierFilterUsingArrayExpansion processNode quantifier conditionNode
       listNode itemVariable context)
    (getQuantifierFilterUsingArrayExpansion processNode' quantifier conditionNode
       listNode itemVariable context).
Proof.
  unfold getQuantifierFilterUsingArrayExpansion. cbn zeta. repeat refines_step.
Qed.

#[local] Hint Resolve processTransformList_refines processBinaryOperation_refines
  getQuantifierFilterUsingArrayExpansion_refines : refines.

Lemma processors_refines node context :
  refines (processors processNode node context) (processors processNode' node context).
Proof.
  destruct node; cbn [processors];
    unfold processObject, processList, processConcatLists, processMergeObjects,
      processVariableAssignment, processWithPreExecution, processEntityFromId,
      processField, processRootEntityID, processQuickSearch, processCount,
      processFirstOfList, processOperatorWithLanguage, processUnaryOperation,
      processConditional, processTypeCheck, processSafeList,
      processQuantifierFilter, processEntities, processFollowEdge,
      processCreateEntity, processUpdateEntities, processDeleteEntities,
      processAddEdges, processRemoveEdges, processSetEdge;
    cbn zeta; repeat refines_step.
Qed.

End HandlersRefine.

Lemma processNode_fuel_S `{Imports} fuel :
  forall node context,
    refines (processNode fuel node context) (processNode (S fuel) node context).
Proof.
  induction fuel as [| fuel IH]; intros node context.
  - intros st. now left.
  - rewrite (processNode_S (S fuel)), (processNode_S fuel).
    now apply processors_refines.
Qed.

(** A lowering that ends with some fuel ends the same way with more. *)
Lemma processNode_fuel_le `{Imports} fuel fuel' node context st :
  fuel <= fuel' ->
  processNode fuel node context st <> OutOfFuel ->
  processNode fuel' node context st = processNode fuel node context st.
Proof.
  intros Hle Hends. induction Hle as [| fuel' Hle IH]; [reflexivity |].
  destruct (processNode_fuel_S fuel' node context st) as [Hout | Hsame];
    congruence.
Qed.

(** ** Collection accesses and pre-execution queries are never lost *)

(** X2. Lowering a node never removes a recorded collection access nor a
    registered pre-execution query, and never reuses a variable or an object:
    the counters do not go back, and every set and every array that existed
    before the call holds afterwards what it held, followed by what was
    added. *)
Theorem lowering_keeps_store `{Imports} fuel node context st fragment st' :
  processNode fuel node context st = Ok (fragment, st') ->
  nextRef st <= nextRef st'
  /\ nextVariable st <= nextVariable st'
  /\ forall r, r < nextRef st ->
       (exists added, setOf st' r = setOf st r ++ added)
       /\ (exists added, arrayOf st' r = arrayOf st r ++ added).
Proof. intros Hrun. exact (processNode_grows_fuel fuel node context _ _ _ Hrun). Qed.

(** Removing edges in a store whose read set already holds a collection:
    the collection is still first in the set. *)
Lemma lowering_keeps_store_witness :
  let st := mkStore (<[0 := []]> ∅) (<[2 := []]> (<[1 := ["forwarders"]]> ∅)) 3 2 in
  exists fragment st',
    processNode (H := SampleImports.imports) 2 Samples.removeHandlingUnits
      Samples.rootContext st = Ok (fragment, st')
    /\ exists added, setOf st' 1 = "forwarders" :: added.
Proof.
  intros st. eexists _, _. split; [vm_compute; reflexivity |].
  destruct (lowering_keeps_store (H := SampleImports.imports) 2
              Samples.removeHandlingUnits Samples.rootContext st _ _
              ltac:(vm_compute; reflexivity)) as (_ & _ & Hold).
  exact (proj1 (Hold 1 ltac:(cbn; lia))).
Defined.

(** ** Collection access of reads and of entity mutations *)

Section EntityCollections.
Context `{Imports}.

Lemma getCollectionForType_records type accessType context st fragment st' :
  getCollectionForType type accessType context st = Ok (fragment, st') ->
  getCollectionNameForRootEntity type
  ∈ setOf st' match accessType with
              | READ => readAccessedCollections context
              | WRITE => writeAccessedCollections context
              end.
Proof.
  unfold getCollectionForType. intros Hrun.
  apply bind_Ok_inv in Hrun as (u & st1 & Hadd & Hcollection).
  unfold addCollectionAccess in Hadd. injection Hadd as _ <-.
  unfold aqlM.collection in Hcollection.
  destruct (aql.isSafeIdentifier _); [| discriminate].
  apply ret_Ok_inv in Hcollection. injection Hcollection as _ ->.
  rewrite setOf_added. destruct (decide _); [| congruence].
  apply elem_of_setAdd. now left.
Qed.

Lemma getCollectionForRelation_records relation accessType context st fragment st' :
  getCollectionForRelation relation accessType context st = Ok (fragment, st') ->
  getCollectionNameForRelation relation
  ∈ setOf st' match accessType with
              | READ => readAccessedCollections context
              | WRITE => writeAccessedCollections context
              end.
Proof.
  intros Hrun. apply getCollectionForRelation_Ok in Hrun. cbn zeta in Hrun.
  subst st'. rewrite setOf_added. destruct (decide _); [| congruence].
  apply elem_of_setAdd. now left.
Qed.

(** X3. Lowering an Entities or an EntityFromId node of a type puts the
    collection of the type in the read set of the context; lowering a
    CreateEntity, an UpdateEntities or a DeleteEntities node puts it in the
    write set; lowering a FollowEdge node puts the edge collection of the
    relation in the read set. (For EntityFromId the access is recorded before
    the id is lowered: the set of the context has to be an object of the
    store.) *)
Theorem entity_collection_access fuel rootEntityType context st fragment st' :
  let name := getCollectionNameForRootEntity rootEntityType in
  let readSet := setOf st' (readAccessedCollections context) in
  let writeSet := setOf st' (writeAccessedCollections context) in
  (processNode fuel (EntitiesQueryNode rootEntityType) context st
   = Ok (fragment, st') -> name ∈ readSet)
  /\ (forall idNode,
        readAccessedCollections context < nextRef st ->
        processNode fuel (EntityFromIdQueryNode rootEntityType idNode) context st
        = Ok (fragment, st') -> name ∈ readSet)
  /\ (forall objectNode,
        processNode fuel (CreateEntityQueryNode rootEntityType objectNode)
          context st = Ok (fragment, st') -> name ∈ writeSet)
  /\ (forall listNode updates currentEntityVariable,
        processNode fuel
          (UpdateEntitiesQueryNode rootEntityType listNode updates
             currentEntityVariable) context st = Ok (fragment, st') ->
        name ∈ writeSet)
  /\ (forall listNode,
        processNode fuel (DeleteEntitiesQueryNode rootEntityType listNode)
          context st = Ok (fragment, st') -> name ∈ writeSet)
  /\ (forall relationSide sourceEntityNode,
        processNode fuel (FollowEdgeQueryNode relationSide sourceEntityNode)
          context st = Ok (fragment, st') ->
        getCollectionNameForRelation (relation relationSide) ∈ readSet).
Proof.
  intros name readSet writeSet. subst name readSet writeSet.
  repeat apply conj.
  - intros Hrun. destruct (processNode_Ok_fuel _ _ _ _ _ Hrun) as [fuel' ->].
    rewrite processNode_S in Hrun. cbn [processors] in Hrun.
    exact (getCollectionForType_records _ READ _ _ _ _ Hrun).
  - intros idNode Hallocated Hrun.
    destruct (processNode_Ok_fuel _ _ _ _ _ Hrun) as [fuel' ->].
    rewrite processNode_S in Hrun. cbn [processors] in Hrun.
    unfold processEntityFromId in Hrun.
    apply bind_Ok_inv in Hrun as (collection & st1 & Hcollection & Hrun).
    apply bind_Ok_inv in Hrun as (id & st2 & Hid & Hrun).
    apply ret_Ok_inv in Hrun. injection Hrun as _ <-.
    pose proof (getCollectionForType_records _ READ _ _ _ _ Hcollection) as Hin.
    pose proof (getCollectionForType_grows _ _ _ _ _ _ Hcollection)
      as (Hrefs & _ & _).
    destruct (processNode_grows_fuel _ _ _ _ _ _ Hid) as (_ & _ & Hold).
    destruct (Hold (readAccessedCollections context) ltac:(lia))
      as [[added ->] _].
    apply elem_of_app. now left.
  - intros objectNode Hrun.
    destruct (processNode_Ok_fuel _ _ _ _ _ Hrun) as [fuel' ->].
    rewrite processNode_S in Hrun. cbn [processors] in Hrun.
    unfold processCreateEntity in Hrun.
    apply bind_Ok_inv in Hrun as (object & st1 & _ & Hrun).
    apply bind_Ok_inv in Hrun as (collection & st2 & Hcollection & Hrun).
    apply ret_Ok_inv in Hrun. injection Hrun as _ <-.
    exact (getCollectionForType_records _ WRITE _ _ _ _ Hcollection).
  - intros listNode updates currentEntityVariable Hrun.
    destruct (processNode_Ok_fuel _ _ _ _ _ Hrun) as [fuel' ->].
    rewrite processNode_S in Hrun. cbn [processors] in Hrun.
    unfold processUpdateEntities in Hrun.
    apply bind_Ok_inv in Hrun as (newContext & st1 & _ & Hrun).
    apply bind_Ok_inv in Hrun as (entityVar & st2 & _ & Hrun).
    apply bind_Ok_inv in Hrun as (list & st3 & _ & Hrun).
    apply bind_Ok_inv in Hrun as (object & st4 & _ & Hrun).
    apply bind_Ok_inv in Hrun as (collection & st5 & Hcollection & Hrun).
    apply ret_Ok_inv in Hrun. injection Hrun as _ <-.
    exact (getCollectionForType_records _ WRITE _ _ _ _ Hcollection).
  - intros listNode Hrun.
    destruct (processNode_Ok_fuel _ _ _ _ _ Hrun) as [fuel' ->].
    rewrite processNode_S in Hrun. cbn [processors] in Hrun.
    unfold processDeleteEntities in Hrun.
    apply bind_Ok_inv in Hrun as (entityVar & st1 & _ & Hrun).
    apply bind_Ok_inv in Hrun as (list & st2 & _ & Hrun).
    apply bind_Ok_inv in Hrun as (collection & st3 & Hcollection & Hrun).
    apply ret_Ok_inv in Hrun. injection Hrun as _ <-.
    exact (getCollectionForType_records _ WRITE _ _ _ _ Hcollection).
  - intros relationSide sourceEntityNode Hrun.
    destruct (processNode_Ok_fuel _ _ _ _ _ Hrun) as [fuel' ->].
    rewrite processNode_S in Hrun. cbn [processors] in Hrun.
    unfold processFollowEdge, getSimpleFollowEdgeFragment in Hrun.
    apply bind_Ok_inv in Hrun as (tmpVar & st1 & _ & Hrun).
    apply bind_Ok_inv in Hrun as (edges & st2 & Hedges & Hrun).
    apply ret_Ok_inv in Hrun. injection Hrun as _ <-.
    apply bind_Ok_inv in Hedges as (source & st3 & _ & Hedges).
    apply bind_Ok_inv in Hedges as (collection & st4 & Hcollection & Hedges).
    apply ret_Ok_inv in Hedges. injection Hedges as _ <-.
    exact (getCollectionForRelation_records _ READ _ _ _ _ Hcollection).
Qed.

End EntityCollections.

(** Loading a delivery by the id another delivery refers to reads the
    collection of deliveries. *)
Lemma entity_collection_access_witness :
  exists fragment st',
    processNode (H := SampleImports.imports) 3
      (EntityFromIdQueryNode Samples.Delivery
         (RootEntityIDQueryNode (VariableQueryNode Samples.delivery)))
      Samples.context Samples.store = Ok (fragment, st')
    /\ "deliverys" ∈ setOf st' 1.
Proof.
  eexists _, _. split; [vm_compute; reflexivity |].
  refine (proj1 (proj2 (entity_collection_access (H := SampleImports.imports) 3
                          Samples.Delivery Samples.context Samples.store _ _))
            (RootEntityIDQueryNode (VariableQueryNode Samples.delivery)) _ _);
    [cbn; lia | vm_compute; reflexivity].
Defined.

(** ** Scopes *)

Section Scopes.
Context `{Imports}.

(** A chain of Field accesses on a variable that is not in scope does not
    lower. *)
Lemma fieldChain_unbound itemVariable context node fields :
  FieldChain itemVariable node fields ->
  variableMap context !! varId itemVariable = None ->
  exists w, varId w = varId itemVariable
            /\ forall fuel st,
                 length fields < fuel ->
                 processNode fuel node context st = Throw (VariableNotIntroduced w).
Proof.
  intros Hchain Hunbound.
  induction Hchain as [objectNode field path Hvar | objectNode field path fields _ IH].
  - destruct objectNode; try discriminate. cbn in Hvar.
    apply bool_decide_eq_true in Hvar. exists v. split; [assumption |].
    intros [| [| fuel]] st Hfuel; cbn in Hfuel; try lia.
    rewrite processNode_S. cbn [processors]. unfold processField, bind.
    rewrite processNode_S. cbn [processors]. unfold getVariable.
    rewrite Hvar, Hunbound. reflexivity.
  - destruct IH as (w & Hw & IH). exists w. split; [assumption |].
    intros [| fuel] st Hfuel; [lia |]. rewrite length_app in Hfuel. cbn in Hfuel.
    rewrite processNode_S. cbn [processors]. unfold processField, bind.
    rewrite IH by lia. reflexivity.
Qed.

(** X4. The array expansion lowers the right operand of the condition in the
    context of the quantifier node, where the item variable is not in scope:
    a [some] filter over a field list whose condition compares two fields of
    the item for equality throws "variable used but not introduced" instead
    of falling back to the count-based lowering. *)
Theorem arrayExpansion_item_on_the_right listNode fieldNode itemVariable
    conditionNode lhs rhs fields rfields context :
  isFieldList listNode fieldNode ->
  simplifyBooleans conditionNode = BinaryOperationQueryNode lhs EQUAL rhs ->
  FieldChain itemVariable lhs fields ->
  FieldChain itemVariable rhs rfields ->
  variableMap context !! varId itemVariable = None ->
  exists w,
    varId w = varId itemVariable
    /\ forall fuel st,
         S (length rfields) < fuel ->
         processNode fuel
           (QuantifierFilterNode listNode itemVariable some conditionNode)
           context st
         = Throw (VariableNotIntroduced w).
Proof.
  intros [Hlist (objectNode & field & path & ->)] Hcondition Hlhs Hrhs Hunbound.
  destruct (fieldChain_unbound _ _ _ _ Hrhs Hunbound) as (w & Hw & Hthrows).
  exists w. split; [assumption |].
  intros [| fuel] st Hfuel; [lia |].
  rewrite processNode_S. cbn [processors]. unfold processQuantifierFilter.
  cbn zeta. rewrite Hcondition.
  assert (Hfields : collectFields lhs itemVariable [] = Some (fields ++ []))
    by (apply collectFields_chain; eauto).
  unfold bind at 1.
  assert (Hfast :
            getQuantifierFilterUsingArrayExpansion (processNode fuel) some
              (BinaryOperationQueryNode lhs EQUAL rhs) listNode itemVariable
              context st
            = Throw (VariableNotIntroduced w)).
  { unfold getQuantifierFilterUsingArrayExpansion.
    destruct Hlist as [-> | ->]; cbn [isExpandableCondition]; rewrite Hfields;
      unfold bind; rewrite Hthrows by lia; reflexivity. }
  now rewrite Hfast.
Qed.

(** X5. Lowering a VariableAssignment, a QuickSearch, a TransformList or an
    UpdateEntities node in a context in which its variable is already bound
    throws "variable introduced twice", whatever its other parts are and
    before any of them is lowered. (This is about the context the handler is
    given: a pre-execution query is compiled in a context without the
    transient bindings, and may bind the same variable again.) *)
Theorem rebinding_throws fuel context variableNode bound st :
  variableMap context !! varId variableNode = Some bound ->
  let thrown : Result (AQLFragment * Store) :=
    Throw (VariableIntroducedTwice variableNode) in
  (forall variableValueNode resultNode,
      processNode (S fuel)
        (VariableAssignmentQueryNode variableNode variableValueNode resultNode)
        context st = thrown)
  /\ (forall rootEntityType qsFilterNode,
        processNode (S fuel)
          (QuickSearchQueryNode rootEntityType variableNode qsFilterNode)
          context st = thrown)
  /\ (forall listNode filterNode orderBy skip maxCount innerNode,
        processNode (S fuel)
          (TransformListQueryNode listNode variableNode filterNode orderBy skip
             maxCount innerNode) context st = thrown)
  /\ (forall rootEntityType listNode updates,
        processNode (S fuel)
          (UpdateEntitiesQueryNode rootEntityType listNode updates variableNode)
          context st = thrown).
Proof.
  intros Hbound thrown.
  assert (Hintroduce :
            introduceVariable context variableNode st
            = Throw (VariableIntroducedTwice variableNode)).
  { unfold introduceVariable, bind, newAQLVariable,
      newNestedContextWithNewVariable. now rewrite Hbound. }
  repeat apply conj; intros; rewrite processNode_S; cbn [processors].
  - unfold processVariableAssignment, bind. now rewrite Hintroduce.
  - unfold processQuickSearch, bind. now rewrite Hintroduce.
  - unfold processTransformList, bind. now rewrite Hintroduce.
  - unfold processUpdateEntities, bind. now rewrite Hintroduce.
Qed.

(** X6. A SafeList node lowers its source twice, once for the type check and
    once for the value: the fragment is [(IS_LIST(x) ? x' : [])], and what
    the lowering of the source does to the store (the variables it creates,
    the pre-execution queries it registers) is done twice. *)
Theorem safeList_lowers_source_twice fuel sourceNode context st checked st1
    listed st2 :
  processNode fuel sourceNode context st = Ok (checked, st1) ->
  processNode fuel sourceNode context st1 = Ok (listed, st2) ->
  processNode (3 + fuel) (SafeListQueryNode sourceNode) context st
  = Ok (aql.template
          [aql.code "(";
           aql.template [aql.code "IS_LIST("; checked; aql.code ")"];
           aql.code " ? "; listed; aql.code " : ";
           aql.template [aql.code "[]"]; aql.code ")"],
        st2).
Proof.
  intros Hchecked Hlisted.
  assert (Hlisted' : processNode (S fuel) sourceNode context st1 = Ok (listed, st2)).
  { rewrite <- Hlisted. apply processNode_fuel_le; [lia |]. now rewrite Hlisted. }
  change (3 + fuel) with (S (S (S fuel))).
  rewrite processNode_S. cbn [processors]. unfold processSafeList.
  rewrite processNode_S. cbn [processors]. unfold processConditional.
  rewrite (bind_Ok _ _ st (aql.template [aql.code "IS_LIST("; checked; aql.code ")"])
             st1).
  - rewrite (bind_Ok _ _ _ _ _ Hlisted'). reflexivity.
  - rewrite processNode_S. cbn [processors]. unfold processTypeCheck.
    now rewrite (bind_Ok _ _ _ _ _ Hchecked).
Qed.

End Scopes.

(** Some item whose number equals its own number, asked of a delivery: the
    item is not in scope where the right operand is lowered. *)
Lemma arrayExpansion_item_on_the_right_witness :
  exists w,
    varId w = 1
    /\ processNode (H := SampleImports.imports) 3
         (QuantifierFilterNode Samples.items Samples.item some
            (BinaryOperationQueryNode Samples.itemNumber EQUAL Samples.itemNumber))
         Samples.context Samples.store
       = Throw (VariableNotIntroduced w).
Proof.
  destruct (arrayExpansion_item_on_the_right (H := SampleImports.imports)
              Samples.items Samples.items Samples.item
              (BinaryOperationQueryNode Samples.itemNumber EQUAL Samples.itemNumber)
              Samples.itemNumber Samples.itemNumber
              [mkField "itemNumber"] [mkField "itemNumber"] Samples.context)
    as (w & Hw & Hthrows).
  - split; [now left |]. now eexists _, _, _.
  - reflexivity.
  - now constructor.
  - now constructor.
  - reflexivity.
  - exists w. split; [exact Hw |]. apply Hthrows. cbn. lia.
Defined.

(** Assigning to [delivery] where [delivery] is bound. *)
Lemma rebinding_throws_witness :
  processNode (H := SampleImports.imports) 1
    (VariableAssignmentQueryNode Samples.delivery NullQueryNode
       (VariableQueryNode Samples.delivery))
    Samples.context Samples.store
  = Throw (VariableIntroducedTwice Samples.delivery).
Proof.
  pose proof (rebinding_throws (H := SampleImports.imports) 0 Samples.context
                Samples.delivery Samples.deliveryVar Samples.store eq_refl)
    as Hthrows.
  cbn zeta in Hthrows. apply Hthrows.
Defined.

(** The same assignment as a pre-execution query of a node lowered in that
    context: the pre-execution context holds no transient binding, and
    [delivery] is bound again. *)
Example rebinding_in_preExecution :
  exists fragment st',
    processNode (H := SampleImports.imports) 4
      (WithPreExecutionQueryNode
         [mkPreExec
            (VariableAssignmentQueryNode Samples.delivery NullQueryNode
               (VariableQueryNode Samples.delivery))
            None None]
         NullQueryNode)
      Samples.context Samples.store = Ok (fragment, st').
Proof. eexists _, _. vm_compute. reflexivity. Qed.

(** A list that is computed after a delivery was created, made safe: the
    delivery is created twice. *)
Lemma safeList_lowers_source_twice_witness :
  let source :=
    WithPreExecutionQueryNode
      [mkPreExec (CreateEntityQueryNode Samples.Delivery (ObjectQueryNode []))
                 None None]
      (ListQueryNode []) in
  exists fragment st',
    processNode (H := SampleImports.imports) 6 (SafeListQueryNode source)
      Samples.rootContext Samples.store = Ok (fragment, st')
    /\ length (arrayOf st' (preExecQueries Samples.rootContext)) = 2.
Proof.
  intros source. eexists _, _. split.
  - eapply (safeList_lowers_source_twice (H := SampleImports.imports) 3 source
             Samples.rootContext Samples.store);
      vm_compute; reflexivity.
  - vm_compute. reflexivity.
Defined.

(** ** The two query builders of time-to-live.ts *)

Section TimeToLiveBuilders.
Context {generatorImports : Imports} {ttlImports : TTL.TTLImports}.

(** X7. The deletion query and the info query of a TTL type are refused by
    the same three guards with the same error, a missing root entity type
    first. A type that passes them gets its deletion query exactly when
    [calcDeleteFrom] returns for its number of days, and its info query
    exactly when [calcDeleteFrom] returns for that number and for the number
    with the overdue delta added; otherwise the builder throws what
    [calcDeleteFrom] throws, which is never its own error ("the dateField
    does not have a valid type") but the exception of js-joda. *)
Theorem ttl_builders_guards ttlType executionOptions overdueDelta listItemVarId
    expiredVarId overdueVarId :
  let deletion := TTL.getQueryNodeForTTLType ttlType executionOptions listItemVarId in
  let info :=
    TTL.getTTLInfoQueryNode ttlType overdueDelta expiredVarId overdueVarId in
  let expiredFrom :=
    TTL.calcDeleteFrom (TTL.expireAfterDays ttlType) (TTL.ttl_fieldType ttlType) in
  let overdueFrom :=
    TTL.calcDeleteFrom (TTL.expireAfterDays ttlType + overdueDelta)
      (TTL.ttl_fieldType ttlType) in
  let guarded :=
    is_Some (TTL.ttl_rootEntityType ttlType)
    /\ (exists first rest, TTL.ttl_path ttlType = Some (first :: rest))
    /\ is_Some (TTL.ttl_fieldType ttlType) in
  (forall e, TTL.checkTTLType ttlType = inl e -> deletion = inl e /\ info = inl e)
  /\ (guarded <-> exists valid, TTL.checkTTLType ttlType = inr valid)
  /\ (TTL.ttl_rootEntityType ttlType = None ->
      TTL.checkTTLType ttlType = inl TTL.NoValidRootEntityType)
  /\ ((exists node, deletion = inr node)
      <-> guarded /\ exists instant, expiredFrom = inr instant)
  /\ ((exists node, info = inr node)
      <-> guarded /\ (exists instant, expiredFrom = inr instant)
          /\ exists instant, overdueFrom = inr instant)
  /\ (guarded ->
      (forall e, deletion = inl e <-> expiredFrom = inl e)
      /\ (forall e, info = inl e
                    <-> expiredFrom = inl e
                        \/ (exists instant, expiredFrom = inr instant)
                           /\ overdueFrom = inl e))
  /\ (forall e, deletion = inl e -> info = inl e)
  /\ deletion <> inl TTL.NoValidDateFieldType
  /\ info <> inl TTL.NoValidDateFieldType.
Proof.
  intros deletion info expiredFrom overdueFrom guarded.
  assert (Hguards : guarded <-> exists valid, TTL.checkTTLType ttlType = inr valid).
  { subst guarded. unfold TTL.checkTTLType.
    destruct (TTL.ttl_rootEntityType ttlType) as [rootEntityType |].
    2: { split; [intros ([? [=]] & _) | intros [? [=]]]. }
    destruct (TTL.ttl_path ttlType) as [[| first rest] |].
    1, 3: split; [intros (_ & (? & ? & [=]) & _) | intros [? [=]]].
    destruct (TTL.ttl_fieldType ttlType) as [fieldType |].
    2: { split; [intros (_ & _ & [? [=]]) | intros [? [=]]]. }
    split; eauto 10. }
  assert (Hroot : TTL.ttl_rootEntityType ttlType = None ->
                  TTL.checkTTLType ttlType = inl TTL.NoValidRootEntityType)
    by (intros Hnone; unfold TTL.checkTTLType; now rewrite Hnone).
  assert (Hown : forall days,
             TTL.calcDeleteFrom days (TTL.ttl_fieldType ttlType)
             = inl TTL.NoValidDateFieldType ->
             TTL.ttl_fieldType ttlType = None).
  { intros days. unfold TTL.calcDeleteFrom.
    destruct (TTL.ttl_fieldType ttlType) as [fieldType |]; [| trivial].
    destruct (if String.eqb _ _ then _ else _) as [zone |]; [| discriminate].
    destruct (TTL.instantDaysAgo zone days); discriminate. }
  assert (Hfield : forall valid,
             TTL.checkTTLType ttlType = inr valid ->
             is_Some (TTL.ttl_fieldType ttlType)).
  { intros valid Hvalid. apply Hguards. eauto. }
  assert (Hrefused : TTL.checkTTLType ttlType <> inl TTL.NoValidDateFieldType).
  { unfold TTL.checkTTLType.
    destruct (TTL.ttl_rootEntityType ttlType); [| discriminate].
    destruct (TTL.ttl_path ttlType) as [[|]|]; try discriminate.
    destruct (TTL.ttl_fieldType ttlType); discriminate. }
  subst deletion info expiredFrom overdueFrom.
  unfold TTL.getQueryNodeForTTLType, TTL.getTTLInfoQueryNode.
  destruct (TTL.checkTTLType ttlType) as [refused | [[rootEntityType path] fieldType]]
    eqn:Hcheck.
  - assert (Hnot : ~ guarded) by (rewrite Hguards; intros [valid [=]]).
    split; [now intros e [= <-] |]. split; [exact Hguards |].
    split; [exact Hroot |].
    split; [split; [intros [node [=]] | now intros [? _]] |].
    split; [split; [intros [node [=]] | now intros [? _]] |].
    split; [intros Hguarded; contradiction |].
    split; [trivial |].
    split; intros [= ->]; now apply Hrefused.
  - assert (Hguarded : guarded) by (apply Hguards; eauto).
    destruct (Hfield _ eq_refl) as [fieldType' HfieldType].
    pose proof (Hown (TTL.expireAfterDays ttlType)) as Hexpired.
    pose proof (Hown (TTL.expireAfterDays ttlType + overdueDelta)%Z) as Hoverdue.
    destruct (TTL.calcDeleteFrom (TTL.expireAfterDays ttlType)
                (TTL.ttl_fieldType ttlType)) as [e1 | expiredFrom];
      destruct (TTL.calcDeleteFrom (TTL.expireAfterDays ttlType + overdueDelta)
                  (TTL.ttl_fieldType ttlType)) as [e2 | overdueFrom].
    all: split; [intros e [=] |]; split; [exact Hguards |];
      split; [exact Hroot |].
    all: split;
      [split; [intros [node Hnode]; try discriminate Hnode; eauto
              | intros (_ & [instant Hinstant]); try discriminate Hinstant; eauto] |].
    all: split;
      [split; [intros [node Hnode]; try discriminate Hnode; eauto 6
              | intros (_ & [instant Hinstant] & [instant' Hinstant']);
                try discriminate Hinstant; try discriminate Hinstant'; eauto] |].
    all: split;
      [intros _; split; intros e;
       (split;
        [intros Herror; try discriminate Herror; eauto;
         injection Herror as ->; eauto
        | intros Herror;
          try destruct Herror as [Herror | [[instant Hinstant] Herror]];
          try discriminate Herror; try discriminate Hinstant;
          try (injection Herror as ->); reflexivity]) |].
    all: split; [intros e Herror; try discriminate Herror; exact Herror |].
    all: split; intros Herror; try discriminate Herror;
      injection Herror as ->;
      (specialize (Hexpired eq_refl) || specialize (Hoverdue eq_refl));
      congruence.
Qed.

(** X8. The info object of a TTL type has five properties, named
    [typeName], [path], [path], [expiredObjectCount] and
    [overdueObjectCount]: the name of the date field and the number of days
    are both stored under [path], and no property is named [amountOfDays]. *)
Theorem ttl_info_properties ttlType overdueDelta expiredVarId overdueVarId node :
  TTL.getTTLInfoQueryNode ttlType overdueDelta expiredVarId overdueVarId
  = inr node ->
  exists typeNameNode expiredCount overdueCount,
    node =
    ObjectQueryNode
      [mkProperty "typeName" typeNameNode;
       mkProperty "path"
         (LiteralQueryNode (JString (TTL.dateField (TTL.input ttlType))));
       mkProperty "path"
         (LiteralQueryNode
            (JNumber (TTL.config_expireAfterDays (TTL.input ttlType))));
       mkProperty "expiredObjectCount" expiredCount;
       mkProperty "overdueObjectCount" overdueCount]
    /\ forall properties,
         node = ObjectQueryNode properties ->
         "amountOfDays" ∉ map propertyName properties.
Proof.
  unfold TTL.getTTLInfoQueryNode. destruct (TTL.checkTTLType ttlType) as
    [e | [[rootEntityType path] fieldType]]; [discriminate |].
  destruct (TTL.calcDeleteFrom _ _) as [e | expiredFrom]; [discriminate |].
  destruct (TTL.calcDeleteFrom _ _) as [e | overdueFrom]; [discriminate |].
  intros [= <-]. eexists _, _, _. split; [reflexivity |].
  intros properties [= <-]. cbn. rewrite !elem_of_cons, elem_of_nil.
  intros [? | [? | [? | [? | [? | []]]]]]; discriminate.
Qed.

End TimeToLiveBuilders.

(** The sample TTL type passes the guards and the clock returns: its
    deletion query is built. With js-joda alone and a LocalDate field, it is
    the exception of js-joda that comes out of both builders. *)
Lemma ttl_builders_guards_witness :
  (exists node,
      TTL.getQueryNodeForTTLType (generatorImports := SampleImports.imports)
        (ttlImports := SampleTTL.imports) SampleTTL.deliveryTTL
        (TTL.mkExecutionOptions None) 0 = inr node)
  /\ TTL.getTTLInfoQueryNode (ttlImports := SampleTTL.bareImports)
       SampleTTL.localDateTTL 3 10 11 = inl TTL.JodaException.
Proof.
  split.
  - destruct (ttl_builders_guards (generatorImports := SampleImports.imports)
                (ttlImports := SampleTTL.imports) SampleTTL.deliveryTTL
                (TTL.mkExecutionOptions None) 3%Z 0 10 11)
      as (_ & _ & _ & Hdeletion & _).
    apply Hdeletion. split; [| now exists "2026-10-04T00:00:00Z"].
    split; [now exists Samples.Delivery |].
    split; [now exists (mkField "dispatchDate"), [] |].
    now exists (mkScalarType "OffsetDateTime").
  - destruct (ttl_builders_guards (generatorImports := SampleImports.imports)
                (ttlImports := SampleTTL.bareImports) SampleTTL.localDateTTL
                (TTL.mkExecutionOptions None) 3%Z 0 10 11)
      as (_ & _ & _ & _ & _ & _ & Hsame & _).
    now apply Hsame.
Defined.

(** The info object of the sample TTL type. *)
Lemma ttl_info_properties_witness :
  exists node,
    TTL.getTTLInfoQueryNode (ttlImports := SampleTTL.imports)
      SampleTTL.deliveryTTL 3 10 11 = inr node
    /\ exists properties,
         node = ObjectQueryNode properties
         /\ map propertyName properties
            = ["typeName"; "path"; "path"; "expiredObjectCount";
               "overdueObjectCount"].
Proof.
  eexists. split; [reflexivity |].
  destruct (ttl_info_properties (ttlImports := SampleTTL.imports)
              SampleTTL.deliveryTTL 3 10 11 _ eq_refl) as (typeNameNode & expiredCount & overdueCount & Hnode & _).
  eexists. split; [exact Hnode | reflexivity].
Defined.

(** ** Utilities *)

Section UtilsArrays.

Lemma fold_left_concat {A} (lists : list (list A)) (ys : list A) :
  fold_left (fun ys x => ys ++ x) lists ys = ys ++ concat lists.
Proof.
  revert ys. induction lists as [| x rest IH]; intros ys; cbn.
  - now rewrite app_nil_r.
  - now rewrite IH, app_assoc.
Qed.

Lemma fold_left_flatMap {A B} (f : A -> list B) (arr : list A) (ys : list B) :
  fold_left (fun ys x => ys ++ f x) arr ys = ys ++ concat (map f arr).
Proof.
  revert ys. induction arr as [| x rest IH]; intros ys; cbn.
  - now rewrite app_nil_r.
  - now rewrite IH, app_assoc.
Qed.

(** X9. [flatten] is the concatenation of the lists in their order, and
    [flatMap] the concatenation of the images of the items in their order:
    the result holds exactly the elements of the images, and mapping then
    flattening gives the same list. *)
Theorem flatMap_concat {TIn TOut} (arr : list TIn) (f : TIn -> list TOut)
    (lists : list (list TOut)) :
  Utils.flatten lists = concat lists
  /\ Utils.flatMap arr f = concat (map f arr)
  /\ Utils.flatMap arr f = Utils.flatten (map f arr)
  /\ forall y, y ∈ Utils.flatMap arr f <-> exists x, x ∈ arr /\ y ∈ f x.
Proof.
  assert (Hflatten : forall ls : list (list TOut), Utils.flatten ls = concat ls)
    by (intros ls; unfold Utils.flatten; now rewrite fold_left_concat).
  assert (HflatMap : Utils.flatMap arr f = concat (map f arr))
    by (unfold Utils.flatMap; now rewrite fold_left_flatMap).
  split; [apply Hflatten |]. split; [exact HflatMap |].
  split; [now rewrite Hflatten |].
  intros y. rewrite HflatMap, <- flat_map_concat_map.
  rewrite list_elem_of_In, in_flat_map. 
  split; intros (x & Hx & Hy); exists x; now rewrite ?list_elem_of_In in *.
Qed.

End UtilsArrays.

Section EndsWith.

Lemma append_cons c (s1 s2 : string) : String c s1 +:+ s2 = String c (s1 +:+ s2).
Proof. reflexivity. Qed.

Lemma takeChars_dropChars n str :
  str = takeChars n str +:+ Utils.dropChars n str.
Proof.
  revert str. induction n as [| n IH]; intros [| c rest]; simpl; try reflexivity.
  rewrite append_cons. f_equal. apply IH.
Qed.

Lemma dropChars_length n str :
  String.length (Utils.dropChars n str) = String.length str - n.
Proof.
  revert str. induction n as [| n IH]; intros [| c rest]; cbn; try lia.
  apply IH.
Qed.

Lemma length_append (s1 s2 : string) :
  String.length (s1 +:+ s2) = String.length s1 + String.length s2.
Proof.
  induction s1 as [| c s1 IH]; [reflexivity |].
  rewrite append_cons. cbn. now rewrite IH.
Qed.

Lemma dropChars_append (s1 s2 : string) :
  Utils.dropChars (String.length s1) (s1 +:+ s2) = s2.
Proof.
  induction s1 as [| c s1 IH]; [now destruct s2 |].
  rewrite append_cons. exact IH.
Qed.

(** X10. [endsWith(str, suffix)] holds exactly when [str] ends with
    [suffix], for a suffix that is not empty. For the empty suffix it holds
    for the empty string only: [substr(-0)] is the whole string. *)
Theorem endsWith_suffix str suffix :
  Utils.endsWith str suffix = true
  <-> (suffix <> "" /\ exists start, str = start +:+ suffix)
      \/ (suffix = "" /\ str = "").
Proof.
  unfold Utils.endsWith, Utils.substr. cbn zeta. rewrite String.eqb_eq.
  destruct suffix as [| c suffix].
  - cbn. split.
    + intros Hempty. right. split; [reflexivity |]. now destruct str.
    + intros [[Hne _] | [_ ->]]; [congruence | reflexivity].
  - set (full := String c suffix).
    assert (Hlen : String.length full = S (String.length suffix)) by reflexivity.
    replace (Z.ltb (- Z.of_nat (String.length full)) 0) with true
      by (symmetry; apply Z.ltb_lt; lia).
    replace (Z.to_nat (Z.max (Z.of_nat (String.length str)
                              + - Z.of_nat (String.length full)) 0))
      with (String.length str - String.length full) by lia.
    split.
    + intros Hdrop. left. split; [discriminate |].
      exists (takeChars (String.length str - String.length full) str).
      pose proof (takeChars_dropChars (String.length str - String.length full) str)
        as Hsplit.
      now rewrite Hdrop in Hsplit.
    + intros [[_ [start ->]] | [[=] _]].
      rewrite length_append.
      replace (String.length start + String.length full - String.length full)
        with (String.length start) by lia.
      apply dropChars_append.
Qed.

End EndsWith.

Section RemoveDuplicates.
Context {TItem TKey : Type} `{EqDecision TKey}.
Variable keyFn : TItem -> TKey.

Lemma filterUnseen_elem existingKeys items item :
  item ∈ Utils.filterUnseen keyFn existingKeys items ->
  item ∈ items /\ keyFn item ∉ existingKeys.
Proof.
  revert existingKeys. induction items as [| first rest IH]; intros existingKeys;
    cbn [Utils.filterUnseen]; [now rewrite elem_of_nil |].
  case_bool_decide as Hseen.
  - intros Hin. apply IH in Hin as [Hin Hnew]. split; [now right | assumption].
  - rewrite elem_of_cons. intros [-> | Hin]; [split; [now left | assumption] |].
    apply IH in Hin as [Hin Hnew]. split; [now right |].
    intros Hold. apply Hnew, elem_of_app. now left.
Qed.

Lemma filterUnseen_NoDup existingKeys items :
  NoDup (map keyFn (Utils.filterUnseen keyFn existingKeys items)).
Proof.
  revert existingKeys. induction items as [| first rest IH]; intros existingKeys;
    cbn [Utils.filterUnseen]; [constructor |].
  case_bool_decide as Hseen; [apply IH |].
  cbn. constructor; [| apply IH].
  intros Hin. apply list_elem_of_fmap in Hin as (other & Hkey & Hin).
  apply filterUnseen_elem in Hin as [_ Hnew]. apply Hnew.
  apply elem_of_app. right. rewrite Hkey. now left.
Qed.

Lemma filterUnseen_sublist existingKeys items :
  Utils.filterUnseen keyFn existingKeys items `sublist_of` items.
Proof.
  revert existingKeys. induction items as [| first rest IH]; intros existingKeys;
    cbn [Utils.filterUnseen]; [constructor |].
  case_bool_decide; [apply sublist_cons, IH | apply sublist_skip, IH].
Qed.

Lemma filterUnseen_first existingKeys before item after :
  keyFn item ∉ existingKeys -> keyFn item ∉ map keyFn before ->
  item ∈ Utils.filterUnseen keyFn existingKeys (before ++ item :: after).
Proof.
  revert existingKeys. induction before as [| first rest IH];
    intros existingKeys Hnew Hfirst; cbn [app Utils.filterUnseen].
  - rewrite bool_decide_eq_false_2 by assumption. now left.
  - cbn in Hfirst. apply not_elem_of_cons in Hfirst as [Hne Hfirst].
    case_bool_decide; [now apply IH |].
    right. apply IH; [| assumption].
    rewrite elem_of_app, list_elem_of_singleton. intros [? | ?]; congruence.
Qed.

Lemma filterUnseen_keys existingKeys items item :
  item ∈ items ->
  keyFn item ∈ existingKeys
  \/ keyFn item ∈ map keyFn (Utils.filterUnseen keyFn existingKeys items).
Proof.
  revert existingKeys. induction items as [| first rest IH]; intros existingKeys;
    [now rewrite elem_of_nil |].
  rewrite elem_of_cons. cbn [Utils.filterUnseen].
  intros [-> | Hin]; case_bool_decide as Hseen.
  - now left.
  - right. now left.
  - now apply IH.
  - destruct (IH (existingKeys ++ [keyFn first]) Hin) as [Hold | Hkept].
    + apply elem_of_app in Hold as [Hold | Hsame]; [now left |].
      apply list_elem_of_singleton in Hsame. right. rewrite Hsame. now left.
    + right. now right.
Qed.

Lemma filterUnseen_idempotent existingKeys items :
  Utils.filterUnseen keyFn existingKeys
    (Utils.filterUnseen keyFn existingKeys items)
  = Utils.filterUnseen keyFn existingKeys items.
Proof.
  revert existingKeys. induction items as [| first rest IH]; intros existingKeys;
    cbn [Utils.filterUnseen]; [reflexivity |].
  case_bool_decide as Hseen; [apply IH |].
  cbn [Utils.filterUnseen]. rewrite bool_decide_eq_false_2 by assumption.
  now rewrite IH.
Qed.

(** X11. [removeDuplicates] keeps the first item of every key and nothing
    else: the keys of the result are pairwise distinct, the result is a
    sub-list of the input (order kept), an item before which no item has its
    key is kept, every key of the input is a key of the result, and removing
    duplicates again changes nothing. *)
Theorem removeDuplicates_first_occurrences (items : list TItem) :
  let kept := Utils.removeDuplicates items keyFn in
  NoDup (map keyFn kept)
  /\ kept `sublist_of` items
  /\ (forall before item after,
        items = before ++ item :: after ->
        keyFn item ∉ map keyFn before -> item ∈ kept)
  /\ (forall item, item ∈ items -> keyFn item ∈ map keyFn kept)
  /\ Utils.removeDuplicates kept keyFn = kept.
Proof.
  intros kept. subst kept. unfold Utils.removeDuplicates.
  split; [apply filterUnseen_NoDup |]. split; [apply filterUnseen_sublist |].
  split; [| split].
  - intros before item after -> Hfirst. apply filterUnseen_first; [| assumption].
    apply not_elem_of_nil.
  - intros item Hin. destruct (filterUnseen_keys [] items item Hin) as [Hold |];
      [| assumption].
    now apply elem_of_nil in Hold.
  - apply filterUnseen_idempotent.
Qed.

End RemoveDuplicates.

Section Maps.
Context {TKey TValue : Type} `{EqDecision TKey}.

Lemma mapGet_map (g : TKey -> TValue) keys key :
  Utils.mapGet (map (fun k => (k, g k)) keys) key
  = if bool_decide (key ∈ keys) then Some (g key) else None.
Proof.
  induction keys as [| k rest IH]; cbn [map Utils.mapGet]; [reflexivity |].
  destruct (decide (k = key)) as [-> | Hne].
  - rewrite bool_decide_eq_true_2 by now left. reflexivity.
  - rewrite IH. apply (f_equal (fun b : bool => if b then _ else _)).
    apply bool_decide_ext. rewrite elem_of_cons. intuition congruence.
Qed.

Lemma mapSet_map (g : TKey -> TValue) keys key value :
  NoDup keys -> key ∈ keys ->
  Utils.mapSet (map (fun k => (k, g k)) keys) key value
  = map (fun k => (k, if decide (k = key) then value else g k)) keys.
Proof.
  induction 1 as [| k rest Hfresh Hrest IH]; [now rewrite elem_of_nil |].
  rewrite elem_of_cons. intros Hin. cbn [map Utils.mapSet].
  destruct (decide (k = key)) as [-> | Hne].
  - f_equal. apply map_ext_in. intros k Hk. apply list_elem_of_In in Hk.
    destruct (decide (k = key)) as [-> | _]; [contradiction | reflexivity].
  - f_equal. apply IH. destruct Hin; congruence.
Qed.

Lemma mapSet_new (map : list (TKey * TValue)) key value :
  key ∉ map.*1 -> Utils.mapSet map key value = map ++ [(key, value)].
Proof.
  induction map as [| [k v] rest IH]; cbn; [reflexivity |].
  rewrite not_elem_of_cons. intros [Hne Hrest].
  destruct (decide (k = key)); [congruence |]. now rewrite IH.
Qed.

Lemma mapSet_last (map : list (TKey * TValue)) key value value' :
  key ∉ map.*1 ->
  Utils.mapSet (map ++ [(key, value)]) key value' = map ++ [(key, value')].
Proof.
  induction map as [| [k v] rest IH]; cbn.
  - intros _. now destruct (decide (key = key)).
  - rewrite not_elem_of_cons. intros [Hne Hrest].
    destruct (decide (k = key)); [congruence |]. now rewrite IH.
Qed.

End Maps.

Section Snoc.
Context {TItem TKey : Type} `{EqDecision TKey}.
Variable keyFn : TItem -> TKey.

Lemma filterUnseen_snoc existingKeys items item :
  Utils.filterUnseen keyFn existingKeys (items ++ [item])
  = Utils.filterUnseen keyFn existingKeys items
    ++ (if bool_decide (keyFn item ∈ existingKeys ++ map keyFn items) then []
        else [item]).
Proof.
  revert existingKeys. induction items as [| first rest IH]; intros existingKeys;
    cbn [app map Utils.filterUnseen].
  - rewrite app_nil_r. now case_bool_decide.
  - case_bool_decide as Hseen.
    + rewrite IH. f_equal.
      apply (f_equal (fun b : bool => if b then [] else [item])).
      apply bool_decide_ext.
      rewrite !elem_of_app, elem_of_cons. intuition congruence.
    + rewrite IH. cbn. do 2 f_equal.
      apply (f_equal (fun b : bool => if b then [] else [item])).
      apply bool_decide_ext.
      rewrite !elem_of_app, !elem_of_cons, elem_of_nil. tauto.
Qed.

End Snoc.

Section GroupArray.
Context {TItem TKey : Type} `{EqDecision TKey}.
Variable keyFn : TItem -> TKey.

Lemma keysOf_elem items key : key ∈ keysOf keyFn items <-> key ∈ map keyFn items.
Proof.
  unfold keysOf, Utils.removeDuplicates. split.
  - intros Hin. now apply filterUnseen_elem in Hin as [Hin _].
  - intros Hin. destruct (filterUnseen_keys id [] _ _ Hin) as [Hold | Hkept].
    + now apply elem_of_nil in Hold.
    + now rewrite list_fmap_id in Hkept.
Qed.

Lemma keysOf_snoc items item :
  keysOf keyFn (items ++ [item])
  = keysOf keyFn items
    ++ (if bool_decide (keyFn item ∈ map keyFn items) then [] else [keyFn item]).
Proof.
  unfold keysOf, Utils.removeDuplicates. rewrite map_app. cbn [map].
  rewrite filterUnseen_snoc. cbn [app]. now rewrite list_fmap_id.
Qed.

Lemma keysOf_NoDup items : NoDup (keysOf keyFn items).
Proof.
  unfold keysOf, Utils.removeDuplicates.
  rewrite <- (list_fmap_id (Utils.filterUnseen id [] (map keyFn items))).
  apply filterUnseen_NoDup.
Qed.

Lemma filter_key_snoc items item key :
  filter (fun i => keyFn i = key) (items ++ [item])
  = filter (fun i => keyFn i = key) items
    ++ (if decide (keyFn item = key) then [item] else []).
Proof.
  rewrite filter_app. f_equal.
Qed.

Lemma filter_key_none items key :
  key ∉ map keyFn items -> filter (fun i => keyFn i = key) items = [].
Proof.
  intros Hnone. induction items as [| first rest IH]; [reflexivity |].
  cbn in Hnone. apply not_elem_of_cons in Hnone as [Hne Hnone].
  rewrite filter_cons_False by congruence. now apply IH.
Qed.

Lemma groupStep_groupsOf items item :
  Utils.groupStep keyFn (groupsOf keyFn items) item = groupsOf keyFn (items ++ [item]).
Proof.
  unfold Utils.groupStep, groupsOf. cbn zeta. rewrite mapGet_map, keysOf_snoc.
  rewrite (bool_decide_ext _ _ (keysOf_elem items (keyFn item))).
  case_bool_decide as Hseen.
  - rewrite app_nil_r.
    rewrite mapSet_map by (apply keysOf_NoDup || now apply keysOf_elem).
    apply map_ext. intros key. rewrite filter_key_snoc.
    destruct (decide (key = keyFn item)) as [-> | Hne].
    + now rewrite decide_True.
    + rewrite decide_False by congruence. now rewrite app_nil_r.
  - assert (Hfresh :
              keyFn item
              ∉ (map (fun key => (key, filter (fun i => keyFn i = key) items))
                   (keysOf keyFn items)).*1).
    { rewrite <- list_fmap_compose. cbn. rewrite list_fmap_id.
      now rewrite keysOf_elem. }
    rewrite (mapSet_new _ _ _ Hfresh), (mapSet_last _ _ _ _ Hfresh).
    rewrite map_app. cbn [map]. f_equal.
    + apply map_ext_in. intros key Hkey. apply list_elem_of_In in Hkey.
      rewrite filter_key_snoc, decide_False, app_nil_r; [reflexivity |].
      intros <-. now apply Hseen, keysOf_elem.
    + rewrite filter_key_snoc, decide_True by reflexivity.
      now rewrite filter_key_none.
Qed.

Lemma fold_groupStep items more :
  fold_left (Utils.groupStep keyFn) more (groupsOf keyFn items) = groupsOf keyFn (items ++ more).
Proof.
  revert items. induction more as [| item rest IH]; intros items; cbn [fold_left].
  - now rewrite app_nil_r.
  - rewrite groupStep_groupsOf, IH, <- app_assoc. reflexivity.
Qed.

Lemma groupArray_groupsOf (items : list TItem) :
  Utils.groupArray items keyFn = groupsOf keyFn items.
Proof. apply (fold_groupStep [] items). Qed.

Lemma groupArray_mapGet (items : list TItem) key :
  Utils.mapGet (Utils.groupArray items keyFn) key
  = if bool_decide (key ∈ map keyFn items)
    then Some (filter (fun item => keyFn item = key) items)
    else None.
Proof.
  rewrite groupArray_groupsOf. unfold groupsOf.
  rewrite mapGet_map. apply (f_equal (fun b : bool => if b then _ else _)).
  apply bool_decide_ext, keysOf_elem.
Qed.

(** X12. [groupArray] returns the keys in the order in which they first
    occur among the items, each with the items of that key in the order of
    the input; looking up a key gives its items, and nothing for a key that no
    item has. *)
Theorem groupArray_groups (items : list TItem) :
  Utils.groupArray items keyFn
  = map (fun key => (key, filter (fun item => keyFn item = key) items))
      (Utils.removeDuplicates (map keyFn items) id)
  /\ forall key,
       Utils.mapGet (Utils.groupArray items keyFn) key
       = if bool_decide (key ∈ map keyFn items)
         then Some (filter (fun item => keyFn item = key) items)
         else None.
Proof.
  split; [apply groupArray_groupsOf | apply groupArray_mapGet].
Qed.

End GroupArray.

(** ** The validation of localizations *)

Section Validation.
Import Localization.

Lemma tracks_id : tracks (fun state => state) [].
Proof.
  intros state. rewrite app_nil_r. split; [reflexivity |].
  exists []. rewrite app_nil_r. split; [reflexivity |].
  split; [| reflexivity]. intros _. split; [constructor |].
  intros key Hkey. now apply elem_of_nil in Hkey.
Qed.

Lemma tracks_compose step step' keys keys' :
  tracks step keys -> tracks step' keys' ->
  tracks (fun state => step' (step state)) (keys ++ keys').
Proof.
  intros Hstep Hstep' state.
  destruct (Hstep state) as (Hseen & added & Hmessages & Hadded).
  destruct (Hstep' (step state)) as (Hseen' & added' & Hmessages' & Hadded').
  split; [now rewrite Hseen', Hseen, app_assoc |].
  exists (added ++ added'). split; [now rewrite Hmessages', Hmessages, app_assoc |].
  rewrite Hseen in Hadded'. split.
  - intros Hnone. apply app_eq_nil in Hnone as [Hnone Hnone'].
    apply Hadded in Hnone as [Hdistinct Hnew].
    apply Hadded' in Hnone' as [Hdistinct' Hnew'].
    split.
    + apply NoDup_app. split; [assumption |]. split; [| assumption].
      intros key Hkey Hkey'. apply (Hnew' key Hkey'), elem_of_app. now right.
    + intros key Hkey Hold. apply elem_of_app in Hkey as [Hkey | Hkey].
      * now apply (Hnew key).
      * apply (Hnew' key Hkey), elem_of_app. now left.
  - intros [Hdistinct Hnew]. apply NoDup_app in Hdistinct as (Hkeys & Hapart & Hkeys').
    assert (Hnone : added = []).
    { apply Hadded. split; [assumption |]. intros key Hkey.
      apply Hnew, elem_of_app. now left. }
    assert (Hnone' : added' = []).
    { apply Hadded'. split; [assumption |]. intros key Hkey Hold.
      apply elem_of_app in Hold as [Hold | Hold].
      - apply (Hnew key); [apply elem_of_app; now right | assumption].
      - now apply (Hapart key). }
    now rewrite Hnone, Hnone'.
Qed.

Lemma tracks_ext step step' keys :
  (forall state, step state = step' state) -> tracks step keys -> tracks step' keys.
Proof. intros Hsame Hstep state. rewrite <- Hsame. apply Hstep. Qed.

Lemma tracks_fold {A} (step : ValidationState -> A -> ValidationState)
    (keys : A -> list string) entries :
  (forall entry, tracks (fun state => step state entry) (keys entry)) ->
  tracks (fun state => fold_left step entries state) (concat (map keys entries)).
Proof.
  intros Hstep. induction entries as [| entry rest IH]; cbn [fold_left map concat].
  - apply tracks_id.
  - exact (tracks_compose _ _ _ _ (Hstep entry) IH).
Qed.

Lemma tracks_checkAttribute present key text loc :
  tracks (checkAttribute present key text loc) (if present then [key] else []).
Proof.
  destruct present; unfold checkAttribute; [| apply tracks_id].
  intros state. unfold I18n.isExistingAndAdd. cbn zeta.
  destruct (bool_decide (key ∈ state.1)) eqn:Hseen; cbn [fst snd];
    [apply bool_decide_eq_true in Hseen | apply bool_decide_eq_false in Hseen];
    (split; [reflexivity |]).
  - eexists. split; [reflexivity |]. split; [discriminate |].
    intros [_ Hnew]. exfalso. apply (Hnew key); [now left | assumption].
  - exists []. rewrite app_nil_r. split; [reflexivity |].
    split; [| reflexivity]. intros _. split; [apply NoDup_singleton |].
    intros other Hother. apply list_elem_of_singleton in Hother. now subst.
Qed.

Lemma tracks_validateField type typeConf entry :
  tracks (fun state => validateField type typeConf state entry)
    (keysOfField type entry).
Proof.
  unfold validateField, keysOfField. cbn zeta.
  destruct entry as [field [fieldConf |]]; cbn [fst snd].
  - apply (tracks_compose (checkAttribute _ _ _ _) (checkAttribute _ _ _ _));
      apply tracks_checkAttribute.
  - apply (tracks_compose (checkAttribute false _ _ _) (checkAttribute false _ _ _)
             [] []); apply (tracks_checkAttribute false).
Qed.

Lemma tracks_validateType entry :
  tracks (fun state => validateType state entry) (keysOfType entry).
Proof.
  unfold validateType, keysOfType. cbn zeta.
  set (after := fun state : ValidationState =>
                  match type_fields entry.2 with
                  | Some fields =>
                      fold_left (validateField entry.1 entry.2) fields state
                  | None => state
                  end).
  apply (tracks_compose (checkAttribute _ _ _ _)
           (fun state =>
              after (checkAttribute _ _ _ _ (checkAttribute _ _ _ _ state))));
    [apply tracks_checkAttribute |].
  apply (tracks_compose (checkAttribute _ _ _ _)
           (fun state => after (checkAttribute _ _ _ _ state)));
    [apply tracks_checkAttribute |].
  apply (tracks_compose (checkAttribute _ _ _ _) after);
    [apply tracks_checkAttribute |].
  subst after. destruct (type_fields entry.2) as [fields |]; cbn [default].
  - apply tracks_fold. intros field. apply tracks_validateField.
  - apply tracks_id.
Qed.

Lemma tracks_validateNamespace ns :
  tracks (fun state => validateNamespace state ns) (keysOfNamespace ns).
Proof.
  unfold validateNamespace, keysOfNamespace.
  destruct (types ns) as [entries |]; cbn [default].
  - apply tracks_fold. intros entry. apply tracks_validateType.
  - apply tracks_id.
Qed.

(** The messages of a group: those there were, and some more exactly if a
    key occurs twice among its namespaces. *)
Lemma validateGroup_messages grouped messages key :
  exists added,
    validateGroup grouped messages key = messages ++ added
    /\ (added = []
        <-> NoDup (concat (map keysOfNamespace
                             (default [] (Utils.mapGet grouped key))))).
Proof.
  unfold validateGroup. destruct (Utils.mapGet grouped key) as [group |];
    cbn [default].
  - destruct (tracks_fold validateNamespace keysOfNamespace group
                tracks_validateNamespace ([], messages))
      as (_ & added & Hmessages & Hadded).
    exists added. split; [exact Hmessages |]. rewrite Hadded. cbn [fst].
    split; [now intros [Hdistinct _] |]. intros Hdistinct. split; [assumption |].
    intros other _. apply not_elem_of_nil.
  - exists []. rewrite app_nil_r. split; [reflexivity |].
    split; [constructor | reflexivity].
Qed.

Lemma validateGroups_messages grouped keys messages :
  exists added,
    fold_left (validateGroup grouped) keys messages = messages ++ added
    /\ (added = []
        <-> Forall (fun key =>
                      NoDup (concat (map keysOfNamespace
                                       (default [] (Utils.mapGet grouped key)))))
              keys).
Proof.
  revert messages. induction keys as [| key rest IH]; intros messages;
    cbn [fold_left].
  - exists []. rewrite app_nil_r. split; [reflexivity |].
    split; [constructor | reflexivity].
  - destruct (validateGroup_messages grouped messages key) as (added & -> & Hadded).
    destruct (IH (messages ++ added)) as (added' & -> & Hadded').
    exists (added ++ added'). split; [now rewrite app_assoc |].
    rewrite Forall_cons, <- Hadded, <- Hadded'. split.
    + intros Hnone. now apply app_eq_nil in Hnone.
    + now intros [-> ->].
Qed.

Lemma validate_messages namespaces messages :
  exists added,
    validate namespaces messages = messages ++ added
    /\ (added = []
        <-> forall path,
              NoDup (concat (map keysOfNamespace
                               (filter (fun ns => pathKey ns = path) namespaces)))).
Proof.
  unfold validate. cbn zeta.
  destruct (validateGroups_messages (Utils.groupArray namespaces pathKey)
              (map fst (Utils.groupArray namespaces pathKey)) messages)
    as (added & Hmessages & Hadded).
  exists added. split; [exact Hmessages |]. rewrite Hadded.
  assert (Hgroup :
            forall path,
              default [] (Utils.mapGet (Utils.groupArray namespaces pathKey) path)
              = filter (fun ns => pathKey ns = path) namespaces).
  { intros path. rewrite groupArray_mapGet. case_bool_decide as Hpath;
      [reflexivity |]. now rewrite filter_key_none. }
  split.
  - intros Hgroups path.
    destruct (decide (path ∈ map pathKey namespaces)) as [Hpath | Hpath].
    + rewrite Forall_forall in Hgroups. rewrite <- Hgroup. apply Hgroups.
      rewrite groupArray_groupsOf. unfold groupsOf.
      rewrite <- list_fmap_compose, list_fmap_id. now apply keysOf_elem.
    + rewrite filter_key_none by assumption. constructor.
  - intros Hpaths. apply Forall_forall. intros path _. rewrite Hgroup. apply Hpaths.
Qed.

(** X13. [ModelLocalizationProvider.validate] keeps the messages of the
    context and adds error messages exactly if, among the namespaces of one
    and the same path, an attribute of a type ([hint], [singular], [plural])
    or of a field of a type ([label], [hint]) that is not empty is given more
    than once. *)
Theorem validate_duplicates namespaces messages :
  exists added,
    validate namespaces messages = messages ++ added
    /\ (added = []
        <-> forall path,
              NoDup (concat (map keysOfNamespace
                               (filter (fun ns => pathKey ns = path) namespaces)))).
Proof. apply validate_messages. Qed.

End Validation.

Section ModelValidation.
Import Localization.

Lemma fold_mapSet_new {TKey TValue} `{EqDecision TKey} (g : TKey -> TValue) keys :
  forall entries : list (TKey * TValue),
    NoDup keys -> (forall key, key ∈ keys -> key ∉ entries.*1) ->
    fold_left (fun map key => Utils.mapSet map key (g key)) keys entries
    = entries ++ map (fun key => (key, g key)) keys.
Proof.
  induction keys as [| key rest IH]; intros entries Hdistinct Hnew;
    cbn [fold_left map].
  - now rewrite app_nil_r.
  - apply NoDup_cons in Hdistinct as [Hfresh Hdistinct].
    rewrite mapSet_new by (apply Hnew; now left).
    rewrite IH; [now rewrite <- app_assoc | assumption |].
    intros other Hother. rewrite fmap_app, elem_of_app. cbn.
    rewrite list_elem_of_singleton. intros [Hold | ->]; [| contradiction].
    apply (Hnew other); [now right | assumption].
Qed.

Lemma newModelI18n_providers input :
  newModelI18n input
  = map (fun lang =>
           (lang, map namespaceContent
                    (filter (fun config => language config = lang) input)))
      (keysOf language input).
Proof.
  unfold newModelI18n. cbn zeta.
  pose proof (groupArray_mapGet language input) as Hget.
  assert (Hkeys : map fst (Utils.groupArray input language) = keysOf language input).
  { rewrite groupArray_groupsOf. unfold groupsOf.
    rewrite <- list_fmap_compose. apply list_fmap_id. }
  rewrite Hkeys.
  rewrite fold_mapSet_new;
    [| apply keysOf_NoDup | intros key _; apply not_elem_of_nil].
  cbn [app]. apply map_ext_in. intros lang Hlang. apply list_elem_of_In in Hlang.
  rewrite Hget, bool_decide_eq_true_2 by now apply keysOf_elem. reflexivity.
Qed.

Lemma validateProviders_messages
    (providers : list (string * list NamespaceLocalization)) messages :
  exists added,
    fold_left (fun messages provider => validate provider.2 messages)
      providers messages = messages ++ added
    /\ (added = []
        <-> Forall (fun provider =>
                      forall path,
                        NoDup (concat (map keysOfNamespace
                                         (filter (fun ns => pathKey ns = path)
                                            provider.2))))
              providers).
Proof.
  revert messages. induction providers as [| provider rest IH]; intros messages;
    cbn [fold_left].
  - exists []. rewrite app_nil_r. split; [reflexivity |].
    split; [constructor | reflexivity].
  - destruct (validate_messages provider.2 messages) as (added & -> & Hadded).
    destruct (IH (messages ++ added)) as (added' & -> & Hadded').
    exists (added ++ added'). split; [now rewrite app_assoc |].
    rewrite Forall_cons, <- Hadded, <- Hadded'. split.
    + intros Hnone. now apply app_eq_nil in Hnone.
    + now intros [-> ->].
Qed.

(** X14. [ModelI18n.validate] on the providers its constructor builds keeps
    the messages of the context and adds error messages exactly if, among the
    configs of one language and one namespace path, an attribute of a type or
    of a field of a type is given more than once. The same attribute in two
    languages, or under two paths, is no error. *)
Theorem validateModel_duplicates input messages :
  exists added,
    validateModel input messages = messages ++ added
    /\ (added = []
        <-> forall lang path,
              NoDup
                (concat
                   (map keysOfNamespace
                      (filter (fun ns => pathKey ns = path)
                         (map namespaceContent
                            (filter (fun config => language config = lang)
                               input)))))).
Proof.
  unfold validateModel.
  destruct (validateProviders_messages (newModelI18n input) messages)
    as (added & Hmessages & Hadded).
  exists added. split; [exact Hmessages |]. rewrite Hadded.
  rewrite newModelI18n_providers, Forall_fmap. cbn [snd]. split.
  - intros Hproviders lang path.
    destruct (decide (lang ∈ map language input)) as [Hlang | Hlang].
    + rewrite Forall_forall in Hproviders. apply (Hproviders lang).
      now apply keysOf_elem.
    + rewrite (filter_key_none language) by assumption. constructor.
  - intros Hall. apply Forall_forall. intros lang _ path. apply Hall.
Qed.

End ModelValidation.

(** The singular of a type given twice for one language and one path, and
    once for another language: one error. *)
Example doubled_singular :
  let thing := Localization.mkTypeConfig (Some "Thing") None None None None in
  let ns := Localization.mkNamespaceConfig [] (Some [("Thing", thing)]) None None in
  Localization.validateModel
    [Localization.mkLocalizationConfig "en" ns;
     Localization.mkLocalizationConfig "de" ns;
     Localization.mkLocalizationConfig "en" ns] []
  = [Localization.mkError
       ("The attribute " +:+ dquote +:+ "singular" +:+ dquote +:+ " in type "
        +:+ dquote +:+ "Thing" +:+ dquote
        +:+ " was defined several times in the i18n translation")
       None].
Proof. vm_compute. reflexivity. Qed.

(** ** The search views *)

Section FieldDefinitionsTerminate.
Import ArangoSearch.
Context `{Imports}.
Variable ID_FIELD : string.
Variable typeOf : nat -> SearchType.
Variable bound : nat.
Hypothesis typeFields_bound :
  forall type field, field ∈ typeFields (typeOf type) -> fieldIdentity field < bound.

Lemma list_sum_cons (x : nat) l : list_sum (x :: l) = x + list_sum l.
Proof. reflexivity. Qed.

Lemma list_sum_le {A} (g h : A -> nat) l :
  (forall x, x ∈ l -> g x <= h x) ->
  list_sum (map g l) <= list_sum (map h l).
Proof.
  induction l as [| a rest IH]; intros Hle; [reflexivity |].
  rewrite !map_cons, !list_sum_cons.
  assert (g a <= h a) by (apply Hle; now left).
  assert (list_sum (map g rest) <= list_sum (map h rest)); [| lia].
  apply IH. intros y Hy. apply Hle. now right.
Qed.

Lemma list_sum_lt {A} (g h : A -> nat) l :
  (forall x, x ∈ l -> g x <= h x) ->
  (exists x, x ∈ l /\ g x < h x) ->
  list_sum (map g l) < list_sum (map h l).
Proof.
  induction l as [| a rest IH]; intros Hle (x & Hin & Hlt).
  - now apply elem_of_nil in Hin.
  - rewrite !map_cons, !list_sum_cons.
    assert (Hrest : list_sum (map g rest) <= list_sum (map h rest)).
    { apply list_sum_le. intros y Hy. apply Hle. now right. }
    assert (g a <= h a) by (apply Hle; now left).
    apply elem_of_cons in Hin as [-> | Hin]; [lia |].
    assert (list_sum (map g rest) < list_sum (map h rest)); [| lia].
    apply IH; [| eauto]. intros y Hy. apply Hle. now right.
Qed.

Lemma remainingDepth_snoc (depth : Z) path field :
  fieldIdentity field < bound ->
  occurrences field path < Z.to_nat depth ->
  remainingDepth (Z.to_nat depth) bound (path ++ [field])
  < remainingDepth (Z.to_nat depth) bound path.
Proof.
  intros Hbound Hoccurs. unfold remainingDepth. apply list_sum_lt.
  - intros identity _. rewrite List.filter_app, length_app. lia.
  - exists (fieldIdentity field). split; [apply elem_of_seq; lia |].
    rewrite List.filter_app, length_app. cbn. rewrite Nat.eqb_refl. cbn.
    unfold occurrences in Hoccurs. lia.
Qed.

Lemma fold_definitions_Some
    (definitionFor : SearchField -> option ArangoSearchViewCollectionLink)
    (fieldsToIndex : list SearchField) :
  (forall field, field ∈ fieldsToIndex -> is_Some (definitionFor field)) ->
  forall definitions,
    is_Some
      (fold_left
         (fun fieldDefinitions field =>
            definitions ← fieldDefinitions;
            definition ← definitionFor field;
            Some (Utils.mapSet definitions (arangoFieldName ID_FIELD field) definition))
         fieldsToIndex (Some definitions)).
Proof.
  induction fieldsToIndex as [| field rest IH]; intros Hall definitions;
    cbn [fold_left]; [eauto |].
  destruct (Hall field ltac:(now left)) as [definition ->]. cbn.
  apply IH. intros other Hother. apply Hall. now right.
Qed.

Lemma fieldDefinitionsFor_Some (depth : Z) fuel :
  forall fields path,
    (forall field, field ∈ fields -> fieldIdentity field < bound) ->
    remainingDepth (Z.to_nat depth) bound path < fuel ->
    is_Some (fieldDefinitionsFor ID_FIELD typeOf depth fuel fields path).
Proof.
  induction fuel as [| fuel IH]; intros fields path Hfields Hfuel; [lia |].
  cbn [fieldDefinitionsFor]. unfold fieldDefinitionsForBody. cbn zeta.
  apply (fold_definitions_Some
           (fun field =>
              fieldDefinitionFor typeOf (fieldDefinitionsFor ID_FIELD typeOf depth fuel)
                field (path ++ [field]))).
  intros field Hfield. apply list_elem_of_In, filter_In in Hfield as [Hin Hkeep].
  apply list_elem_of_In in Hin.
  apply andb_true_iff in Hkeep as [_ Hoccurs]. apply Z.ltb_lt in Hoccurs.
  unfold fieldDefinitionFor.
  destruct (isObjectType (typeOf (fieldType field))).
  - destruct (IH (typeFields (typeOf (fieldType field))) (path ++ [field]))
      as [definitions ->]; [apply typeFields_bound | | cbn; eauto].
    pose proof (remainingDepth_snoc depth path field (Hfields _ Hin) ltac:(lia)). lia.
  - cbn zeta. case_bool_decide; eauto.
Qed.

Lemma remainingDepth_nil depth size : remainingDepth depth size [] = size * depth.
Proof.
  unfold remainingDepth. cbn [List.filter length]. rewrite Nat.sub_0_r.
  generalize 0 at 1. induction size as [| n IH]; intros start; [reflexivity |].
  cbn [seq map]. rewrite list_sum_cons, IH. lia.
Qed.

Lemma fold_definitions_None
    (definitionFor : SearchField -> option ArangoSearchViewCollectionLink)
    (fieldsToIndex : list SearchField) :
  fold_left
    (fun fieldDefinitions field =>
       definitions ← fieldDefinitions;
       definition ← definitionFor field;
       Some (Utils.mapSet definitions (arangoFieldName ID_FIELD field) definition))
    fieldsToIndex None = None.
Proof. induction fieldsToIndex as [| field rest IH]; [reflexivity | exact IH]. Qed.

Lemma fold_definitions_more
    (definitionFor definitionFor' : SearchField -> option ArangoSearchViewCollectionLink)
    (fieldsToIndex : list SearchField) :
  (forall field definition,
      definitionFor field = Some definition ->
      definitionFor' field = Some definition) ->
  forall start result,
    fold_left
      (fun fieldDefinitions field =>
         definitions ← fieldDefinitions;
         definition ← definitionFor field;
         Some (Utils.mapSet definitions (arangoFieldName ID_FIELD field) definition))
      fieldsToIndex start = Some result ->
    fold_left
      (fun fieldDefinitions field =>
         definitions ← fieldDefinitions;
         definition ← definitionFor' field;
         Some (Utils.mapSet definitions (arangoFieldName ID_FIELD field) definition))
      fieldsToIndex start = Some result.
Proof.
  intros Hmore.
  induction fieldsToIndex as [| field rest IH]; intros start result;
    cbn [fold_left]; [trivial |].
  destruct start as [definitions |]; cbn [mbind option_bind];
    [| now rewrite fold_definitions_None].
  destruct (definitionFor field) as [definition |] eqn:Hfield.
  - rewrite (Hmore _ _ Hfield). apply IH.
  - cbn [mbind option_bind]. now rewrite fold_definitions_None.
Qed.

(** More fuel does not change what [fieldDefinitionsFor] returns. *)
Lemma fieldDefinitionsFor_fuel_S (depth : Z) fuel :
  forall fields path result,
    fieldDefinitionsFor ID_FIELD typeOf depth fuel fields path = Some result ->
    fieldDefinitionsFor ID_FIELD typeOf depth (S fuel) fields path = Some result.
Proof.
  induction fuel as [| fuel IH]; intros fields path result; [discriminate |].
  intros Hrun. cbn [fieldDefinitionsFor] in Hrun |- *.
  unfold fieldDefinitionsForBody in Hrun |- *. cbn zeta in Hrun |- *.
  revert Hrun.
  apply (fold_definitions_more
           (fun field =>
              fieldDefinitionFor typeOf (fieldDefinitionsFor ID_FIELD typeOf depth fuel)
                field (path ++ [field]))
           (fun field =>
              fieldDefinitionFor typeOf
                (fieldDefinitionsFor ID_FIELD typeOf depth (S fuel))
                field (path ++ [field]))).
  intros field definition. unfold fieldDefinitionFor.
  destruct (isObjectType (typeOf (fieldType field))); [| trivial].
  destruct (fieldDefinitionsFor ID_FIELD typeOf depth fuel _ _) as [inner |] eqn:Hinner;
    [| discriminate].
  now rewrite (IH _ _ _ Hinner).
Qed.

Lemma fieldDefinitionsFor_fuel_le (depth : Z) fuel fuel' fields path result :
  fuel <= fuel' ->
  fieldDefinitionsFor ID_FIELD typeOf depth fuel fields path = Some result ->
  fieldDefinitionsFor ID_FIELD typeOf depth fuel' fields path = Some result.
Proof.
  induction 1 as [| fuel' _ IH]; [trivial |].
  intros Hrun. now apply fieldDefinitionsFor_fuel_S, IH.
Qed.

(** X15. [getPropertiesFromDefinition] returns for every model, also when a
    type contains itself: a field is followed only while it occurs fewer than
    [recursionDepth] times on the path that led to it. In a model whose
    fields have identities below [bound], the fuel
    [bound * recursionDepth + 1] gives a result, and every larger fuel gives
    the same one. *)
Theorem getPropertiesFromDefinition_terminates definition configuration :
  (forall field,
      field ∈ entityFields (definitionType definition) ->
      fieldIdentity field < bound) ->
  let enough :=
    bound * Z.to_nat (numberOr (configuration ≫= recursionDepth) 1) + 1 in
  exists properties,
    getPropertiesFromDefinition ID_FIELD typeOf enough definition configuration
    = Some properties
    /\ forall fuel,
         enough <= fuel ->
         getPropertiesFromDefinition ID_FIELD typeOf fuel definition configuration
         = Some properties.
Proof.
  intros Hfields enough.
  assert (Hfuel : forall fuel,
             enough <= fuel ->
             forall fields,
               fieldDefinitionsFor ID_FIELD typeOf
                 (numberOr (configuration ≫= recursionDepth) 1) enough
                 (entityFields (definitionType definition)) [] = Some fields ->
               getPropertiesFromDefinition ID_FIELD typeOf fuel definition
                 configuration
               = getPropertiesFromDefinition ID_FIELD typeOf enough definition
                   configuration).
  { intros fuel Hle fields Hrun. unfold getPropertiesFromDefinition. cbn zeta.
    now rewrite Hrun, (fieldDefinitionsFor_fuel_le _ _ _ _ _ _ Hle Hrun). }
  destruct (fieldDefinitionsFor_Some
              (numberOr (configuration ≫= recursionDepth) 1) enough
              (entityFields (definitionType definition)) [] Hfields)
    as [fields Hrun]; [rewrite remainingDepth_nil; subst enough; lia |].
  assert (Hsome : is_Some (getPropertiesFromDefinition ID_FIELD typeOf enough
                             definition configuration))
    by (unfold getPropertiesFromDefinition; cbn zeta; rewrite Hrun; cbn; eauto).
  destruct Hsome as [properties Hproperties]. exists properties.
  split; [exact Hproperties |].
  intros fuel Hle. now rewrite (Hfuel fuel Hle fields Hrun).
Qed.

End FieldDefinitionsTerminate.

Section ViewMigrations.
Import ArangoSearch.
Context `{Imports}.
Variable ID_FIELD : string.
Variable typeOf : nat -> SearchType.

Lemma prefix_append (s1 s2 : string) : String.prefix s1 (s1 +:+ s2) = true.
Proof.
  induction s1 as [| c s1 IH]; [now destruct s2 |].
  change (String c s1 +:+ s2) with (String c (s1 +:+ s2)). cbn [String.prefix].
  destruct (ascii_dec c c); [exact IH | congruence].
Qed.

Lemma existsb_eqb {A} (key : A -> string) (target : string) l :
  existsb (fun x => String.eqb (key x) target) l = true
  <-> target ∈ map key l.
Proof.
  rewrite existsb_exists, list_elem_of_fmap. split.
  - intros (x & Hin & Heq). apply String.eqb_eq in Heq.
    exists x. split; [congruence | now apply list_elem_of_In].
  - intros (x & -> & Hin). exists x.
    split; [now apply list_elem_of_In | apply String.eqb_refl].
Qed.

Lemma drops_names names dropped :
  forall name,
    name ∈ fold_left
             (fun names migration =>
                match migration with
                | DropArangoSearchViewMigration viewName =>
                    List.filter (fun name => negb (String.eqb name viewName)) names
                | CreateArangoSearchViewMigration config =>
                    names ++ [migrationViewName config]
                end)
             (map DropArangoSearchViewMigration dropped) names
    <-> name ∈ names /\ name ∉ dropped.
Proof.
  revert names. induction dropped as [| viewName rest IH]; intros names name;
    cbn [map fold_left].
  - rewrite elem_of_nil. tauto.
  - rewrite IH, not_elem_of_cons, !list_elem_of_In, filter_In, negb_true_iff,
      String.eqb_neq. tauto.
Qed.

Lemma creates_names names creates created :
  Forall2 (fun viewName migration =>
             exists config,
               migration = CreateArangoSearchViewMigration config
               /\ migrationViewName config = viewName) created creates ->
  forall name,
    name ∈ fold_left
             (fun names migration =>
                match migration with
                | DropArangoSearchViewMigration viewName =>
                    List.filter (fun name => negb (String.eqb name viewName)) names
                | CreateArangoSearchViewMigration config =>
                    names ++ [migrationViewName config]
                end)
             creates names
    <-> name ∈ names \/ name ∈ created.
Proof.
  intros Hcreates. revert names.
  induction Hcreates as [| viewName migration created creates (config & -> & <-) _ IH];
    intros names name; cbn [fold_left].
  - rewrite elem_of_nil. tauto.
  - rewrite IH, elem_of_app, !elem_of_cons, elem_of_nil. tauto.
Qed.

Lemma required_names model name :
  name ∈ map viewName (getRequiredViewsFromModel model)
  <-> exists type,
        type ∈ model /\ isFlexSearchIndexedType type = true
        /\ name = getFlexSearchViewNameForRootEntity type.
Proof.
  unfold getRequiredViewsFromModel. rewrite <- list_fmap_compose, list_elem_of_fmap.
  split.
  - intros (type & -> & Hin). apply list_elem_of_In, filter_In in Hin as [Hin Hindexed].
    exists type. split; [now apply list_elem_of_In |]. now split.
  - intros (type & Hin & Hindexed & ->). exists type. split; [reflexivity |].
    apply list_elem_of_In, filter_In. split; [now apply list_elem_of_In | assumption].
Qed.

(** X16. Once the drop and the create operations computed for a model were
    carried out, every root entity type that is indexed for search has its
    view; every view whose name starts with [flex_view_] is the view of such
    a type; and the views whose name does not start with [flex_view_] are
    those there were before. *)
Theorem view_migrations_converge model views db configuration fuel creates :
  let required := getRequiredViewsFromModel model in
  let drops := calculateRequiredArangoSearchViewDropOperations views required in
  calculateRequiredArangoSearchViewCreateOperations ID_FIELD typeOf fuel views
    required db configuration = Some creates ->
  let after := viewNamesAfter views (drops ++ creates) in
  (forall type,
      type ∈ model -> isFlexSearchIndexedType type = true ->
      getFlexSearchViewNameForRootEntity type ∈ after)
  /\ (forall name,
        name ∈ after -> String.prefix FLEX_SEARCH_VIEW_PREFIX name = true ->
        exists type,
          type ∈ model /\ isFlexSearchIndexedType type = true
          /\ name = getFlexSearchViewNameForRootEntity type)
  /\ (forall name,
        String.prefix FLEX_SEARCH_VIEW_PREFIX name = false ->
        name ∈ after <-> name ∈ map ArangoSearch.name views).
Proof.
  intros required drops Hcreates after.
  set (toDrop := fun value : ArangoSearchView =>
                   negb (existsb (fun value1 => String.eqb (viewName value1)
                                                  (ArangoSearch.name value))
                           required)
                   && String.prefix FLEX_SEARCH_VIEW_PREFIX (ArangoSearch.name value)).
  set (toCreate := fun value : ArangoSearchDefinition =>
                     negb (existsb (fun value1 => String.eqb (ArangoSearch.name value1)
                                                    (viewName value))
                             views)).
  assert (Hafter :
            forall name,
              name ∈ after
              <-> (name ∈ map ArangoSearch.name views
                   /\ name ∉ map ArangoSearch.name (List.filter toDrop views))
                  \/ name ∈ map viewName (List.filter toCreate required)).
  { intros name. subst after. unfold viewNamesAfter. rewrite fold_left_app.
    subst drops. unfold calculateRequiredArangoSearchViewDropOperations. cbn zeta.
    fold toDrop.
    rewrite <- (map_map ArangoSearch.name DropArangoSearchViewMigration).
    rewrite (creates_names _ creates (map viewName (List.filter toCreate required))).
    - now rewrite drops_names.
    - unfold calculateRequiredArangoSearchViewCreateOperations in Hcreates.
      cbn zeta in Hcreates. fold toCreate in Hcreates.
      apply mapM_Some in Hcreates. apply Forall2_fmap_l.
      eapply Forall2_impl; [exact Hcreates |]. cbn beta.
      intros value migration Hmigration.
      destruct (getPropertiesFromDefinition _ _ _ _ _) as [properties |];
        [| discriminate].
      injection Hmigration as <-. now eexists. }
  assert (Hdropped :
            forall name,
              name ∈ map ArangoSearch.name (List.filter toDrop views)
              <-> name ∈ map ArangoSearch.name views
                  /\ (name ∉ map viewName required)
                  /\ String.prefix FLEX_SEARCH_VIEW_PREFIX name = true).
  { intros name. rewrite (list_elem_of_fmap ArangoSearch.name). split.
    - intros (view & -> & Hin). apply list_elem_of_In, filter_In in Hin as [Hin Hdrop].
      subst toDrop. cbn beta in Hdrop.
      apply andb_true_iff in Hdrop as [Hstale Hprefix].
      apply negb_true_iff in Hstale.
      split; [apply list_elem_of_fmap_2; now apply list_elem_of_In |].
      split; [| assumption]. intros Hrequired.
      apply existsb_eqb in Hrequired. congruence.
    - intros (Hexists & Hstale & Hprefix).
      apply list_elem_of_fmap in Hexists as (view & -> & Hin). exists view.
      split; [reflexivity |]. apply list_elem_of_In, filter_In.
      split; [now apply list_elem_of_In |]. subst toDrop. cbn beta.
      rewrite Hprefix, andb_true_r. apply negb_true_iff.
      apply not_true_is_false. intros Hrequired. now apply existsb_eqb in Hrequired. }
  assert (Hcreated :
            forall name,
              name ∈ map viewName (List.filter toCreate required)
              <-> name ∈ map viewName required
                  /\ name ∉ map ArangoSearch.name views).
  { intros name. rewrite (list_elem_of_fmap viewName). split.
    - intros (value & -> & Hin). apply list_elem_of_In, filter_In in Hin as [Hin Hnew].
      subst toCreate. cbn beta in Hnew. apply negb_true_iff in Hnew.
      split; [apply list_elem_of_fmap_2; now apply list_elem_of_In |].
      intros Hexists. apply existsb_eqb in Hexists. congruence.
    - intros (Hrequired & Hnew).
      apply list_elem_of_fmap in Hrequired as (value & -> & Hin). exists value.
      split; [reflexivity |]. apply list_elem_of_In, filter_In.
      split; [now apply list_elem_of_In |]. subst toCreate. cbn beta.
      apply negb_true_iff, not_true_is_false. intros Hexists.
      now apply existsb_eqb in Hexists. }
  assert (Hprefixed :
            forall name,
              name ∈ map viewName required ->
              String.prefix FLEX_SEARCH_VIEW_PREFIX name = true).
  { intros name Hname. apply required_names in Hname as (type & _ & _ & ->).
    apply prefix_append. }
  split; [| split].
  - intros type Hin Hindexed. apply Hafter. rewrite Hdropped, Hcreated.
    assert (Hrequired :
              getFlexSearchViewNameForRootEntity type ∈ map viewName required)
      by (apply required_names; eauto).
    destruct (decide (getFlexSearchViewNameForRootEntity type
                      ∈ map ArangoSearch.name views)); [left | right]; tauto.
  - intros name Hname Hprefix. apply required_names.
    apply Hafter in Hname. rewrite Hdropped, Hcreated in Hname.
    destruct (decide (name ∈ map viewName required)); [assumption |]. tauto.
  - intros name Hprefix. rewrite Hafter, Hdropped, Hcreated. split.
    + intros [[Hexists _] | [Hrequired _]]; [assumption |].
      apply Hprefixed in Hrequired. congruence.
    + intros Hexists. left. split; [assumption |]. intros (_ & _ & Htrue). congruence.
Qed.

End ViewMigrations.

(** The properties of the view of the sample deliveries, whose value object
    contains itself, with six calls in stock. *)
Lemma getPropertiesFromDefinition_terminates_witness :
  exists properties,
    ArangoSearch.getPropertiesFromDefinition (H := SampleImports.imports) "id"
      SampleSearch.typeOf 6
      (ArangoSearch.getViewForRootEntity (H := SampleImports.imports)
         SampleSearch.Delivery)
      None = Some properties
    /\ ArangoSearch.getPropertiesFromDefinition (H := SampleImports.imports) "id"
         SampleSearch.typeOf 20
         (ArangoSearch.getViewForRootEntity (H := SampleImports.imports)
            SampleSearch.Delivery)
         None = Some properties.
Proof.
  destruct (getPropertiesFromDefinition_terminates (H := SampleImports.imports)
              "id" SampleSearch.typeOf 5) with
    (definition := ArangoSearch.getViewForRootEntity (H := SampleImports.imports)
                     SampleSearch.Delivery)
    (configuration := @None ArangoSearch.ArangoSearchConfiguration)
    as (properties & Henough & Hmore).
  - intros [| type] field Hin; cbn in Hin.
    + apply elem_of_cons in Hin as [-> | Hin]; [cbn; lia |].
      apply elem_of_cons in Hin as [-> | Hin]; [cbn; lia |].
      now apply elem_of_nil in Hin.
    + now apply elem_of_nil in Hin.
  - intros field Hin. cbn in Hin.
    apply elem_of_cons in Hin as [-> | Hin]; [cbn; lia |].
    apply elem_of_cons in Hin as [-> | Hin]; [cbn; lia |].
    apply elem_of_cons in Hin as [-> | Hin]; [cbn; lia |].
    now apply elem_of_nil in Hin.
  - exists properties. split; [exact Henough |]. apply Hmore. cbn. lia.
Defined.

(** With the recursion depth 1, the value object is indexed once inside
    itself: [recursion.recursion.name] is indexed, a third level is not. *)
Example recursive_fields :
  ArangoSearch.fieldDefinitionsFor (H := SampleImports.imports) "id"
    SampleSearch.typeOf 1 6 (ArangoSearch.entityFields SampleSearch.Delivery) []
  = Some
      [("deliveryNumber", ArangoSearch.mkLink None None None None None);
       ("description", ArangoSearch.mkLink (Some ["text_de"]) None None None None);
       ("recursion",
        ArangoSearch.mkLink None
          (Some [("recursion",
                  ArangoSearch.mkLink None
                    (Some [("name", ArangoSearch.mkLink None None None None None)])
                    None None None);
                 ("name", ArangoSearch.mkLink None None None None None)])
          None None None)].
Proof. vm_compute. reflexivity. Qed.

(** The sample database has the view of a type that is no longer indexed,
    a view of the user's and no view for the deliveries: the first is
    dropped, the second kept, the third created. *)
Lemma view_migrations_converge_witness :
  exists creates,
    ArangoSearch.calculateRequiredArangoSearchViewCreateOperations
      (H := SampleImports.imports) "id" SampleSearch.typeOf 6 SampleSearch.views
      (ArangoSearch.getRequiredViewsFromModel (H := SampleImports.imports)
         SampleSearch.model)
      SampleSearch.db None = Some creates
    /\ "flex_view_deliverys"
       ∈ viewNamesAfter SampleSearch.views
           (ArangoSearch.calculateRequiredArangoSearchViewDropOperations
              SampleSearch.views
              (ArangoSearch.getRequiredViewsFromModel (H := SampleImports.imports)
                 SampleSearch.model)
            ++ creates)
    /\ viewNamesAfter SampleSearch.views
         (ArangoSearch.calculateRequiredArangoSearchViewDropOperations
            SampleSearch.views
            (ArangoSearch.getRequiredViewsFromModel (H := SampleImports.imports)
               SampleSearch.model)
          ++ creates)
       = ["statistics"; "flex_view_deliverys"].
Proof.
  eexists. split; [vm_compute; reflexivity |]. split; [| vm_compute; reflexivity].
  refine (proj1 (view_migrations_converge (H := SampleImports.imports) "id"
                   SampleSearch.typeOf SampleSearch.model SampleSearch.views
                   SampleSearch.db None 6 _ _) SampleSearch.Delivery _ _);
    [vm_compute; reflexivity | now left | reflexivity].
Defined.

Section Analyzers.
Import ArangoSearch.
Context `{Imports}.

(** X17. The analyzer that a view indexes a full-text field of a language
    with is the analyzer that the generator names in the search predicates
    for that language: [text_] followed by the language in lower case (and
    [identity] for no language); a full-text field that is indexed for equality
    as well has the identity analyzer next to it. *)
Theorem fulltext_analyzer_agrees typeOf self field path language :
  isObjectType (typeOf (fieldType field)) = false ->
  isFlexSearchFulltextIndexed field = true ->
  flexSearchLanguage field = Some language ->
  language <> "" ->
  (forall lang, getAnalyzerFromFlexSearchLanguage lang = analyzerFor lang)
  /\ fieldDefinitionFor typeOf self field path
     = Some (mkLink
               (Some (analyzerFor (Some language)
                      :: (if isFlexSearchIndexed field then [IDENTITY_ANALYZER]
                          else [])))
               None None None None).
Proof.
  intros Hscalar Hfulltext Hlanguage Hgiven.
  split; [intros [[| c rest] |]; reflexivity |].
  unfold fieldDefinitionFor. rewrite Hscalar, Hfulltext, Hlanguage. cbn zeta.
  destruct language as [| c rest]; [congruence |]. cbn [andb app].
  rewrite bool_decide_eq_false_2; [reflexivity |].
  intros Hidentity. discriminate Hidentity.
Qed.

End Analyzers.

(** The description of a delivery is indexed as German text. *)
Lemma fulltext_analyzer_agrees_witness :
  ArangoSearch.fieldDefinitionFor (H := SampleImports.imports) SampleSearch.typeOf
    (fun _ _ => None) SampleSearch.description []
  = Some (ArangoSearch.mkLink (Some ["text_de"]) None None None None).
Proof.
  refine (proj2 (fulltext_analyzer_agrees (H := SampleImports.imports)
                   SampleSearch.typeOf (fun _ _ => None) SampleSearch.description
                   [] "DE" _ _ _ _)); [reflexivity .. | discriminate].
Defined.

(** ** One run per operation *)

Section ResolveOnce.
Import OperationResolvers.






End ResolveOnce.

(** Three fields of two operations: two calls of the operation resolver,
    with the first field of each operation. *)
Example resolve_three_fields :
  resolveAll
    [OperationResolvers.mkInfo 7 "deliveries"; OperationResolvers.mkInfo 9 "forwarders";
     OperationResolvers.mkInfo 7 "handlingUnits"]
    (OperationResolvers.mkResolverState [] [])
  = ([0; 1; 0],
     OperationResolvers.mkResolverState [(7, 0); (9, 1)]
       [OperationResolvers.mkInfo 7 "deliveries";
        OperationResolvers.mkInfo 9 "forwarders"]).
Proof. reflexivity. Qed.

(** ** Trees that record no access

    The handlers that record a collection access are those of Entities,
    EntityFromId, FollowEdge and RemoveEdges (read) and of the mutations
    (write). [keeps r m post] says that [m] leaves the set [r] as it is; it
    is shown handler by handler for the trees in which no node records an
    access of the type whose set is [r]. *)

Section Keeps.
Variable r : nat.

Lemma keeps_ret {A} (a : A) (post : A -> Prop) : post a -> keeps r (ret a) post.
Proof. intros Hpost st result st' Hr [= <- <-]. auto. Qed.

Lemma keeps_throw {A} e (post : A -> Prop) : keeps r (throw e) post.
Proof. intros st result st' _ [=]. Qed.

Lemma keeps_outOfFuel {A} (post : A -> Prop) : keeps r outOfFuel post.
Proof. intros st result st' _ [=]. Qed.

Lemma keeps_bind {A B} (m : M A) (k : A -> M B) (mid : A -> Prop)
    (post : B -> Prop) :
  keeps r m mid -> (forall a, mid a -> keeps r (k a) post) ->
  keeps r (bind m k) post.
Proof.
  intros Hm Hk st result st' Hr Hrun.
  apply bind_Ok_inv in Hrun as (a & st1 & Hstep & Hrest).
  destruct (Hm _ _ _ Hr Hstep) as (Hr1 & Hsame & Hmid).
  destruct (Hk a Hmid _ _ _ Hr1 Hrest) as (Hr2 & Hsame' & Hpost).
  split; [assumption |]. split; [congruence | assumption].
Qed.

Lemma keeps_weaken {A} (m : M A) (post post' : A -> Prop) :
  keeps r m post -> (forall a, post a -> post' a) -> keeps r m post'.
Proof.
  intros Hm Himpl st result st' Hr Hrun.
  destruct (Hm _ _ _ Hr Hrun) as (Hr' & Hsame & Hpost). auto.
Qed.

Lemma keeps_mapM {A B} (f : A -> M B) l :
  (forall a, a ∈ l -> keeps r (f a) (fun _ => True)) ->
  keeps r (mapM_gen f l) (fun _ => True).
Proof.
  induction l as [| a rest IH]; intros Hf; cbn [mapM_gen].
  - now apply keeps_ret.
  - eapply keeps_bind; [apply Hf; now left |]. intros b _.
    eapply keeps_bind; [apply IH; intros c Hc; apply Hf; now right |].
    intros bs _. now apply keeps_ret.
Qed.

Lemma keeps_newAQLVariable label queryResult :
  keeps r (newAQLVariable label queryResult) (fun _ => True).
Proof. intros st result st' Hr [= <- <-]. auto. Qed.

Lemma keeps_identifier name : keeps r (aqlM.identifier name) (fun _ => True).
Proof.
  unfold aqlM.identifier. destruct (aql.isSafeIdentifier name);
    [now apply keeps_ret | apply keeps_throw].
Qed.

Lemma keeps_newQueryContext : keeps r newQueryContext (fun _ => True).
Proof.
  intros st result st' Hr [= <- <-]. split; [cbn; lia |]. split; [| exact I].
  unfold setOf. cbn [sets]. now rewrite !lookup_insert_ne by lia.
Qed.

Lemma keeps_addCollectionAccess context collection accessType :
  avoids accessType r context ->
  keeps r (addCollectionAccess context collection accessType) (fun _ => True).
Proof.
  intros Havoids st result st' Hr [= <- <-]. split; [assumption |].
  split; [| exact I]. rewrite setOf_added. destruct (decide _) as [Hsame |];
    [| reflexivity].
  destruct accessType; contradiction.
Qed.

Lemma keeps_pushPreExecQuery array q :
  keeps r (pushPreExecQuery array q) (fun _ => True).
Proof. intros st result st' Hr [= <- <-]. auto. Qed.

Lemma keeps_getReadAccessedCollections context :
  keeps r (getReadAccessedCollections context) (fun _ => True).
Proof. intros st result st' Hr [= <- <-]. auto. Qed.

Lemma keeps_getWriteAccessedCollections context :
  keeps r (getWriteAccessedCollections context) (fun _ => True).
Proof. intros st result st' Hr [= <- <-]. auto. Qed.

Lemma keeps_getVariable context variableNode :
  keeps r (getVariable context variableNode) (fun _ => True).
Proof.
  unfold getVariable. destruct (variableMap context !! varId variableNode);
    [now apply keeps_ret | apply keeps_throw].
Qed.

Lemma keeps_newNestedContext accessType context variableNode aqlVariable :
  avoids accessType r context ->
  keeps r (newNestedContextWithNewVariable context variableNode aqlVariable)
    (avoids accessType r).
Proof.
  intros Havoids. unfold newNestedContextWithNewVariable.
  destruct (variableMap context !! varId variableNode); [apply keeps_throw |].
  eapply keeps_bind; [apply keeps_newQueryContext |]. intros _ _.
  apply keeps_ret. now destruct accessType.
Qed.

Lemma keeps_introduceVariable accessType context variableNode :
  avoids accessType r context ->
  keeps r (introduceVariable context variableNode) (avoids accessType r).
Proof.
  intros Havoids. unfold introduceVariable.
  eapply keeps_bind; [apply keeps_newAQLVariable |]. intros v _.
  now apply keeps_newNestedContext.
Qed.

Lemma keeps_newPreExecContext accessType parent :
  avoids accessType r parent ->
  keeps r (newPreExecContext parent) (avoids accessType r).
Proof.
  intros Havoids. unfold newPreExecContext.
  eapply keeps_bind; [apply keeps_newQueryContext |]. intros c _.
  apply keeps_ret. now destruct accessType.
Qed.

End Keeps.

Create HintDb keeps.
#[local] Hint Resolve keeps_newAQLVariable keeps_identifier keeps_newQueryContext
  keeps_pushPreExecQuery keeps_getReadAccessedCollections
  keeps_getWriteAccessedCollections keeps_getVariable keeps_introduceVariable
  keeps_newPreExecContext keeps_newNestedContext : keeps.

Ltac keeps_step :=
  lazymatch goal with
  | |- keeps _ (bind _ _) _ =>
      eapply keeps_bind; [solve [eauto 4 with keeps] | intros ? ?]
  | |- keeps _ (ret _) _ => apply keeps_ret; auto
  | |- keeps _ (throw _) _ => apply keeps_throw
  | |- keeps _ (match ?scrutinee with _ => _ end) _ => destruct scrutinee
  | |- keeps _ _ _ => solve [eauto 4 with keeps]
  end.

Ltac split_records :=
  repeat match goal with
         | H : (_ || _) = false |- _ => apply orb_false_iff in H as [? ?]
         end.

Lemma existsb_false {A} (f : A -> bool) l :
  existsb f l = false -> forall x, x ∈ l -> f x = false.
Proof.
  intros Hnone x Hin. apply not_true_is_false. intros Hx.
  assert (Hsome : existsb f l = true)
    by (apply existsb_exists; exists x; split; [now apply list_elem_of_In | assumption]).
  congruence.
Qed.

Section HandlersKeep.
Context `{Imports}.
Variable r : nat.
Variable recorded : AccessType.
Hypothesis simplifyBooleans_records :
  forall node, records recorded node = false ->
               records recorded (simplifyBooleans node) = false.
Hypothesis not_records :
  forall node, records recorded node = false -> records recorded (not node) = false.
Hypothesis extractVariableAssignments_records :
  forall node,
    records recorded node = false ->
    records recorded (extractVariableAssignments node).1 = false
    /\ forall assignment,
         assignment ∈ (extractVariableAssignments node).2 ->
         records recorded (variableValueNode assignment) = false.
Variable processNode : QueryNode -> QueryContext -> M AQLFragment.
Hypothesis processNode_keeps :
  forall node context,
    records recorded node = false -> avoids (otherAccess recorded) r context ->
    keeps r (processNode node context) (fun _ => True).

#[local] Hint Resolve processNode_keeps : keeps.

Lemma keeps_variable label : keeps r (aqlM.variable label) (fun _ => True).
Proof. apply keeps_newAQLVariable. Qed.

Lemma getFieldPathAccessFragment_keeps path :
  keeps r (getFieldPathAccessFragment path) (fun _ => True).
Proof.
  destruct path as [path |]; [| now apply keeps_ret]. cbn.
  induction path as [| first rest IH]; cbn [getFieldPathAccessFragmentOf].
  - now apply keeps_ret.
  - keeps_step. eapply keeps_bind; [exact IH |]. intros more _. keeps_step.
Qed.

Lemma getCollectionForType_keeps type accessType context :
  sameAccess recorded accessType = false ->
  avoids (otherAccess recorded) r context ->
  keeps r (getCollectionForType type accessType context) (fun _ => True).
Proof.
  intros Hother Havoids. unfold getCollectionForType. cbn zeta.
  eapply keeps_bind; [| intros _ _; apply keeps_identifier].
  apply keeps_addCollectionAccess. now destruct recorded, accessType.
Qed.

Lemma getCollectionForRelation_keeps relation accessType context :
  sameAccess recorded accessType = false ->
  avoids (otherAccess recorded) r context ->
  keeps r (getCollectionForRelation relation accessType context) (fun _ => True).
Proof.
  intros Hother Havoids. unfold getCollectionForRelation. cbn zeta.
  eapply keeps_bind; [| intros _ _; apply keeps_identifier].
  apply keeps_addCollectionAccess. now destruct recorded, accessType.
Qed.

#[local] Hint Resolve keeps_variable getFieldPathAccessFragment_keeps
  getCollectionForType_keeps getCollectionForRelation_keeps : keeps.

Lemma processNodes_keeps nodes context :
  existsb (records recorded) nodes = false ->
  avoids (otherAccess recorded) r context ->
  keeps r (mapM_gen (fun node => processNode node context) nodes) (fun _ => True).
Proof.
  intros Hnodes Havoids. apply keeps_mapM. intros node Hin.
  apply processNode_keeps; [| assumption]. now apply (existsb_false _ _ Hnodes).
Qed.

#[local] Hint Resolve processNodes_keeps : keeps.

Lemma assignVariables_keeps assignmentNodes :
  forall context variableAssignments,
    (forall assignment,
        assignment ∈ assignmentNodes ->
        records recorded (variableValueNode assignment) = false) ->
    avoids (otherAccess recorded) r context ->
    keeps r (assignVariables processNode assignmentNodes context variableAssignments)
      (fun assigned => avoids (otherAccess recorded) r assigned.1).
Proof.
  induction assignmentNodes as [| assignmentNode rest IH];
    intros context variableAssignments Hvalues Havoids; cbn [assignVariables].
  - now apply keeps_ret.
  - keeps_step. keeps_step.
    eapply keeps_bind;
      [apply processNode_keeps; [apply Hvalues; now left | assumption] |].
    intros value _. apply IH; [| assumption].
    intros assignment Hin. apply Hvalues. now right.
Qed.

Lemma createAQLCompoundQuery_keeps node resultVariable resultValidator context :
  records recorded node = false ->
  avoids (otherAccess recorded) r context ->
  keeps r (createAQLCompoundQuery processNode node resultVariable resultValidator
             context) (fun _ => True).
Proof.
  intros Hnode Havoids. unfold createAQLCompoundQuery. cbn zeta.
  destruct (extractVariableAssignments_records node Hnode) as [Hrest Hvalues].
  eapply keeps_bind; [now apply assignVariables_keeps |].
  intros assigned Hassigned. repeat keeps_step.
Qed.

Lemma addPreExecuteQuery_keeps this preExecQuery resultVariable resultValidator :
  records recorded preExecQuery = false ->
  avoids (otherAccess recorded) r this ->
  keeps r (addPreExecuteQuery processNode this preExecQuery resultVariable
             resultValidator) (avoids (otherAccess recorded) r).
Proof.
  intros Hquery Havoids. unfold addPreExecuteQuery.
  eapply keeps_bind
    with (mid := fun introduced => avoids (otherAccess recorded) r introduced.2).
  { destruct resultVariable as [resultVariable |]; [| now apply keeps_ret].
    repeat keeps_step. }
  intros introduced Hintroduced. keeps_step.
  eapply keeps_bind; [now apply createAQLCompoundQuery_keeps |].
  intros aqlQuery _. repeat keeps_step.
Qed.

Lemma addPreExecuteQueries_keeps preExecParms :
  forall currentContext,
    existsb (fun p => records recorded (query p)) preExecParms = false ->
    avoids (otherAccess recorded) r currentContext ->
    keeps r (addPreExecuteQueries processNode preExecParms currentContext)
      (avoids (otherAccess recorded) r).
Proof.
  induction preExecParms as [| preExecParm rest IH];
    intros currentContext Hqueries Havoids; cbn [addPreExecuteQueries].
  - now apply keeps_ret.
  - cbn in Hqueries. split_records.
    eapply keeps_bind; [now apply addPreExecuteQuery_keeps |].
    intros currentContext' Havoids'. now apply IH.
Qed.

Lemma getSimpleFollowEdgeFragment_keeps relationSide sourceEntityNode context :
  sameAccess recorded READ = false ->
  records recorded sourceEntityNode = false ->
  avoids (otherAccess recorded) r context ->
  keeps r (getSimpleFollowEdgeFragment processNode relationSide sourceEntityNode
             context) (fun _ => True).
Proof.
  intros Hread Hsource Havoids. unfold getSimpleFollowEdgeFragment. cbn zeta.
  repeat keeps_step.
Qed.

Lemma generateSortAQL_keeps orderBy context :
  existsb (fun clause => records recorded (clauseValueNode clause)) orderBy = false ->
  avoids (otherAccess recorded) r context ->
  keeps r (generateSortAQL processNode orderBy context) (fun _ => True).
Proof.
  intros Hclauses Havoids. unfold generateSortAQL.
  destruct orderBy as [| clause rest]; [now apply keeps_ret |].
  eapply keeps_bind; [| intros clauses _; now apply keeps_ret].
  apply keeps_mapM. intros cl Hin.
  pose proof (existsb_false _ _ Hclauses cl Hin). repeat keeps_step.
Qed.

Lemma getFullIDFromKeyNode_keeps node rootEntityType context :
  records recorded node = false ->
  avoids (otherAccess recorded) r context ->
  keeps r (getFullIDFromKeyNode processNode node rootEntityType context)
    (fun _ => True).
Proof.
  intros Hnode Havoids. unfold getFullIDFromKeyNode.
  destruct node; try (repeat keeps_step).
Qed.

#[local] Hint Resolve createAQLCompoundQuery_keeps addPreExecuteQueries_keeps
  getSimpleFollowEdgeFragment_keeps generateSortAQL_keeps
  getFullIDFromKeyNode_keeps : keeps.

Lemma getFullIDsFromKeysNode_keeps idsNode rootEntityType context :
  records recorded idsNode = false ->
  avoids (otherAccess recorded) r context ->
  keeps r (getFullIDsFromKeysNode processNode idsNode rootEntityType context)
    (fun _ => True).
Proof.
  intros Hnode Havoids. unfold getFullIDsFromKeysNode. cbn zeta.
  destruct idsNode; try (repeat keeps_step).
  cbn in Hnode. eapply keeps_bind; [| intros ids _; now apply keeps_ret].
  apply keeps_mapM. intros idNode Hin. apply getFullIDFromKeyNode_keeps;
    [now apply (existsb_false _ _ Hnode) | assumption].
Qed.

Lemma formatEdge_keeps relation (edge : PartialEdgeIdentifier) context :
  match fromIDNode edge with
  | Some node => records recorded node
  | None => false
  end
  || match toIDNode edge with
     | Some node => records recorded node
     | None => false
     end = false ->
  avoids (otherAccess recorded) r context ->
  keeps r (formatEdge processNode relation edge context) (fun _ => True).
Proof.
  intros Hedge Havoids. unfold formatEdge. split_records.
  eapply keeps_bind with (mid := fun _ => True).
  { destruct (fromIDNode edge); repeat keeps_step. }
  intros fromCondition _.
  eapply keeps_bind with (mid := fun _ => True).
  { destruct (toIDNode edge); repeat keeps_step. }
  intros toCondition _. now apply keeps_ret.
Qed.

#[local] Hint Resolve getFullIDsFromKeysNode_keeps formatEdge_keeps : keeps.

Lemma processTransformList_keeps listNode itemVariable filterNode orderBy skip
    maxCount innerNode context :
  records recorded
    (TransformListQueryNode listNode itemVariable filterNode orderBy skip maxCount
       innerNode) = false ->
  avoids (otherAccess recorded) r context ->
  keeps r (processTransformList processNode listNode itemVariable filterNode
             orderBy skip maxCount innerNode context) (fun _ => True).
Proof.
  intros Hnode Havoids. cbn [records] in Hnode. split_records.
  unfold processTransformList. cbn zeta.
  do 2 keeps_step.
  eapply keeps_bind
    with (mid := fun projection => avoids (otherAccess recorded) r projection.1).
  { destruct (useIndirectedProjection _ _ _ _); repeat keeps_step. }
  intros projection Hprojection.
  eapply keeps_bind with (mid := fun _ => True).
  { destruct listNode; try (repeat keeps_step).
    match goal with
    | Hlist : records recorded (FollowEdgeQueryNode _ _) = false |- _ =>
        cbn [records] in Hlist; apply orb_false_iff in Hlist as [? ?]
    end.
    repeat keeps_step. }
  intros listAndFilter _.
  destruct (extractVariableAssignments_records innerNode ltac:(assumption))
    as [Hinner Hvalues].
  eapply keeps_bind; [now apply assignVariables_keeps |].
  intros assigned Hassigned.
  eapply keeps_bind with (mid := fun _ => True).
  { pose proof (simplifyBooleans_records filterNode ltac:(assumption)) as Hfilter.
    destruct (simplifyBooleans filterNode) as [| | | []| | | | | | | | | | | | | | | | | | | | | | | | | | | | | | | ];
      repeat keeps_step. }
  intros filterFragment _. repeat keeps_step.
Qed.

Lemma processBinaryOperation_keeps lhsNode operator rhsNode context :
  records recorded lhsNode = false -> records recorded rhsNode = false ->
  avoids (otherAccess recorded) r context ->
  keeps r (processBinaryOperation processNode lhsNode operator rhsNode context)
    (fun _ => True).
Proof.
  intros Hlhs Hrhs Havoids. unfold processBinaryOperation. do 2 keeps_step.
  destruct (getAQLOperator operator); [now apply keeps_ret |].
  destruct operator; cbn zeta; repeat keeps_step.
Qed.

Lemma getQuantifierFilterUsingArrayExpansion_keeps quantifier conditionNode
    listNode itemVariable context :
  records recorded conditionNode = false -> records recorded listNode = false ->
  avoids (otherAccess recorded) r context ->
  keeps r (getQuantifierFilterUsingArrayExpansion processNode quantifier
             conditionNode listNode itemVariable context) (fun _ => True).
Proof.
  intros Hcondition Hlist Havoids.
  assert (Hskip : keeps r (ret (None : option AQLFragment)) (fun _ => True))
    by now apply keeps_ret.
  unfold getQuantifierFilterUsingArrayExpansion.
  destruct quantifier; try exact Hskip. cbn zeta.
  assert (Hsource :
            records recorded
              match listNode with
              | SafeListQueryNode sourceNode => sourceNode
              | _ => listNode
              end = false) by now destruct listNode.
  destruct (match listNode with
            | SafeListQueryNode sourceNode => sourceNode
            | _ => listNode
            end); try exact Hskip.
  destruct conditionNode; try exact Hskip.
  destruct (isExpandableCondition _ _); try exact Hskip.
  destruct (collectFields _ _ _) as [fields |]; try exact Hskip.
  cbn [records] in Hcondition. split_records. repeat keeps_step.
Qed.

#[local] Hint Resolve processTransformList_keeps processBinaryOperation_keeps
  getQuantifierFilterUsingArrayExpansion_keeps : keeps.

Lemma processors_keeps node context :
  records recorded node = false -> avoids (otherAccess recorded) r context ->
  keeps r (processors processNode node context) (fun _ => True).
Proof.
  intros Hnode Havoids.
  destruct node; cbn [processors];
    try (now apply processTransformList_keeps);
    try discriminate Hnode;
    cbn [records] in Hnode; split_records;
    unfold processObject, processList, processConcatLists, processMergeObjects,
      processVariableAssignment, processWithPreExecution, processEntityFromId,
      processField, processRootEntityID, processQuickSearch, processCount,
      processFirstOfList, processOperatorWithLanguage, processUnaryOperation,
      processConditional, processTypeCheck, processSafeList,
      processQuantifierFilter, processEntities, processFollowEdge,
      processCreateEntity, processUpdateEntities, processDeleteEntities,
      processAddEdges, processSetEdge;
    cbn zeta; try solve [repeat keeps_step].
  - (* Object *)
    destruct properties as [| property rest]; [now apply keeps_ret |].
    eapply keeps_bind; [| intros properties' _; now apply keeps_ret].
    apply keeps_mapM. intros p Hin.
    pose proof (existsb_false _ _ Hnode p Hin). repeat keeps_step.
  - (* SafeList *)
    apply processNode_keeps; [| assumption]. cbn [records existsb].
    now rewrite Hnode.
  - (* QuantifierFilter *)
    pose proof (simplifyBooleans_records _ ltac:(eassumption)) as Hcondition.
    eapply keeps_bind;
      [now apply getQuantifierFilterUsingArrayExpansion_keeps |].
    intros [fastFragment |] _; [now apply keeps_ret |].
    apply processNode_keeps; [| assumption].
    assert (Hreduced :
              records recorded
                match quantifier with
                | every => (none, not (simplifyBooleans node2))
                | _ => (quantifier, simplifyBooleans node2)
                end.2 = false)
      by (destruct quantifier; cbn [snd]; auto).
    unfold newTransformList. cbn [records existsb].
    match goal with
    | Hlist : records recorded node1 = false |- _ => rewrite Hlist
    end.
    now rewrite Hreduced.
  - (* AddEdges *)
    keeps_step. eapply keeps_bind with (mid := fun _ => True);
      [| intros edges' _; repeat keeps_step].
    apply keeps_mapM. intros edge Hin.
    match goal with
    | Hedges : existsb _ edges = false |- _ =>
        apply formatEdge_keeps;
          [exact (existsb_false _ _ Hedges edge Hin) | assumption]
    end.
  - (* SetEdge *)
    keeps_step.
    assert (Hedge :
              forall (edgeRelation : Relation) (edge : PartialEdgeIdentifier),
                match fromIDNode edge with
                | Some node => records recorded node
                | None => false
                end = false ->
                match toIDNode edge with
                | Some node => records recorded node
                | None => false
                end = false ->
                keeps r (formatEdge processNode edgeRelation edge context)
                  (fun _ => True))
      by (intros edgeRelation edge Hfrom Hto; apply formatEdge_keeps;
          [apply orb_false_iff; now split | assumption]).
    eapply keeps_bind; [now apply Hedge |]. intros existing _.
    eapply keeps_bind; [now apply Hedge |]. intros inserted _.
    eapply keeps_bind; [now apply Hedge |]. intros updated _.
    repeat keeps_step.
Qed.

End HandlersKeep.

Section LoweringKeeps.
Context `{Imports}.
Variable r : nat.
Variable recorded : AccessType.
Hypothesis rewrites : rewritesRecordNothing recorded.

Lemma processNode_keeps_fuel fuel :
  forall node context,
    records recorded node = false -> avoids (otherAccess recorded) r context ->
    keeps r (processNode fuel node context) (fun _ => True).
Proof.
  destruct rewrites as (Hsimplify & Hnot & Hextract).
  induction fuel as [| fuel IH]; intros node context Hnode Havoids.
  - apply keeps_outOfFuel.
  - rewrite processNode_S. now apply (processors_keeps r recorded).
Qed.

Lemma assignVariables_sets processNode assignmentNodes :
  forall context variableAssignments st assigned st',
    assignVariables processNode assignmentNodes context variableAssignments st
    = Ok (assigned, st') ->
    forall accessType,
      accessRef accessType assigned.1 = accessRef accessType context.
Proof.
  induction assignmentNodes as [| assignmentNode rest IH];
    intros context variableAssignments st assigned st' Hrun accessType;
    cbn [assignVariables] in Hrun.
  - apply ret_Ok_inv in Hrun. now injection Hrun as -> _.
  - apply bind_Ok_inv in Hrun as (context' & st1 & Hcontext & Hrun).
    apply bind_Ok_inv in Hrun as (tmpVar & st2 & _ & Hrun).
    apply bind_Ok_inv in Hrun as (value & st3 & _ & Hrun).
    rewrite (IH _ _ _ _ _ Hrun accessType).
    unfold introduceVariable in Hcontext.
    apply bind_Ok_inv in Hcontext as (variable & st4 & _ & Hcontext).
    unfold newNestedContextWithNewVariable in Hcontext.
    destruct (variableMap context !! varId (variableNode assignmentNode));
      [discriminate |].
    apply bind_Ok_inv in Hcontext as (fresh & st5 & _ & Hcontext).
    apply ret_Ok_inv in Hcontext. injection Hcontext as -> _.
    now destruct accessType.
Qed.

End LoweringKeeps.

(** X19. Lowering a tree in which no node records an access of a given type
    (for write access: no mutation node; for read access: no Entities,
    EntityFromId, FollowEdge or RemoveEdges node) leaves the set of that type
    of the context exactly as it was, provided the rewrites of the imports add
    no such node and the context keeps its two sets apart. *)
Theorem lowering_without_access_nodes `{Imports} accessType fuel node context st
    fragment st' :
  rewritesRecordNothing accessType ->
  records accessType node = false ->
  accessRef accessType context < nextRef st ->
  accessRef (otherAccess accessType) context <> accessRef accessType context ->
  processNode fuel node context st = Ok (fragment, st') ->
  setOf st' (accessRef accessType context) = setOf st (accessRef accessType context).
Proof.
  intros Hrewrites Hnode Hallocated Hdistinct Hrun.
  exact (proj1 (proj2 (processNode_keeps_fuel _ _ Hrewrites fuel node context
                         Hnode Hdistinct _ _ _ Hallocated Hrun))).
Qed.

(** X20. The query compiled by [getAQLQuery] from a tree in which no node
    records an access of a given type declares no collection accessed in that
    way: a tree without mutation nodes has no write-accessed collection, a
    tree without Entities, EntityFromId, FollowEdge and RemoveEdges nodes no
    read-accessed one. *)
Theorem getAQLQuery_declares_no_access `{Imports} accessType fuel node st
    compound st' :
  rewritesRecordNothing accessType ->
  records accessType node = false ->
  getAQLQuery fuel node st = Ok (compound, st') ->
  accessedCollections accessType compound = [].
Proof.
  intros Hrewrites Hnode Hrun. unfold getAQLQuery in Hrun.
  apply bind_Ok_inv in Hrun as (resultVariable & st1 & Hvariable & Hrun).
  apply bind_Ok_inv in Hrun as (context & st2 & Hcontext & Hrun).
  rewrite newQueryContext_Ok in Hcontext. injection Hcontext as <- <-.
  set (context := mkContext ∅ (nextRef st1) (nextRef st1 + 1) (nextRef st1 + 2))
    in Hrun.
  set (st2 := mkStore _ _ _ _) in Hrun.
  set (r := accessRef accessType context).
  assert (Hallocated : r < nextRef st2) by (subst r; destruct accessType; cbn; lia).
  assert (Hempty : setOf st2 r = []).
  { subst r st2. unfold setOf. destruct accessType; cbn.
    - rewrite lookup_insert_ne by lia. now rewrite lookup_insert_eq.
    - now rewrite lookup_insert_eq. }
  assert (Havoids : avoids (otherAccess accessType) r context)
    by (subst r; unfold avoids; destruct accessType; cbn; lia).
  destruct Hrewrites as (Hsimplify & Hnot & Hextract).
  unfold createAQLCompoundQuery in Hrun. cbn zeta in Hrun.
  destruct (Hextract node Hnode) as [Hrest Hvalues].
  apply bind_Ok_inv in Hrun as (assigned & st3 & Hassigned & Hrun).
  apply bind_Ok_inv in Hrun as (body & st4 & Hbody & Hrun).
  apply bind_Ok_inv in Hrun as (readSet & st5 & Hread & Hrun).
  apply bind_Ok_inv in Hrun as (writeSet & st6 & Hwrite & Hrun).
  apply ret_Ok_inv in Hrun. injection Hrun as -> _.
  injection Hread as <- <-. injection Hwrite as <- _.
  destruct (assignVariables_keeps r accessType (processNode fuel)
              (processNode_keeps_fuel r accessType
                 (conj Hsimplify (conj Hnot Hextract)) fuel)
              _ context [] Hvalues Havoids _ _ _ Hallocated Hassigned)
    as (Hallocated3 & Hsame3 & Havoids3).
  destruct (processNode_keeps_fuel r accessType
              (conj Hsimplify (conj Hnot Hextract)) fuel _ _ Hrest Havoids3
              _ _ _ Hallocated3 Hbody) as (_ & Hsame4 & _).
  pose proof (assignVariables_sets _ _ _ _ _ _ _ Hassigned accessType) as Hrefs.
  fold r in Hrefs.
  transitivity (setOf st4 r); [| congruence].
  destruct accessType; cbn [accessedCollections cq_readAccessedCollections
                              cq_writeAccessedCollections];
    cbn [accessRef] in Hrefs; now rewrite Hrefs.
Qed.

(** The rewrites of the sample imports add no node that records an access. *)
Section SampleRewrites.
Variable recorded : AccessType.

Lemma sample_simplifyBooleans_records node :
  records recorded node = false ->
  records recorded (SampleImports.simplifyBooleans node) = false.
Proof.
  induction node; intros Hnode; try exact Hnode.
  - (* a binary operation *)
    cbn [records] in Hnode. apply orb_false_iff in Hnode as [Hlhs Hrhs].
    specialize (IHnode1 Hlhs). specialize (IHnode2 Hrhs).
    destruct operator; cbn [SampleImports.simplifyBooleans records];
      try (now rewrite Hlhs, Hrhs).
    + destruct (SampleImports.simplifyBooleans node1) as
        [| | | []| | | | | | | | | | | | | | | | | | | | | | | | | | | | | | | ];
        try assumption; try reflexivity;
        destruct (SampleImports.simplifyBooleans node2) as
        [| | | []| | | | | | | | | | | | | | | | | | | | | | | | | | | | | | | ];
        try assumption; try reflexivity;
        cbn [records]; apply orb_false_iff; split; assumption.
    + destruct (SampleImports.simplifyBooleans node1) as
        [| | | []| | | | | | | | | | | | | | | | | | | | | | | | | | | | | | | ];
        try assumption; try reflexivity;
        destruct (SampleImports.simplifyBooleans node2) as
        [| | | []| | | | | | | | | | | | | | | | | | | | | | | | | | | | | | | ];
        try assumption; try reflexivity;
        cbn [records]; apply orb_false_iff; split; assumption.
  - (* a unary operation *)
    cbn [records] in Hnode. specialize (IHnode Hnode).
    destruct operator; cbn [SampleImports.simplifyBooleans records];
      [| assumption].
    destruct (SampleImports.simplifyBooleans node); try assumption; reflexivity.
Qed.

Lemma sample_extractVariableAssignments_records node :
  records recorded node = false ->
  records recorded (SampleImports.extractVariableAssignments node).1 = false
  /\ forall assignment,
       assignment ∈ (SampleImports.extractVariableAssignments node).2 ->
       records recorded (variableValueNode assignment) = false.
Proof.
  induction node; intros Hnode;
    try (split; [exact Hnode | intros assignment Hin; now apply elem_of_nil in Hin]);
    cbn [records] in Hnode; split_records;
    cbn [SampleImports.extractVariableAssignments]; cbn zeta; cbn [fst snd records].
  all: repeat match goal with
         | IH : records recorded ?n = false -> _, Hn : records recorded ?n = false
           |- _ => destruct (IH Hn) as [? ?]; clear IH
         end.
  all: split;
    [repeat (apply orb_false_iff; split); assumption
    | intros assignment Hin;
      repeat (apply elem_of_app in Hin as [Hin | Hin]); eauto].
  apply elem_of_cons in Hin as [-> | Hin]; eauto.
Qed.

Lemma sample_rewrites :
  rewritesRecordNothing (H := SampleImports.imports) recorded.
Proof.
  split; [exact sample_simplifyBooleans_records |].
  split; [intros node Hnode; exact Hnode |].
  exact sample_extractVariableAssignments_records.
Qed.

End SampleRewrites.

(** The first ten deliveries with a given number, lowered in a store whose
    write set holds a collection: the write set is as it was. *)
Lemma lowering_without_access_nodes_witness :
  let st := mkStore (<[0 := []]> ∅) (<[2 := ["forwarders"]]> (<[1 := []]> ∅)) 3 2 in
  exists fragment st',
    processNode (H := SampleImports.imports) 4 Samples.deliveriesByNumber
      Samples.rootContext st = Ok (fragment, st')
    /\ setOf st' 2 = ["forwarders"].
Proof.
  intros st. eexists _, _. split; [vm_compute; reflexivity |].
  eapply (lowering_without_access_nodes (H := SampleImports.imports) WRITE 4
           Samples.deliveriesByNumber Samples.rootContext st);
    [apply sample_rewrites | reflexivity | cbn; lia | cbn; lia
    | vm_compute; reflexivity].
Defined.

(** The same tree compiled: the query reads the collection of deliveries and
    writes none. *)
Lemma getAQLQuery_declares_no_access_witness :
  exists compound st',
    getAQLQuery (H := SampleImports.imports) 4 Samples.deliveriesByNumber
      Samples.store = Ok (compound, st')
    /\ cq_readAccessedCollections compound = ["deliverys"]
    /\ cq_writeAccessedCollections compound = [].
Proof.
  eexists _, _. split; [vm_compute; reflexivity |].
  split; [reflexivity |].
  eapply (getAQLQuery_declares_no_access (H := SampleImports.imports) WRITE 4
            Samples.deliveriesByNumber Samples.store);
    [apply sample_rewrites | reflexivity | vm_compute; reflexivity].
Defined.
